(** * AI-Advisor (company-ai backend): chunking, indexing and grounded answers

    A shallow embedding of the retrieval and grounding pipeline of
    [apps/company-ai/backend/app/services]:

    - [chunking.py]           -> [Module Chunking]
    - [heading_detection.py]  -> [Module HeadingDetection]
    - [embeddings.py]         -> [Module Embeddings]
    - [indexer.py]            -> [Module Indexer]
    - [rag.py]                -> [Module Rag]

    and of the checks on an uploaded file name in [api/documents.py]
    ([Module Documents]).

    Python values are modelled as the code has them: a [str] is a list of
    code points, an [int] is a [Z], a [float] is a binary64 float, [None]
    is [option], a raised exception is an outcome of its own.  The SQLAlchemy
    session is an explicit state: the committed store, the store as the open
    transaction sees it, and the faults the database will raise. *)

From Stdlib Require Import Ascii String.
From Stdlib Require Import List ZArith NArith Lia Bool Floats.
From Stdlib Require Import Sorted.
Import ListNotations.

Set Implicit Arguments.
Open Scope Z_scope.

(* ================================================================== *)
(** * Python strings and lists *)
(* ================================================================== *)

Module Py.

(** A Python [str] is a sequence of Unicode code points. *)
Definition char := N.
Definition str := list char.

(** A literal: the code points of an ASCII string. *)
Definition txt (x : string) : str := map N_of_ascii (list_ascii_of_string x).

Definition ch (a : ascii) : char := N_of_ascii a.

(** The double quote, written by its code point. *)
Definition dquote : char := 34%N.

(** [len(x)] *)
Definition len {A} (x : list A) : Z := Z.of_nat (length x).

Definition in_range (lo hi c : N) : bool := (N.leb lo c && N.leb c hi)%bool.

(** [str.isspace] on one code point: the Unicode white space set, which is
    also what [str.strip], [str.split] without argument and the regular
    expression class [\s] use. *)
Definition is_space (c : char) : bool :=
  (in_range 9 13 c || in_range 28 32 c || N.eqb c 133 || N.eqb c 160
   || N.eqb c 5760 || in_range 8192 8202 c || N.eqb c 8232 || N.eqb c 8233
   || N.eqb c 8239 || N.eqb c 8287 || N.eqb c 12288)%bool.

(** Character tables.  They are exact for the code points up to U+00FF;
    code points above are carried through unchanged and classified as
    caseless symbols. *)
Definition is_ascii_digit (c : char) : bool := in_range 48 57 c.
Definition is_ascii_lower (c : char) : bool := in_range 97 122 c.
Definition is_ascii_upper (c : char) : bool := in_range 65 90 c.

Definition is_upper_char (c : char) : bool :=
  (is_ascii_upper c || in_range 192 214 c || in_range 216 222 c)%bool.

Definition is_lower_char (c : char) : bool :=
  (is_ascii_lower c || N.eqb c 170 || N.eqb c 181 || N.eqb c 186
   || in_range 223 246 c || in_range 248 255 c)%bool.

(** The class [\w]: alphanumeric code points and the underscore. *)
Definition is_word (c : char) : bool :=
  (is_ascii_digit c || is_ascii_upper c || is_ascii_lower c || N.eqb c 95
   || N.eqb c 170 || N.eqb c 178 || N.eqb c 179 || N.eqb c 181
   || N.eqb c 185 || N.eqb c 186 || in_range 188 190 c
   || in_range 192 214 c || in_range 216 246 c || in_range 248 255 c)%bool.

(** [str.lower] *)
Definition lower_char (c : char) : char :=
  if is_upper_char c then (c + 32)%N else c.
Definition lower (x : str) : str := map lower_char x.

(** [str.isupper]: no lowercase character and at least one uppercase one. *)
Definition isupper (x : str) : bool :=
  (forallb (fun c => negb (is_lower_char c)) x && existsb is_upper_char x)%bool.

Fixpoint str_eqb (x y : str) : bool :=
  match x, y with
  | [], [] => true
  | a :: x', b :: y' => (N.eqb a b && str_eqb x' y')%bool
  | _, _ => false
  end.

(** [x.startswith(p)] *)
Fixpoint startswith (x p : str) : bool :=
  match p, x with
  | [], _ => true
  | a :: p', b :: x' => (N.eqb a b && startswith x' p')%bool
  | _ :: _, [] => false
  end.

(** [x.endswith(p)] *)
Definition endswith (x p : str) : bool := startswith (rev x) (rev p).

Fixpoint dropwhile {A} (f : A -> bool) (x : list A) : list A :=
  match x with
  | [] => []
  | a :: x' => if f a then dropwhile f x' else x
  end.

Definition lstrip (x : str) : str := dropwhile is_space x.
Definition rstrip (x : str) : str := rev (dropwhile is_space (rev x)).
(** [x.strip()] *)
Definition strip (x : str) : str := lstrip (rstrip x).

(** Truthiness of a string or a list: non-empty. *)
Definition truthy {A} (x : list A) : bool :=
  match x with [] => false | _ => true end.

(** A slice bound [n] of a sequence of length [l], as Python clamps it:
    a negative bound counts from the end. *)
Definition clamp (n l : Z) : nat :=
  Z.to_nat (if n <? 0 then Z.max (l + n) 0 else Z.min n l).

(** [x[n:]] *)
Definition slice_from {A} (x : list A) (n : Z) : list A :=
  skipn (clamp n (len x)) x.
(** [x[:n]] *)
Definition slice_to {A} (x : list A) (n : Z) : list A :=
  firstn (clamp n (len x)) x.

(** [sep.join(xs)] *)
Fixpoint join (sep : str) (xs : list str) : str :=
  match xs with
  | [] => []
  | [x] => x
  | x :: xs' => x ++ sep ++ join sep xs'
  end.

(** [x.split(sep)] for a non-empty separator: the pieces between the
    occurrences of [sep] found from left to right.  [skip] counts the
    characters of a separator still to pass over, [acc] holds the current
    piece reversed. *)
Fixpoint split_aux (sep x acc : str) (skip : nat) : list str :=
  match x with
  | [] => [rev acc]
  | c :: x' =>
      match skip with
      | S k => split_aux sep x' acc k
      | O => if startswith x sep
             then rev acc :: split_aux sep x' [] (pred (length sep))
             else split_aux sep x' (c :: acc) O
      end
  end.
Definition split (x sep : str) : list str := split_aux sep x [] O.

(** [x.split()]: the maximal runs of non-space characters. *)
Fixpoint split_ws_aux (x acc : str) : list str :=
  match x with
  | [] => if truthy acc then [rev acc] else []
  | c :: x' =>
      if is_space c
      then (if truthy acc then rev acc :: split_ws_aux x' [] else split_ws_aux x' [])
      else split_ws_aux x' (c :: acc)
  end.
Definition split_ws (x : str) : list str := split_ws_aux x [].

(** The first offset at which [sub] occurs in [x]. *)
Fixpoint index_of (x sub : str) : option nat :=
  if startswith x sub then Some O
  else match x with
       | [] => None
       | _ :: x' => option_map S (index_of x' sub)
       end.

(** [x.find(sub, start)]: the lowest index at or after [start] where [sub]
    occurs, or -1. *)
Definition find (x sub : str) (start : Z) : Z :=
  let st := if start <? 0 then Z.max (len x + start) 0 else start in
  if len x <? st then -1
  else match index_of (skipn (Z.to_nat st) x) sub with
       | Some k => st + Z.of_nat k
       | None => -1
       end.

(** [sub in x] *)
Definition contains (x sub : str) : bool :=
  match index_of x sub with Some _ => true | None => false end.

(** [c in x] for one character. *)
Definition has_char (x : str) (c : char) : bool := existsb (N.eqb c) x.

(** [x.rfind(' ')] for a one-character needle: the highest index, or -1. *)
Fixpoint rfind_char_aux (x : str) (c : char) (i : Z) (best : Z) : Z :=
  match x with
  | [] => best
  | a :: x' => rfind_char_aux x' c (i + 1) (if N.eqb a c then i else best)
  end.
Definition rfind_char (x : str) (c : char) : Z := rfind_char_aux x c 0 (-1).

(** The last element of a list, [xs[-1]]. *)
Definition last_opt {A} (xs : list A) : option A :=
  match rev xs with [] => None | a :: _ => Some a end.

Definition sum_Z (xs : list Z) : Z := fold_left Z.add xs 0.

End Py.

(* ================================================================== *)
(** * Regular expressions (Python's [re], backtracking semantics) *)
(* ================================================================== *)

Module Re.
Import Py.

(** The patterns of the program, as syntax trees.  A capturing group that
    is only used for grouping is its content; [r+] is [Seq r (Star r)],
    [r?] is [Alt r Eps], [r{n,}] is [n] copies of [r] followed by [Star r]. *)
Inductive regex : Type :=
| Eps
| Cls (p : char -> bool)          (* one character of a class *)
| Seq (r1 r2 : regex)
| Alt (r1 r2 : regex)             (* r1|r2, r1 tried first *)
| Star (r : regex)                (* r*, greedy *)
| Lazy (r : regex)                (* r*?, shortest first *)
| Bol                             (* ^ *)
| Eol                             (* $ *)
| WordB                           (* \b *)
| Behind (p : char -> bool)       (* (?<=[...]) on one character *)
| Ahead (r : regex).              (* (?=...) *)

(** A position in the subject: the characters before it, nearest first,
    and the characters from it on. *)
Definition cont := str -> str -> option (str * str).

Definition head_is (p : char -> bool) (x : str) : bool :=
  match x with c :: _ => p c | [] => false end.

(** [\b]: exactly one of the two neighbours is a word character. *)
Definition word_boundary (pre suf : str) : bool :=
  xorb (head_is is_word pre) (head_is is_word suf).

(** [$] without MULTILINE: the end, or just before a final newline. *)
Definition at_eol (suf : str) : bool :=
  match suf with
  | [] => true
  | [c] => N.eqb c 10
  | _ => false
  end.

(** The loop of a greedy repetition [r*]: [body] matches one more [r].  It
    is tried first; an iteration that consumes nothing ends the loop. *)
Fixpoint star_loop (body : str -> str -> cont -> option (str * str)) (k : cont)
  (n : nat) (pre suf : str) {struct n} : option (str * str) :=
  match n with
  | O => k pre suf
  | S n' =>
      match body pre suf
              (fun p s => if (length s <? length suf)%nat
                          then star_loop body k n' p s else None) with
      | Some x => Some x
      | None => k pre suf
      end
  end.

(** The loop of a lazy repetition [r*?]: what follows is tried first. *)
Fixpoint lazy_loop (body : str -> str -> cont -> option (str * str)) (k : cont)
  (n : nat) (pre suf : str) {struct n} : option (str * str) :=
  match n with
  | O => k pre suf
  | S n' =>
      match k pre suf with
      | Some x => Some x
      | None =>
          body pre suf
            (fun p s => if (length s <? length suf)%nat
                        then lazy_loop body k n' p s else None)
      end
  end.

(** The backtracking matcher, in continuation-passing style: [k] is what
    remains to be matched after [r].  A repetition iterates at most once
    per remaining character. *)
Fixpoint m (r : regex) (pre suf : str) (k : cont) {struct r} : option (str * str) :=
  match r with
  | Eps => k pre suf
  | Cls p =>
      match suf with
      | c :: suf' => if p c then k (c :: pre) suf' else None
      | [] => None
      end
  | Seq r1 r2 => m r1 pre suf (fun p s => m r2 p s k)
  | Alt r1 r2 =>
      match m r1 pre suf k with
      | Some x => Some x
      | None => m r2 pre suf k
      end
  | Star r1 => star_loop (m r1) k (S (length suf)) pre suf
  | Lazy r1 => lazy_loop (m r1) k (S (length suf)) pre suf
  | Bol => match pre with [] => k pre suf | _ => None end
  | Eol => if at_eol suf then k pre suf else None
  | WordB => if word_boundary pre suf then k pre suf else None
  | Behind p => if head_is p pre then k pre suf else None
  | Ahead r1 =>
      match m r1 pre suf (fun p s => Some (p, s)) with
      | Some _ => k pre suf
      | None => None
      end
  end.

(** A match of [r] starting at the position [(pre, suf)]: the position
    where it ends. *)
Definition match_at (r : regex) (pre suf : str) : option (str * str) :=
  m r pre suf (fun p s => Some (p, s)).

(** The number of characters a match consumed. *)
Definition consumed (suf rest : str) : nat := (length suf - length rest)%nat.

(** [re.match(r, x)] as a truth value. *)
Definition re_match (r : regex) (x : str) : bool :=
  match match_at r [] x with Some _ => true | None => false end.

(** [re.search(r, x)] as a truth value. *)
Fixpoint search_aux (r : regex) (pre suf : str) : bool :=
  match match_at r pre suf with
  | Some _ => true
  | None => match suf with
            | [] => false
            | c :: suf' => search_aux r (c :: pre) suf'
            end
  end.
Definition search (r : regex) (x : str) : bool := search_aux r [] x.

(** [re.sub(r, repl, x)] for a constant replacement.  [skip] counts the
    characters of the current match still to pass over. *)
Fixpoint sub_aux (r : regex) (repl pre suf : str) (skip : nat) {struct suf} : str :=
  match skip with
  | S k =>
      match suf with
      | [] => []
      | c :: suf' => sub_aux r repl (c :: pre) suf' k
      end
  | O =>
      match match_at r pre suf with
      | Some (_, rest) =>
          repl ++
          match suf with
          | [] => []
          | c :: suf' =>
              match consumed suf rest with
              | O => c :: sub_aux r repl (c :: pre) suf' O
              | S k => sub_aux r repl (c :: pre) suf' k
              end
          end
      | None =>
          match suf with
          | [] => []
          | c :: suf' => c :: sub_aux r repl (c :: pre) suf' O
          end
      end
  end.
Definition sub (r : regex) (repl x : str) : str := sub_aux r repl [] x O.

(** [re.split(r, x)].  With [keep] the whole pattern is one capturing
    group, so each separator is returned between the pieces.  None of the
    program's split patterns matches the empty string; an empty match is
    passed over. *)
Fixpoint split_aux (keep : bool) (r : regex) (pre suf acc : str) (skip : nat)
  {struct suf} : list str :=
  match suf with
  | [] => [rev acc]
  | c :: suf' =>
      match skip with
      | S k => split_aux keep r (c :: pre) suf' acc k
      | O =>
          match match_at r pre suf with
          | Some (_, rest) =>
              match consumed suf rest with
              | O => split_aux keep r (c :: pre) suf' (c :: acc) O
              | S k =>
                  rev acc ::
                  (if keep then [firstn (S k) suf] else []) ++
                  split_aux keep r (c :: pre) suf' [] k
              end
          | None => split_aux keep r (c :: pre) suf' (c :: acc) O
          end
      end
  end.
Definition split (r : regex) (x : str) : list str := split_aux false r [] x [] O.
Definition split_keep (r : regex) (x : str) : list str := split_aux true r [] x [] O.

(** [re.findall(r, x)] for a pattern without groups: the matched texts. *)
Fixpoint findall_aux (r : regex) (pre suf : str) (skip : nat) {struct suf} : list str :=
  match skip with
  | S k =>
      match suf with
      | [] => []
      | c :: suf' => findall_aux r (c :: pre) suf' k
      end
  | O =>
      match match_at r pre suf with
      | Some (_, rest) =>
          firstn (consumed suf rest) suf ::
          match suf with
          | [] => []
          | c :: suf' => findall_aux r (c :: pre) suf' (pred (consumed suf rest))
          end
      | None =>
          match suf with
          | [] => []
          | c :: suf' => findall_aux r (c :: pre) suf' O
          end
      end
  end.
Definition findall (r : regex) (x : str) : list str := findall_aux r [] x O.

(** Building blocks. *)
Definition plus (r : regex) : regex := Seq r (Star r).
Definition opt (r : regex) : regex := Alt r Eps.
Fixpoint rep (n : nat) (r : regex) : regex :=
  match n with O => Eps | S n' => Seq r (rep n' r) end.
Definition at_least (n : nat) (r : regex) : regex := Seq (rep n r) (Star r).

Definition chr_is (c : char) : char -> bool := N.eqb c.
(** A literal text; [re.escape(x)] denotes the same pattern. *)
Fixpoint lit (x : str) : regex :=
  match x with
  | [] => Eps
  | c :: x' => Seq (Cls (chr_is c)) (lit x')
  end.
(** A literal text under IGNORECASE. *)
Fixpoint lit_i (x : str) : regex :=
  match x with
  | [] => Eps
  | c :: x' => Seq (Cls (fun a => N.eqb (lower_char a) (lower_char c))) (lit_i x')
  end.

Definition one_of (x : str) : char -> bool := fun c => has_char x c.
Definition any_char : char -> bool := fun _ => true.
Definition cls_space : char -> bool := is_space.            (* \s *)
Definition cls_digit : char -> bool := is_ascii_digit.      (* \d *)

End Re.

(* ================================================================== *)
(** * chunking.py *)
(* ================================================================== *)

Module Chunking.
Import Py.

Definition nl : char := 10%N.
Definition sp : char := 32%N.

(** [r'\n{3,}'] *)
Definition re_newlines3 : Re.regex := Re.at_least 3 (Re.Cls (Re.chr_is nl)).
(** [r'(?<=[.!?])\s+'] *)
Definition re_sentence_end : Re.regex :=
  Re.Seq (Re.Behind (Re.one_of (txt ".!?"))) (Re.plus (Re.Cls Re.cls_space)).

(** The variables the loops of [chunk_text] update. *)
Record state : Type := mkState {
  chunks : list str;
  current_chunk : list str;
  current_length : Z
}.

Section WithParameters.
Variables chunk_size overlap : Z.

(** Body of [for word in words] (lines 77-90).  The overlap computed under
    [if len(current_chunk) > 10] is overwritten by the two assignments that
    follow it at the level of the [else]. *)
Definition word_step (st : state) (word : str) : state :=
  let word_length := len word + 1 in
  if current_length st + word_length <=? chunk_size then
    mkState (chunks st) (current_chunk st ++ [word]) (current_length st + word_length)
  else
    let chunks' :=
      if truthy (current_chunk st)
      then chunks st ++ [join [sp] (current_chunk st)]
      else chunks st in
    mkState chunks' [word] word_length.

(** Body of [for sentence in sentences] (lines 58-90). *)
Definition sentence_step (st : state) (sentence : str) : state :=
  let sent_length := len sentence in
  if current_length st + sent_length + 1 <=? chunk_size then
    mkState (chunks st) (current_chunk st ++ [sentence])
            (current_length st + sent_length + 1)
  else if truthy (current_chunk st) then
    let chunk_text := join [sp] (current_chunk st) in
    let chunks' := chunks st ++ [chunk_text] in
    if overlap <? len chunk_text then
      mkState chunks' [slice_from chunk_text (- overlap); sentence]
              (overlap + sent_length + 1)
    else
      mkState chunks' [sentence] (sent_length + 1)
  else
    fold_left word_step (split_ws sentence) st.

(** Body of [for para in paragraphs] (lines 35-99). *)
Definition para_step (st : state) (para0 : str) : state :=
  let para := strip para0 in
  if negb (truthy para) then st
  else
    let para_length := len para in
    if current_length st + para_length + 2 <=? chunk_size then
      mkState (chunks st) (current_chunk st ++ [para])
              (current_length st + para_length + 2)
    else
      let chunks' :=
        if truthy (current_chunk st)
        then chunks st ++ [join [nl; nl] (current_chunk st)]
        else chunks st in
      if chunk_size <? para_length then
        fold_left sentence_step (Re.split re_sentence_end para)
                  (mkState chunks' [] 0)
      else
        match last_opt chunks' with
        | Some prev =>
            if overlap <? len prev then
              mkState chunks' [slice_from prev (- overlap); para]
                      (overlap + para_length + 2)
            else mkState chunks' [para] para_length
        | None => mkState chunks' [para] para_length
        end.

(** The final chunk (lines 102-104). *)
Definition final_chunk (st : state) : list str :=
  match current_chunk st with
  | [] => chunks st
  | first :: _ =>
      let chunk_text :=
        if contains first [nl; nl]
        then join [nl; nl] (current_chunk st)
        else join [sp] (current_chunk st) in
      chunks st ++ [chunk_text]
  end.

(** The loop [while len(chunk) > chunk_size] with the [if chunk] after it
    (lines 113-117).  [None] when the fuel runs out. *)
Fixpoint split_oversized (fuel : nat) (chunk : str) : option (list str) :=
  if chunk_size <? len chunk then
    match fuel with
    | O => None
    | S fuel' =>
        option_map (cons (slice_to chunk chunk_size))
                   (split_oversized fuel' (slice_from chunk (chunk_size - overlap)))
    end
  else Some (if truthy chunk then [chunk] else []).

(** The pass over [chunks] (lines 107-117).  Every iteration of the while
    loop that changes [chunk] shortens it, and one that does not change it
    repeats for ever, so [length chunk] iterations and one more test are
    all a terminating run can take: [None] stands for a run that does not
    terminate. *)
Fixpoint hard_cap (chunks : list str) : option (list str) :=
  match chunks with
  | [] => Some []
  | chunk :: rest =>
      if len chunk <=? chunk_size then option_map (cons chunk) (hard_cap rest)
      else
        match split_oversized (S (length chunk)) chunk with
        | None => None
        | Some pieces => option_map (app pieces) (hard_cap rest)
        end
  end.

(** The chunks before the hard cap (lines 21-104). *)
Definition build_chunks (text0 : str) : list str :=
  let text := strip (Re.sub re_newlines3 [nl; nl] text0) in
  let paragraphs := split text [nl; nl] in
  final_chunk (fold_left para_step paragraphs (mkState [] [] 0)).

(** [chunk_text(text, chunk_size, overlap)]; [None] when the call does not
    terminate. *)
Definition chunk_text (text : str) : option (list str) :=
  if (negb (truthy text) || (len (strip text) =? 0))%bool then Some []
  else
    match hard_cap (build_chunks text) with
    | None => None
    | Some final_chunks =>
        Some (map strip (filter (fun c => truthy (strip c)) final_chunks))
    end.

End WithParameters.

End Chunking.

(* ================================================================== *)
(** * heading_detection.py *)
(* ================================================================== *)

Module HeadingDetection.
Import Py.

Definition colon : char := 58%N.
Definition dot : char := 46%N.

(** [r'^\d+(\.\d+)*\s+'] *)
Definition re_numbering : Re.regex :=
  Re.Seq Re.Bol
    (Re.Seq (Re.plus (Re.Cls Re.cls_digit))
       (Re.Seq (Re.Star (Re.Seq (Re.Cls (Re.chr_is dot)) (Re.plus (Re.Cls Re.cls_digit))))
          (Re.plus (Re.Cls Re.cls_space)))).

(** [r'^[A-Z\s]+$'] *)
Definition re_all_caps : Re.regex :=
  Re.Seq Re.Bol
    (Re.Seq (Re.plus (Re.Cls (fun c => (is_ascii_upper c || is_space c)%bool))) Re.Eol).

(** [is_heading(line)] *)
Definition is_heading (line0 : str) : bool :=
  let line := strip line0 in
  if negb (truthy line) then false
  else if Re.re_match re_numbering line then true
  else if (endswith line [colon] && (len line <? 120))%bool then true
  else if ((len line <? 80) && isupper line && Re.re_match re_all_caps line)%bool then true
  else false.

(** A [dict] with integer keys, in insertion order. *)
Definition dict (V : Type) := list (Z * V).

Fixpoint dict_set {V} (d : dict V) (k : Z) (v : V) : dict V :=
  match d with
  | [] => [(k, v)]
  | (k', v') :: d' => if k' =? k then (k, v) :: d' else (k', v') :: dict_set d' k v
  end.

Fixpoint dict_get {V} (d : dict V) (k : Z) : option V :=
  match d with
  | [] => None
  | (k', v) :: d' => if k' =? k then Some v else dict_get d' k
  end.

Definition keys {V} (d : dict V) : list Z := map fst d.

(** The variables of the loop of [extract_headings]. *)
Record scan : Type := mkScan {
  heading_map : dict (option str);
  current_heading : option str;
  char_pos : Z
}.

(** Body of [for line in lines] (lines 60-75). *)
Definition line_step (sc : scan) (line : str) : scan :=
  let line_start := char_pos sc in
  let current_heading' :=
    if is_heading line then
      let heading_clean := strip (Re.sub re_numbering [] line) in
      let heading_clean :=
        if endswith heading_clean [colon]
        then strip (slice_to heading_clean (-1))
        else heading_clean in
      Some (if truthy heading_clean then heading_clean else strip line)
    else current_heading sc in
  mkScan (dict_set (heading_map sc) line_start current_heading')
         current_heading'
         (char_pos sc + (len line + 1)).

(** [extract_headings(text)] *)
Definition extract_headings (text : str) : dict (option str) :=
  heading_map (fold_left line_step (split text [Chunking.nl]) (mkScan [] None 0)).

(** [max(xs)] of a non-empty list of integers. *)
Definition max_list (x : Z) (xs : list Z) : Z := fold_left Z.max xs x.

(** [find_heading_for_position(heading_map, position)] *)
Definition find_heading_for_position (hm : dict (option str)) (position : Z) : option str :=
  if negb (truthy hm) then None
  else
    match filter (fun pos => pos <=? position) (keys hm) with
    | [] => None
    | p :: ps =>
        match dict_get hm (max_list p ps) with
        | Some h => h
        | None => None
        end
    end.

(** One returned tuple: [(chunk_text, char_start, char_end, heading)]. *)
Definition located : Type := (str * Z * Z * option str)%type.

(** The loop [for chunk in chunks] (lines 136-149); [search_start] is the
    running cursor. *)
Fixpoint locate (text : str) (hm : dict (option str)) (chunks : list str)
  (search_start : Z) : list located :=
  match chunks with
  | [] => []
  | chunk :: rest =>
      let found := find text chunk search_start in
      let chunk_start := if found =? -1 then search_start else found in
      let chunk_end := chunk_start + len chunk in
      let chunk_heading := find_heading_for_position hm chunk_start in
      (chunk, chunk_start, chunk_end, chunk_heading)
        :: locate text hm rest (chunk_start + 1)
  end.

(** [chunk_text_with_headings(text, chunk_size, overlap)]; [None] when
    [chunk_text] does not terminate. *)
Definition chunk_text_with_headings (text : str) (chunk_size overlap : Z)
  : option (list located) :=
  if (negb (truthy text) || (len (strip text) =? 0))%bool then Some []
  else
    let hm := extract_headings text in
    match Chunking.chunk_text chunk_size overlap text with
    | None => None
    | Some chunks => Some (locate text hm chunks 0)
    end.

End HeadingDetection.

(* ================================================================== *)
(** * embeddings.py and llm.py: the two Ollama clients *)
(* ================================================================== *)

Module Embeddings.
Import Py.

Definition vector := list float.

(** [OllamaEmbedder.embed(text)].  [ollama text] is the first entry of the
    ["embeddings"] field of the HTTP response, [None] when the request
    raises or the response has no such entry. *)
Definition embed (ollama : str -> option vector) (text : str) : option vector :=
  if (negb (truthy text) || negb (truthy (strip text)))%bool then None
  else
    match ollama text with
    | None => None
    | Some embedding => if truthy embedding then Some embedding else None
    end.

(** [OllamaEmbedder.embed_batch(texts)] *)
Definition embed_batch (ollama : str -> option vector) (texts : list str)
  : list (option vector) :=
  map (embed ollama) texts.

End Embeddings.

Module Llm.
Import Py.

(** [OllamaChatClient.generate(prompt)].  [ollama prompt] is the
    ["response"] field of the HTTP response, [None] when the request times
    out or raises. *)
Definition generate (ollama : str -> option str) (prompt : str) : option str :=
  if (negb (truthy prompt) || negb (truthy (strip prompt)))%bool then None
  else
    match ollama prompt with
    | None => None
    | Some answer => if truthy answer then Some (strip answer) else None
    end.

End Llm.

(* ================================================================== *)
(** * db/models and the SQLAlchemy session *)
(* ================================================================== *)

(** A UUID, in its canonical text form. *)
Definition uuid := Py.str.

Inductive IndexStatus : Type := NOT_INDEXED | INDEXING | INDEXED | FAILED.

Module Document.
Record t : Type := mk {
  id : uuid;
  company_id : uuid;
  filename_original : Py.str;
  text_extracted : option Py.str;
  index_status : IndexStatus;
  index_error : option Py.str
}.
End Document.

Module DocumentChunk.
Record t : Type := mk {
  id : uuid;
  company_id : uuid;
  document_id : uuid;
  chunk_index : Z;
  text : Py.str;
  token_estimate : option Z;
  embedding : Embeddings.vector;
  heading : option Py.str;
  char_start : option Z;
  char_end : option Z
}.
End DocumentChunk.

Module Db.
Import Py.

(** The two tables the services use. *)
Record store : Type := mkStore {
  documents : list Document.t;
  document_chunks : list DocumentChunk.t
}.

(** A session ([SessionLocal()], autocommit and autoflush off):
    - [committed]: what the database holds;
    - [working]: the same as the open transaction and the session's objects
      see it, with the changes not committed yet;
    - [faults]: for each coming database call, whether it raises and with
      which message (none left: no call raises);
    - [uuid4], [drawn]: the values [uuid.uuid4] returns, and how many were
      drawn. *)
Record session : Type := mkSession {
  committed : store;
  working : store;
  faults : list (option str);
  uuid4 : nat -> uuid;
  drawn : nat
}.

(** How a call ends: it returns, an exception propagates, or it does not
    terminate. *)
Inductive outcome (A : Type) : Type :=
| Returned (a : A)
| Raised (e : str)
| Diverged.
Arguments Returned {A} a.
Arguments Raised {A} e.
Arguments Diverged {A}.

Definition M (A : Type) : Type := session -> outcome A * session.

Definition ret {A} (a : A) : M A := fun s => (Returned a, s).
Definition bind {A B} (c : M A) (f : A -> M B) : M B :=
  fun s =>
    match c s with
    | (Returned a, s') => f a s'
    | (Raised e, s') => (Raised e, s')
    | (Diverged, s') => (Diverged, s')
    end.
Definition raise {A} (e : str) : M A := fun s => (Raised e, s).
Definition diverge {A} : M A := fun s => (Diverged, s).

(** [try: body / except Exception as e: handler(str(e))] *)
Definition try_except {A} (body : M A) (handler : str -> M A) : M A :=
  fun s =>
    match body s with
    | (Raised e, s') => handler e s'
    | r => r
    end.

Declare Scope db_scope.
Delimit Scope db_scope with db.
Notation "x <- c ;; k" := (bind c (fun x => k))
  (at level 61, c at next level, right associativity) : db_scope.
Notation "c ;; k" := (bind c (fun _ => k))
  (at level 61, right associativity) : db_scope.
Open Scope db_scope.

Definition with_working (s : session) (w : store) : session :=
  mkSession (committed s) w (faults s) (uuid4 s) (drawn s).

(** Every call that reaches the database takes the next fault. *)
Definition db_call : M unit :=
  fun s =>
    match faults s with
    | [] => (Returned tt, s)
    | f :: fs =>
        let s' := mkSession (committed s) (working s) fs (uuid4 s) (drawn s) in
        match f with
        | None => (Returned tt, s')
        | Some e => (Raised e, s')
        end
    end.

(** [db.commit()]: the transaction's changes become the database state. *)
Definition commit : M unit :=
  db_call ;;
  fun s => (Returned tt, mkSession (working s) (working s) (faults s) (uuid4 s) (drawn s)).

(** [db.rollback()]: the transaction is rolled back and every object of
    the session is expired, so changes made to them since the last commit
    are discarded and their attributes are read again from the database. *)
Definition rollback : M unit :=
  db_call ;;
  fun s => (Returned tt, with_working s (committed s)).

Definition get_store : M store := fun s => (Returned (working s), s).
Definition put_store (w : store) : M unit := fun s => (Returned tt, with_working s w).

(** [db.query(Document).filter(Document.id == document_id).first()] *)
Definition query_document (document_id : uuid) : M (option Document.t) :=
  db_call ;;
  w <- get_store ;;
  ret (List.find (fun d => str_eqb (Document.id d) document_id) (documents w)).

(** [db.query(DocumentChunk).filter(DocumentChunk.document_id == document_id).delete()] *)
Definition delete_chunks (document_id : uuid) : M unit :=
  db_call ;;
  w <- get_store ;;
  put_store (mkStore (documents w)
               (filter (fun c => negb (str_eqb (DocumentChunk.document_id c) document_id))
                       (document_chunks w))).

(** [document.index_status = st; document.index_error = err] on the
    session's object for the row [document_id]. *)
Definition set_index_state (document_id : uuid) (st : IndexStatus) (err : option str)
  : M unit :=
  w <- get_store ;;
  put_store
    (mkStore
       (map (fun d =>
               if str_eqb (Document.id d) document_id
               then Document.mk (Document.id d) (Document.company_id d)
                      (Document.filename_original d) (Document.text_extracted d) st err
               else d)
            (documents w))
       (document_chunks w)).

(** [db.add(chunk)]: the new row gets its [id] from [uuid.uuid4]. *)
Definition add_chunk (mk_chunk : uuid -> DocumentChunk.t) : M unit :=
  fun s =>
    let c := mk_chunk (uuid4 s (drawn s)) in
    (Returned tt,
     mkSession (committed s)
       (mkStore (documents (working s)) (document_chunks (working s) ++ [c]))
       (faults s) (uuid4 s) (S (drawn s))).

End Db.

(* ================================================================== *)
(** * indexer.py *)
(* ================================================================== *)

Module Indexer.
Import Py Db.

(** [estimate_tokens(text)] *)
Definition estimate_tokens (text : str) : Z := len text / 4.

(** [(success, error_message, chunks_created)] *)
Definition result : Type := (bool * option str * Z)%type.

(** [enumerate(xs)] *)
Definition enumerate {A} (xs : list A) : list (nat * A) :=
  combine (seq 0 (length xs)) xs.

(** A [for] loop that threads an accumulator through database effects. *)
Fixpoint for_each {A B} (body : B -> A -> M B) (xs : list A) (acc : B) : M B :=
  match xs with
  | [] => ret acc
  | x :: xs' => acc' <- body acc x ;; for_each body xs' acc'
  end.

Section WithEmbedder.
Variable ollama : str -> option Embeddings.vector.

(** Body of the loop over [enumerate(zip(chunks_with_metadata, embeddings))]
    (lines 94-116); the accumulator is [chunks_created]. *)
Definition add_step (document : Document.t) (chunks_created : Z)
  (item : nat * (HeadingDetection.located * option Embeddings.vector)) : M Z :=
  let '(idx, ((chunk_content, char_start, char_end, heading), embedding)) := item in
  match embedding with
  | None => ret chunks_created
  | Some e =>
      if negb (len e =? 768) then ret chunks_created
      else
        add_chunk (fun new_id =>
          DocumentChunk.mk new_id (Document.company_id document) (Document.id document)
            (Z.of_nat idx) chunk_content (Some (estimate_tokens chunk_content))
            e heading (Some char_start) (Some char_end)) ;;
        ret (chunks_created + 1)
  end.

(** The [try] block of [index_document] (lines 54-133). *)
Definition index_body (document : Document.t) (document_id : uuid) (text : str)
  : M result :=
  set_index_state document_id INDEXING None ;;
  commit ;;
  delete_chunks document_id ;;
  commit ;;
  match HeadingDetection.chunk_text_with_headings text 1000 150 with
  | None => diverge
  | Some chunks_with_metadata =>
      if negb (truthy chunks_with_metadata) then
        set_index_state document_id NOT_INDEXED
          (Some (txt "No chunks generated from document text")) ;;
        commit ;;
        ret (false, Some (txt "No chunks generated"), 0)
      else
        let chunks := map (fun '(chunk_text, _, _, _) => chunk_text) chunks_with_metadata in
        let embeddings := Embeddings.embed_batch ollama chunks in
        let failed_count :=
          len (filter (fun e => match e with None => true | Some _ => false end)
                 embeddings) in
        if failed_count =? len embeddings then
          set_index_state document_id FAILED
            (Some (txt "Failed to generate embeddings for all chunks")) ;;
          commit ;;
          ret (false, Some (txt "Failed to generate embeddings"), 0)
        else
          chunks_created <-
            for_each (add_step document)
              (enumerate (combine chunks_with_metadata embeddings)) 0 ;;
          commit ;;
          (if 0 <? chunks_created
           then set_index_state document_id INDEXED None
           else set_index_state document_id FAILED
                  (Some (txt "No chunks were successfully indexed"))) ;;
          commit ;;
          ret (true, None, chunks_created)
  end.

(** The [except Exception as e] block (lines 135-141): the two attributes
    are assigned before [db.rollback()]. *)
Definition index_handler (document_id : uuid) (e : str) : M result :=
  set_index_state document_id FAILED (Some e) ;;
  rollback ;;
  commit ;;
  ret (false, Some e, 0).

(** [index_document(document_id, company_id, db)] *)
Definition index_document (document_id company_id : str) : M result :=
  found <- query_document document_id ;;
  match found with
  | None => ret (false, Some (txt "Document not found"), 0)
  | Some document =>
      if negb (str_eqb (Document.company_id document) company_id) then
        ret (false, Some (txt "Document does not belong to company"), 0)
      else
        match Document.text_extracted document with
        | None => ret (false, Some (txt "Document has no extracted text"), 0)
        | Some text =>
            if negb (truthy text) then
              ret (false, Some (txt "Document has no extracted text"), 0)
            else
              try_except (index_body document document_id text)
                         (index_handler document_id)
        end
  end.

End WithEmbedder.

End Indexer.

(* ================================================================== *)
(** * core/config.py *)
(* ================================================================== *)

Module Config.
Record Settings : Type := mkSettings {
  RAG_TOP_K : Z;
  RAG_MAX_CONTEXT_CHARS : Z
}.
(** The defaults of [Settings]. *)
Definition settings : Settings := mkSettings 5 6000.
End Config.

(* ================================================================== *)
(** * rag.py *)
(* ================================================================== *)

Set Warnings "-inexact-float".

Module Rag.
Import Py Db.

(** [float(n)] of a Python [int] (exact below 2^53). *)
Definition float_of_Z (z : Z) : float :=
  if z <? 0 then PrimFloat.opp (PrimFloat.of_uint63 (Uint63.of_Z (- z)))
  else PrimFloat.of_uint63 (Uint63.of_Z z).

(** [ORDER BY key DESC] and [sorted(xs, key=..., reverse=True)]: a stable
    sort, rows of equal key stay in their order. *)
Fixpoint insert_desc {A} (key : A -> float) (x : A) (l : list A) : list A :=
  match l with
  | [] => [x]
  | y :: l' => if PrimFloat.ltb (key x) (key y) then y :: insert_desc key x l'
               else x :: l
  end.
Definition order_by_desc {A} (key : A -> float) (l : list A) : list A :=
  fold_right (insert_desc key) [] l.

(** [xs.sort(key=len)]: stable, shortest first. *)
Fixpoint insert_len (x : str) (l : list str) : list str :=
  match l with
  | [] => [x]
  | y :: l' => if len y <? len x then y :: insert_len x l' else x :: l
  end.
Definition sort_by_len (l : list str) : list str := fold_right insert_len [] l.

(** One returned chunk dictionary.  The fallback search leaves out the
    keys ["semantic_score"] and ["lexical_score"]. *)
Module Hit.
Record t : Type := mk {
  chunk_id : str;
  document_id : str;
  document_filename : str;
  chunk_index : Z;
  text : str;
  heading : option str;
  similarity_score : float;
  semantic_score : option float;
  lexical_score : option float;
  token_estimate : option Z
}.
End Hit.

(** A value of [sources_map]. *)
Module Entry.
Record t : Type := mk {
  document_id : str;
  document_filename : str;
  heading : option str;
  quotes : list str;
  chunk_index : Z;
  similarity_score : float
}.
End Entry.

Module Citation.
Record t : Type := mk {
  document_id : str;
  document_filename : str;
  heading : option str;
  chunk_index : Z
}.
End Citation.

Module Source.
Record t : Type := mk {
  document_id : str;
  filename : str;
  heading : option str;
  quotes : list str
}.
End Source.

Section WithServices.

(** The embedding and chat endpoints. *)
Variable ollama_embed : str -> option Embeddings.vector.
Variable ollama_chat : str -> option str.
(** pgvector's cosine distance [embedding <=> query_vec]. *)
Variable cosine_distance : Embeddings.vector -> Embeddings.vector -> float.
(** [ts_rank_cd(text_tsv, plainto_tsquery('english', query))] for a chunk
    text and a query; [None] is SQL's NULL. *)
Variable ts_rank_cd : str -> str -> option float.
Variable settings : Config.Settings.

(** [WHERE dc.company_id = :company_id [AND dc.document_id = :document_id]] *)
Definition base_where (company_id : str) (document_id : option str)
  (dc : DocumentChunk.t) : bool :=
  (str_eqb (DocumentChunk.company_id dc) company_id &&
   match document_id with
   | Some d => if truthy d then str_eqb (DocumentChunk.document_id dc) d else true
   | None => true
   end)%bool.

(** [LIMIT n]: PostgreSQL refuses a negative count. *)
Definition limit {A} (n : Z) (rows : list A) : M (list A) :=
  if n <? 0 then raise (txt "LIMIT must not be negative")
  else ret (firstn (Z.to_nat n) rows).

Definition semantic_of (query_vec : Embeddings.vector) (dc : DocumentChunk.t) : float :=
  (1 - cosine_distance (DocumentChunk.embedding dc) query_vec)%float.

Definition lexical_of (query : str) (dc : DocumentChunk.t) : float :=
  match ts_rank_cd (DocumentChunk.text dc) query with
  | Some x => x
  | None => 0%float
  end.

Definition final_of (query_vec : Embeddings.vector) (query : str)
  (dc : DocumentChunk.t) : float :=
  (0.7 * semantic_of query_vec dc + 0.3 * lexical_of query dc)%float.

(** The hybrid SQL statement (lines 89-126). *)
Definition hybrid_query (query_vec : Embeddings.vector) (query company_id : str)
  (document_id : option str) (candidate_limit top_k : Z) : M (list DocumentChunk.t) :=
  db_call ;;
  w <- get_store ;;
  candidates <-
    limit candidate_limit
      (order_by_desc (semantic_of query_vec)
         (filter (base_where company_id document_id) (document_chunks w))) ;;
  limit top_k (order_by_desc (final_of query_vec query) candidates).

(** The semantic-only SQL statement (lines 198-211). *)
Definition semantic_query (query_vec : Embeddings.vector) (company_id : str)
  (document_id : option str) (top_k : Z) : M (list DocumentChunk.t) :=
  db_call ;;
  w <- get_store ;;
  limit top_k
    (order_by_desc (semantic_of query_vec)
       (filter (base_where company_id document_id) (document_chunks w))).

(** [{str(doc.id): doc.filename_original for doc in
     db.query(Document).filter(Document.id.in_(document_ids)).all()}] *)
Definition filenames (document_ids : list str) : M (list (str * str)) :=
  db_call ;;
  w <- get_store ;;
  ret (map (fun d => (Document.id d, Document.filename_original d))
         (filter (fun d => existsb (str_eqb (Document.id d)) document_ids)
                 (documents w))).

(** [documents.get(str(doc_id), "Unknown")] *)
Fixpoint filename_of (documents : list (str * str)) (doc_id : str) : str :=
  match documents with
  | [] => txt "Unknown"
  | (k, v) :: rest => if str_eqb k doc_id then v else filename_of rest doc_id
  end.

(** [_fallback_semantic_search] *)
Definition _fallback_semantic_search (query : str) (query_embedding : Embeddings.vector)
  (company_id : str) (top_k : Z) (document_id : option str) : M (list Hit.t) :=
  rows <- semantic_query query_embedding company_id document_id top_k ;;
  if negb (truthy rows) then ret []
  else
    documents <- filenames (map DocumentChunk.document_id rows) ;;
    ret (map (fun dc =>
                Hit.mk (DocumentChunk.id dc) (DocumentChunk.document_id dc)
                  (filename_of documents (DocumentChunk.document_id dc))
                  (DocumentChunk.chunk_index dc) (DocumentChunk.text dc)
                  (DocumentChunk.heading dc)
                  (semantic_of query_embedding dc) None None
                  (DocumentChunk.token_estimate dc))
             rows).

(** The chunk dictionaries of the hybrid path (lines 151-167). *)
Definition hybrid_hit (query_embedding : Embeddings.vector) (query : str)
  (documents : list (str * str)) (dc : DocumentChunk.t) : Hit.t :=
  Hit.mk (DocumentChunk.id dc) (DocumentChunk.document_id dc)
    (filename_of documents (DocumentChunk.document_id dc))
    (DocumentChunk.chunk_index dc) (DocumentChunk.text dc)
    (DocumentChunk.heading dc)
    (final_of query_embedding query dc)
    (Some (semantic_of query_embedding dc))
    (Some (lexical_of query dc))
    (DocumentChunk.token_estimate dc).

(** [perform_semantic_search].  The [try] covers the hybrid statement
    only; its handler returns what the fallback returns. *)
Definition perform_semantic_search (query company_id : str) (top_k : Z)
  (document_id : option str) : M (list Hit.t) :=
  match Embeddings.embed ollama_embed query with
  | None => ret []
  | Some query_embedding =>
      if negb (len query_embedding =? 768) then ret []
      else
        let candidate_limit := Z.max (top_k * 4) 20 in
        r <- try_except
               (rows <- hybrid_query query_embedding query company_id document_id
                          candidate_limit top_k ;;
                ret (inl rows))
               (fun _ =>
                  hits <- _fallback_semantic_search query query_embedding company_id
                            top_k document_id ;;
                  ret (inr hits)) ;;
        match r with
        | inr hits => ret hits
        | inl rows =>
            if negb (truthy rows) then ret []
            else
              documents <- filenames (map DocumentChunk.document_id rows) ;;
              ret (map (hybrid_hit query_embedding query documents) rows)
        end
  end.

(** The system prompt of [build_rag_prompt], line by line. *)
Definition system_prompt : str :=
  join [Chunking.nl]
    [
     txt "You are a company AI assistant. Your role is to answer questions based ONLY on the provided context from company documents.";
     [];
     txt "CRITICAL RULES - STRICT ENFORCEMENT:";
     [];
     txt "1. Answer ONLY using DIRECT, EXPLICIT information from the provided context below.";
     txt "   - Use ONLY information that is clearly stated in the context.";
     txt "   - Do NOT infer, imply, or speculate.";
     txt "   - Do NOT connect indirectly related sections.";
     txt "   - Do NOT guess intent or meaning.";
     [];
     txt "2. FORBIDDEN LANGUAGE - NEVER USE:";
     txt "   - " ++ [dquote] ++ txt "This might imply..." ++ [dquote];
     txt "   - " ++ [dquote] ++ txt "This could suggest..." ++ [dquote];
     txt "   - " ++ [dquote] ++ txt "Based on related sections..." ++ [dquote];
     txt "   - " ++ [dquote] ++ txt "It may be assumed..." ++ [dquote];
     txt "   - " ++ [dquote] ++ txt "This might mean..." ++ [dquote];
     txt "   - " ++ [dquote] ++ txt "This could indicate..." ++ [dquote];
     txt "   - Any form of speculation or inference";
     [];
     txt "3. If the answer is not EXPLICITLY in the context:";
     txt "   - You MUST say: " ++ [dquote] ++ txt "I don't have enough information in the uploaded documents to answer this question." ++ [dquote];
     txt "   - You MAY mention which documents were checked (if any chunks were retrieved).";
     txt "   - You MAY suggest uploading the relevant policy/document.";
     txt "   - You MUST NOT infer or imply an answer from related but non-direct information.";
     [];
     txt "4. Do NOT use any knowledge outside of the provided context.";
     [];
     txt "5. Do NOT make up or guess information.";
     [];
     txt "6. Cite which document the information comes from when possible.";
     [];
     txt "7. If you retrieved chunks but they don't directly answer the question:";
     txt "   - State clearly that the documents don't contain the requested information.";
     txt "   - Do NOT try to infer an answer from tangentially related content.";
     [];
     txt "Context from company documents:";
     []
    ].

Definition em_dash : char := 8212%N.

(** [build_rag_prompt(context_chunks, user_question)] *)
Definition build_rag_prompt (context_chunks : list Hit.t) (user_question : str) : str :=
  let context_block :=
    fold_left
      (fun block chunk =>
         let doc_name := Hit.document_filename chunk in
         let chunk_text := Hit.text chunk in
         match Hit.heading chunk with
         | Some ((_ :: _) as heading) =>
             block ++ [Chunking.nl] ++ txt "[Document: " ++ doc_name ++ txt " "
               ++ [em_dash] ++ txt " Section: " ++ heading ++ txt "]"
               ++ [Chunking.nl] ++ chunk_text ++ [Chunking.nl]
         | _ =>
             block ++ [Chunking.nl] ++ txt "[Document: " ++ doc_name ++ txt "]"
               ++ [Chunking.nl] ++ chunk_text ++ [Chunking.nl]
         end)
      context_chunks [] in
  let context_block :=
    if Config.RAG_MAX_CONTEXT_CHARS settings <? len context_block
    then slice_to context_block (Config.RAG_MAX_CONTEXT_CHARS settings)
           ++ [Chunking.nl] ++ txt "[... context truncated ...]"
    else context_block in
  let user_prompt :=
    [Chunking.nl; Chunking.nl] ++ txt "Question: " ++ user_question
      ++ [Chunking.nl; Chunking.nl]
      ++ txt "Answer based ONLY on EXPLICIT information in the context above. Do NOT infer, imply, or speculate. If the answer is not directly stated, say you don't have enough information." in
  system_prompt ++ context_block ++ user_prompt.

(** ** Quotes *)

(** [r'([.!?]\s+|\.$)'] *)
Definition re_quote_delim : Re.regex :=
  Re.Alt (Re.Seq (Re.Cls (Re.one_of (txt ".!?"))) (Re.plus (Re.Cls Re.cls_space)))
         (Re.Seq (Re.Cls (Re.chr_is HeadingDetection.dot)) Re.Eol).

(** The loop over [range(0, len(sentences) - 1, 2)] (lines 624-632): each
    piece is joined with the separator after it; the piece after the last
    separator is not visited. *)
Fixpoint reconstruct (sentences : list str) : list str :=
  match sentences with
  | a :: b :: rest =>
      let sentence := strip (a ++ b) in
      (if truthy sentence then [sentence] else []) ++ reconstruct rest
  | _ => []
  end.

Definition ellipsis : str := txt "...".

(** The truncation of lines 644-649 and 659-664. *)
Definition truncate (max_length : Z) (x : str) : str :=
  let truncated := slice_to x max_length in
  let last_space := rfind_char truncated Chunking.sp in
  if PrimFloat.ltb (float_of_Z max_length * 0.7)%float (float_of_Z last_space)
  then slice_to truncated last_space ++ ellipsis
  else rstrip truncated ++ ellipsis.

(** The loop [for sentence in reconstructed] (lines 637-651). *)
Fixpoint pick_quotes (max_quotes max_length : Z) (sentences quotes : list str)
  : list str :=
  match sentences with
  | [] => quotes
  | sentence :: rest =>
      if len sentence <=? max_length then
        let quotes' := quotes ++ [sentence] in
        if max_quotes <=? len quotes' then quotes'
        else pick_quotes max_quotes max_length rest quotes'
      else if len quotes =? 0 then quotes ++ [truncate max_length sentence]
      else pick_quotes max_quotes max_length rest quotes
  end.

(** [_extract_quotes(chunk_text, max_quotes, max_length)] *)
Definition _extract_quotes (chunk_text : str) (max_quotes max_length : Z) : list str :=
  if (negb (truthy chunk_text) || negb (truthy (strip chunk_text)))%bool then []
  else
    let text := strip chunk_text in
    let sentences := Re.split_keep re_quote_delim text in
    let reconstructed := reconstruct sentences in
    let quotes :=
      if truthy reconstructed
      then pick_quotes max_quotes max_length reconstructed []
      else [] in
    if truthy quotes then slice_to quotes max_quotes
    else if max_length <? len text then [truncate max_length text]
    else [text].

(** ** Keywords *)

Definition stop_words : list str :=
  map txt
    ["the"; "a"; "an"; "and"; "or"; "but"; "in"; "on"; "at"; "to"; "for";
     "of"; "with"; "by"; "from"; "as"; "is"; "are"; "was"; "were"; "be";
     "been"; "being"; "have"; "has"; "had"; "do"; "does"; "did"; "will";
     "would"; "could"; "should"; "may"; "might"; "must"; "can"; "this";
     "that"; "these"; "those"; "i"; "you"; "he"; "she"; "it"; "we"; "they";
     "what"; "which"; "who"; "where"; "when"; "why"; "how"; "if"; "then";
     "than"; "more"; "most"; "less"; "least"; "very"; "much"; "many";
     "some"; "any"; "all"; "each"; "every"; "no"; "not"; "only"; "just"]%string.

(** [r'\b[a-z0-9]+\b'] *)
Definition re_word : Re.regex :=
  Re.Seq Re.WordB
    (Re.Seq (Re.plus (Re.Cls (fun c => (is_ascii_lower c || is_ascii_digit c)%bool)))
            Re.WordB).
(** [r'\b\d+\b'] *)
Definition re_number : Re.regex :=
  Re.Seq Re.WordB (Re.Seq (Re.plus (Re.Cls Re.cls_digit)) Re.WordB).

Definition mem (x : str) (xs : list str) : bool := existsb (str_eqb x) xs.

(** [_extract_answer_keywords(answer)]; the [set] as a list. *)
Definition _extract_answer_keywords (answer : str) : list str :=
  if negb (truthy answer) then []
  else
    let text := lower answer in
    let words := Re.findall re_word text in
    let keywords :=
      filter (fun w => (negb (mem w stop_words) && (2 <? len w))%bool) words in
    let numbers := Re.findall re_number answer in
    keywords ++ numbers.

(** [r'\b' + re.escape(keyword.lower()) + r'\b'] *)
Definition re_keyword (keyword : str) : Re.regex :=
  Re.Seq Re.WordB (Re.Seq (Re.lit (lower keyword)) Re.WordB).

(** [_quote_is_relevant(quote, answer_keywords)] *)
Definition _quote_is_relevant (quote : str) (answer_keywords : list str) : bool :=
  if (negb (truthy quote) || negb (truthy answer_keywords))%bool then false
  else
    let quote_lower := lower quote in
    existsb (fun keyword => Re.search (re_keyword keyword) quote_lower) answer_keywords.

(** ** Cleaning the answer *)

Definition seqs (rs : list Re.regex) : Re.regex := fold_right Re.Seq Re.Eps rs.
Definition alts (r : Re.regex) (rs : list Re.regex) : Re.regex :=
  fold_left Re.Alt rs r.
Definition ci (x : string) : Re.regex := Re.lit_i (txt x).

(** [.*?(?=\.|:|\n)] under DOTALL *)
Definition up_to_stop : Re.regex :=
  Re.Seq (Re.Lazy (Re.Cls Re.any_char))
    (Re.Ahead (alts (Re.Cls (Re.chr_is HeadingDetection.dot))
                 [Re.Cls (Re.chr_is HeadingDetection.colon);
                  Re.Cls (Re.chr_is Chunking.nl)])).

Definition document_or_chunk : Re.regex := alts (ci "Document") [ci "Chunk"].

(** The list [preambles] (lines 693-701), under IGNORECASE and DOTALL. *)
Definition preambles : list Re.regex :=
  [ seqs [ci "I've "; alts (ci "checked") [ci "searched"; ci "reviewed"]; ci " ";
          alts (ci "through ") [Re.Eps]; ci "the "; alts (ci "provided ") [Re.Eps];
          ci "document"; Re.opt (ci "s"); up_to_stop];
    seqs [ci "I've found relevant information"; up_to_stop];
    seqs [ci "According to "; document_or_chunk; up_to_stop];
    seqs [ci "As stated in "; document_or_chunk; up_to_stop];
    seqs [ci "Based on "; document_or_chunk; up_to_stop];
    seqs [ci "Document checked:"; up_to_stop];
    seqs [ci "Document"; Re.opt (ci "s"); ci " ";
          alts (ci "checked") [ci "reviewed"; ci "searched"]; ci ":"; up_to_stop] ].

(** [[0-9a-f]] under IGNORECASE *)
Definition hex : Re.regex :=
  Re.Cls (fun c => (is_ascii_digit c || in_range 97 102 c || in_range 65 70 c)%bool).

(** [r'\b[0-9a-f]{8}-[0-9a-f]{4}-[0-9a-f]{4}-[0-9a-f]{4}-[0-9a-f]{12}\b'] *)
Definition uuid_pattern : Re.regex :=
  seqs [Re.WordB; Re.rep 8 hex; ci "-"; Re.rep 4 hex; ci "-"; Re.rep 4 hex; ci "-";
        Re.rep 4 hex; ci "-"; Re.rep 12 hex; Re.WordB].

(** [r'Chunk:\s*[^\s,]+'] under IGNORECASE *)
Definition chunk_ref : Re.regex :=
  seqs [ci "Chunk:"; Re.Star (Re.Cls Re.cls_space);
        Re.plus (Re.Cls (fun c => negb (is_space c || N.eqb c 44)%bool))].

(** [r' {2,}'] *)
Definition re_spaces2 : Re.regex := Re.at_least 2 (Re.Cls (Re.chr_is Chunking.sp)).

(** [_clean_answer_text(answer)] *)
Definition _clean_answer_text (answer : str) : str :=
  if negb (truthy answer) then answer
  else
    let cleaned := fold_left (fun cleaned pattern => Re.sub pattern [] cleaned)
                     preambles answer in
    let cleaned := Re.sub uuid_pattern [] cleaned in
    let cleaned := Re.sub chunk_ref [] cleaned in
    let cleaned := Re.sub Chunking.re_newlines3 [Chunking.nl; Chunking.nl] cleaned in
    let cleaned := Re.sub re_spaces2 [Chunking.sp] cleaned in
    strip cleaned.

(** ** Answering *)

(** [(answer, citations, sources, confidence, used_chunks)] *)
Definition answer : Type := (str * list Citation.t * list Source.t * str * Z)%type.

(** The key [(doc_id, heading)]. *)
Definition source_key : Type := (str * option str)%type.
Definition key_eqb (a b : source_key) : bool :=
  (str_eqb (fst a) (fst b) &&
   match snd a, snd b with
   | None, None => true
   | Some x, Some y => str_eqb x y
   | _, _ => false
   end)%bool.

(** [sources_map], a [dict] in insertion order. *)
Definition sources_dict : Type := list (source_key * Entry.t).

Fixpoint lookup (d : sources_dict) (k : source_key) : option Entry.t :=
  match d with
  | [] => None
  | (k', v) :: d' => if key_eqb k' k then Some v else lookup d' k
  end.

Fixpoint assign (d : sources_dict) (k : source_key) (v : Entry.t) : sources_dict :=
  match d with
  | [] => [(k, v)]
  | (k', v') :: d' => if key_eqb k' k then (k', v) :: d' else (k', v') :: assign d' k v
  end.

(** The test of lines 448-462 for one new quote. *)
Definition is_duplicate (quote : str) (existing_quotes : list str) : bool :=
  existsb
    (fun existing_quote =>
       let shorter := Z.min (len quote) (len existing_quote) in
       let longer := Z.max (len quote) (len existing_quote) in
       if ((0 <? shorter) && (0 <? longer))%bool then
         if (contains existing_quote quote || contains quote existing_quote)%bool
         then true
         else
           let common_chars := len (filter (has_char existing_quote) quote) in
           PrimFloat.ltb 0.8%float (float_of_Z common_chars / float_of_Z shorter)%float
       else false)
    existing_quotes.

(** The loop [for quote in relevant_quotes] (lines 446-465). *)
Definition merge_quotes (existing_quotes relevant_quotes : list str) : list str :=
  fold_left
    (fun existing quote =>
       if is_duplicate quote existing then existing else existing ++ [quote])
    relevant_quotes existing_quotes.

(** Lines 468-471. *)
Definition cap_quotes (existing_quotes : list str) : list str :=
  if 3 <? len existing_quotes then slice_to (sort_by_len existing_quotes) 3
  else existing_quotes.

(** Body of [for chunk in chunks] (lines 411-477). *)
Definition source_step (answer_keywords : list str) (sources_map : sources_dict)
  (chunk : Hit.t) : sources_dict :=
  let doc_id := Hit.document_id chunk in
  let doc_filename := Hit.document_filename chunk in
  let heading := Hit.heading chunk in
  let chunk_text := Hit.text chunk in
  let key := (doc_id, heading) in
  let candidate_quotes := _extract_quotes chunk_text 2 220 in
  let relevant_quotes :=
    filter (fun quote => _quote_is_relevant quote answer_keywords) candidate_quotes in
  if negb (truthy relevant_quotes) then sources_map
  else
    match lookup sources_map key with
    | None =>
        sources_map ++
        [(key, Entry.mk doc_id doc_filename heading relevant_quotes
                 (Hit.chunk_index chunk) (Hit.similarity_score chunk))]
    | Some e =>
        let existing_quotes := cap_quotes (merge_quotes (Entry.quotes e) relevant_quotes) in
        let score :=
          if PrimFloat.ltb (Entry.similarity_score e) (Hit.similarity_score chunk)
          then Hit.similarity_score chunk else Entry.similarity_score e in
        assign sources_map key
          (Entry.mk (Entry.document_id e) (Entry.document_filename e) (Entry.heading e)
             existing_quotes (Entry.chunk_index e) score)
    end.

(** [max(xs)] of a non-empty sequence of floats: a later item replaces the
    current one when it compares greater. *)
Definition py_max (x : float) (xs : list float) : float :=
  fold_left (fun best y => if PrimFloat.ltb best y then y else best) xs x.

(** [sum(xs)] of floats. *)
Definition py_sum (xs : list float) : float := fold_left PrimFloat.add xs 0%float.

Definition no_information : str :=
  txt "I don't have enough information in the uploaded documents to answer this question.".
Definition not_related : str :=
  txt "I don't have enough information in the uploaded documents to answer this question. The available documents do not contain information directly related to this topic.".
Definition generation_error : str :=
  txt "I encountered an error while generating a response. Please try again.".

(** What [answer_question] does with the retrieved chunks (lines 350-509). *)
Definition answer_from (query : str) (chunks : list Hit.t) : answer :=
  match chunks with
  | [] => (no_information, [], [], txt "none", 0)
  | first :: others =>
      let max_similarity :=
        py_max (Hit.similarity_score first) (map Hit.similarity_score others) in
      if PrimFloat.ltb max_similarity 0.3%float then
        (not_related, [], [], txt "low", 0)
      else
        let prompt := build_rag_prompt chunks query in
        match Llm.generate ollama_chat prompt with
        | None => (generation_error, [], [], txt "error", 0)
        | Some [] => (generation_error, [], [], txt "error", 0)
        | Some ((_ :: _) as raw) =>
            let avg_similarity :=
              (py_sum (map Hit.similarity_score chunks) / float_of_Z (len chunks))%float in
            let confidence :=
              if PrimFloat.leb 0.7%float avg_similarity then txt "high"
              else if PrimFloat.leb 0.5%float avg_similarity then txt "medium"
              else txt "low" in
            let cleaned_answer := _clean_answer_text raw in
            let answer_keywords := _extract_answer_keywords cleaned_answer in
            let sources_map := fold_left (source_step answer_keywords) chunks [] in
            let sorted_sources :=
              order_by_desc Entry.similarity_score (map snd sources_map) in
            let citations :=
              map (fun src => Citation.mk (Entry.document_id src)
                                (Entry.document_filename src) (Entry.heading src)
                                (Entry.chunk_index src)) sorted_sources in
            let sources :=
              map (fun src => Source.mk (Entry.document_id src)
                                (Entry.document_filename src) (Entry.heading src)
                                (Entry.quotes src)) sorted_sources in
            (cleaned_answer, citations, sources, confidence, len chunks)
        end
  end.

(** [top_k or settings.RAG_TOP_K] *)
Definition top_k_or_default (top_k : option Z) : Z :=
  match top_k with
  | Some k => if k =? 0 then Config.RAG_TOP_K settings else k
  | None => Config.RAG_TOP_K settings
  end.

(** [answer_question(query, company_id, db, top_k)] *)
Definition answer_question (query company_id : str) (top_k : option Z) : M answer :=
  let top_k := top_k_or_default top_k in
  chunks <- perform_semantic_search query company_id top_k None ;;
  ret (answer_from query chunks).

End WithServices.
End Rag.

(* ================================================================== *)
(** * api/documents.py: the checks on an uploaded file name *)
(* ================================================================== *)

Module Documents.
Import Py.

Definition slash : char := 47%N.
Definition dot : char := 46%N.

(** [x in xs] for strings. *)
Definition in_list (x : str) (xs : list str) : bool := existsb (str_eqb x) xs.

(** [Path(filename).name]: the last component of the path, where empty
    components and [.] components do not count; empty when there is
    none. *)
Definition path_name (filename : str) : str :=
  match last_opt (filter (fun x => (truthy x && negb (str_eqb x [dot]))%bool)
                         (split filename [slash])) with
  | Some name => name
  | None => []
  end.

(** [Path(filename).suffix]: the name from its last dot on, when that dot
    is neither the first nor the last character of the name. *)
Definition path_suffix (filename : str) : str :=
  let name := path_name filename in
  let i := rfind_char name dot in
  if ((0 <? i) && (i <? len name - 1))%bool then slice_from name i else [].

(** [x.lstrip(".")] *)
Definition lstrip_dots (x : str) : str := dropwhile (N.eqb dot) x.

(** [get_file_extension(filename)] *)
Definition get_file_extension (filename : str) : str :=
  lstrip_dots (lower (path_suffix filename)).

(** The default of [settings.ALLOWED_EXTENSIONS]. *)
Definition ALLOWED_EXTENSIONS : list str := map txt ["pdf"; "docx"; "txt"]%string.

(** [is_allowed_extension(filename)], for the configured extensions. *)
Definition is_allowed_extension (allowed_extensions : list str) (filename : str) : bool :=
  let ext := get_file_extension filename in
  in_list ext allowed_extensions.

(** The dictionary [mime_map] of [validate_mime_type]. *)
Definition mime_map : list (str * list str) :=
  [ (txt "pdf", [txt "application/pdf"]);
    (txt "docx",
     [txt "application/vnd.openxmlformats-officedocument.wordprocessingml.document"]);
    (txt "txt", [txt "text/plain"; txt "text/plain; charset=utf-8"]) ].

(** [mime_map.get(ext, [])] *)
Fixpoint mime_get (d : list (str * list str)) (ext : str) : list str :=
  match d with
  | [] => []
  | (k, v) :: d' => if str_eqb k ext then v else mime_get d' ext
  end.

(** [validate_mime_type(mime_type, filename)] *)
Definition validate_mime_type (mime_type filename : str) : bool :=
  let ext := get_file_extension filename in
  let allowed_mimes := mime_get mime_map ext in
  if negb (truthy allowed_mimes) then false
  else (in_list (lower mime_type) (map lower allowed_mimes)
        || (0 <? len allowed_mimes))%bool.

End Documents.

(* ================================================================== *)
(** * Specification predicates *)
(* ================================================================== *)

Module Spec.
Import Py.

(** [x] occurs in [y] as a contiguous run of characters. *)
Definition occurs_in (x y : str) : Prop := exists a b, y = a ++ x ++ b.

(** [p] is a leading span of [x]. *)
Definition leading_span (p x : str) : Prop := exists q, x = p ++ q.

(** [kw] occurs in [q] between two word boundaries, as [\bkw\b] finds it. *)
Definition whole_word (kw q : str) : Prop :=
  exists a b, q = a ++ kw ++ b /\
    Re.word_boundary (rev a) (kw ++ b) = true /\
    Re.word_boundary (rev kw ++ rev a) b = true.

(** ** Chunk spans *)

(** What every tuple of [chunk_text_with_headings] satisfies: the span
    starts at a non-negative offset and has the length of the chunk; it is
    where the chunk occurs in the text, or the chunk is not found from the
    cursor on and the span starts at the cursor. *)
Definition span_ok (text : str) (t : HeadingDetection.located) : Prop :=
  let '(chunk, char_start, char_end, _) := t in
  0 <= char_start /\ char_end = char_start + len chunk /\
  ((startswith (skipn (Z.to_nat char_start) text) chunk = true /\ char_end <= len text)
   \/ find text chunk char_start = -1).

(** The chunk left after [n] iterations of the hard-cap loop of
    [chunk_text]. *)
Fixpoint after_iterations (chunk_size overlap : Z) (n : nat) (chunk : str) : str :=
  match n with
  | O => chunk
  | S n' =>
      after_iterations chunk_size overlap n'
        (slice_from chunk (chunk_size - overlap))
  end.

(** ** Indexing *)

(** An embedding is kept when it is present and has 768 components. *)
Definition kept (e : option Embeddings.vector) : bool :=
  match e with Some v => len v =? 768 | None => false end.

(** The enumerated items whose chunk is persisted. *)
Definition survivors {A} (items : list (nat * (A * option Embeddings.vector)))
  : list (nat * (A * option Embeddings.vector)) :=
  filter (fun it => kept (snd (snd it))) items.

(** The ordinals of the chunks of one document, in storage order. *)
Definition ordinals (document_id : uuid) (w : Db.store) : list Z :=
  map DocumentChunk.chunk_index
    (filter (fun c => str_eqb (DocumentChunk.document_id c) document_id)
            (Db.document_chunks w)).

(** The index status of one document. *)
Definition status_of (document_id : uuid) (w : Db.store) : list IndexStatus :=
  map Document.index_status
    (filter (fun d => str_eqb (Document.id d) document_id) (Db.documents w)).

(** The part of a session that the faults do not touch. *)
Definition same_data (s s1 : Db.session) : Prop :=
  Db.committed s1 = Db.committed s /\ Db.working s1 = Db.working s /\
  Db.uuid4 s1 = Db.uuid4 s /\ Db.drawn s1 = Db.drawn s.

(** ** Retrieval *)

(** A returned dictionary is the projection of a stored chunk. *)
Definition hit_of (dc : DocumentChunk.t) (h : Rag.Hit.t) : Prop :=
  Rag.Hit.chunk_id h = DocumentChunk.id dc /\
  Rag.Hit.document_id h = DocumentChunk.document_id dc /\
  Rag.Hit.chunk_index h = DocumentChunk.chunk_index dc /\
  Rag.Hit.text h = DocumentChunk.text dc /\
  Rag.Hit.heading h = DocumentChunk.heading dc.

(** A row of either SQL statement is a stored chunk that passes the WHERE
    clause. *)
Definition scoped (company_id : str) (document_id : option str) (s : Db.session)
  (dc : DocumentChunk.t) : Prop :=
  In dc (Db.document_chunks (Db.working s)) /\
  Rag.base_where company_id document_id dc = true.

(** A returned dictionary is the projection of a stored chunk of the
    company. *)
Definition tenant_hit (company_id : str) (s : Db.session) (h : Rag.Hit.t) : Prop :=
  exists dc, In dc (Db.document_chunks (Db.working s)) /\
             DocumentChunk.company_id dc = company_id /\ hit_of dc h.

(** ** Quotes *)

(** The shape of a quote cut from a sentence [x] of more than 220
    characters: a leading span of at most 220 characters followed by an
    ellipsis.  When the last space among the first 220 characters lies
    beyond position 154, the span ends just before that space; when no
    space lies beyond position 154 among the first 220 characters, the
    span is the first 220 characters with the trailing white space
    removed.  Positions count from 0. *)
Definition truncated_from (x q : str) : Prop :=
  220 < len x /\
  exists p, q = p ++ Rag.ellipsis /\ leading_span p x /\ len p <= 220 /\
    ((154 < len p < 220 /\ nth_error x (length p) = Some Chunking.sp /\
      (forall i, (length p < i < 220)%nat -> nth_error x i <> Some Chunking.sp))
     \/
     ((forall i, (154 < i < 220)%nat -> nth_error x i <> Some Chunking.sp) /\
      p = rstrip (slice_to x 220))).

(** A quote of a chunk text: a sentence found in the text, or the
    truncation of one. *)
Definition quote_of (text q : str) : Prop :=
  exists x, occurs_in x text /\ (q = x \/ truncated_from x q).

(** A cut between [p] and [b] falls on a word boundary when it does not
    separate two word characters. *)
Definition cut_at_boundary (p b : str) : bool :=
  negb (Re.head_is is_word (rev p) && Re.head_is is_word b).

(** The shape of a quote as the specification words it: a sentence found
    in the chunk text, or a span of at most 220 characters of the chunk
    text cut at a word boundary, followed by an ellipsis. *)
Definition claimed_quote (text q : str) : Prop :=
  occurs_in q text \/
  exists a p b, text = a ++ p ++ b /\ q = p ++ Rag.ellipsis /\
                len p <= 220 /\ cut_at_boundary p b = true.

(** ** Keywords *)

(** What a keyword of an answer is: a run of the letters a-z and the
    digits 0-9 of the lowercased answer, standing as a whole word, that is
    no stop word and has at least three characters; or a run of digits
    (characters of the class [\d]) of the answer standing as a whole word,
    of any length. *)
Definition is_keyword_of (answer kw : str) : Prop :=
  (whole_word kw (lower answer) /\
   Forall (fun c => (is_ascii_lower c || is_ascii_digit c)%bool = true) kw /\
   Rag.mem kw Rag.stop_words = false /\ 3 <= len kw)
  \/
  (whole_word kw answer /\ kw <> [] /\
   Forall (fun c => Re.cls_digit c = true) kw).

(** A keyword as the specification words it: a word of the answer, taken
    without regard to case, that is no stop word and has at least three
    characters, numbers included. *)
Definition claimed_keyword (answer kw : str) : Prop :=
  whole_word kw (lower answer) /\ Forall (fun c => is_word c = true) kw /\
  Rag.mem kw Rag.stop_words = false /\ 3 <= len kw.

(** A quote that shares a keyword with the answer, as the specification
    words it. *)
Definition claimed_relevant (answer quote : str) : Prop :=
  exists kw, claimed_keyword answer kw /\ whole_word kw (lower quote).

(** Three word characters in a row somewhere in [y]. *)
Fixpoint has_word3 (y : str) : bool :=
  match y with
  | c1 :: y' =>
      match y' with
      | c2 :: c3 :: _ => (is_word c1 && is_word c2 && is_word c3) || has_word3 y'
      | _ => false
      end
  | [] => false
  end.

(** The key [(document_id, heading)] under which a retrieved chunk is
    filed. *)
Definition hit_key (chunk : Rag.Hit.t) : Rag.source_key :=
  (Rag.Hit.document_id chunk, Rag.Hit.heading chunk).

(** The quotes of a retrieved chunk that pass the relevance test (lines
    419-426). *)
Definition relevant_quotes (answer_keywords : list str) (chunk : Rag.Hit.t) : list str :=
  filter (fun quote => Rag._quote_is_relevant quote answer_keywords)
         (Rag._extract_quotes (Rag.Hit.text chunk) 2 220).

(** [chunk] is the only retrieved chunk of its document and heading. *)
Definition alone (chunks : list Rag.Hit.t) (chunk : Rag.Hit.t) : Prop :=
  filter (fun c => Rag.key_eqb (hit_key c) (hit_key chunk)) chunks = [chunk].

(** A quote under a source key is grounded: it is one of the quotes
    extracted from a retrieved chunk of that document and heading, and it
    passes the relevance test for the keywords. *)
Definition grounded (chunks : list Rag.Hit.t) (answer_keywords : list str)
  (key : Rag.source_key) (q : str) : Prop :=
  exists chunk, In chunk chunks /\
    Rag.Hit.document_id chunk = fst key /\ Rag.Hit.heading chunk = snd key /\
    In q (Rag._extract_quotes (Rag.Hit.text chunk) 2 220) /\
    Rag._quote_is_relevant q answer_keywords = true.

(** The invariant of [sources_map] while the chunks are processed. *)
Definition sources_ok (chunks : list Rag.Hit.t) (answer_keywords : list str)
  (d : Rag.sources_dict) : Prop :=
  forall k e, In (k, e) d ->
    (Rag.Entry.document_id e, Rag.Entry.heading e) = k /\
    forall q, In q (Rag.Entry.quotes e) -> grounded chunks answer_keywords k q.

End Spec.

(* ================================================================== *)
(** * Sample data *)
(* ================================================================== *)

Module Sample.
Import Py Db.

Definition nl2 : str := [Chunking.nl; Chunking.nl].

(** A vector of the expected dimension, and one of dimension 3. *)
Definition v768 : Embeddings.vector := repeat 0%float 768.
Definition v3 : Embeddings.vector := [0%float; 0%float; 0%float].

Definition embed_ok (_ : str) : option Embeddings.vector := Some v768.
Definition embed_short (_ : str) : option Embeddings.vector := Some v3.
(** An endpoint that fails on every text without the letter b. *)
Definition embed_b (t : str) : option Embeddings.vector :=
  if has_char t 98%N then Some v768 else None.

Definition fresh (n : nat) : uuid := txt "chunk-" ++ repeat 49%N n.

(** One uploaded document of company [c1] with the given text. *)
Definition document (text : str) : Document.t :=
  Document.mk (txt "d1") (txt "c1") (txt "policy.txt") (Some text) NOT_INDEXED None.

Definition upload (text : str) (faults : list (option str)) : session :=
  mkSession (mkStore [document text] []) (mkStore [document text] []) faults fresh O.

(** Two paragraphs of 600 characters: two chunks. *)
Definition two_paragraphs : str := repeat 97%N 600 ++ nl2 ++ repeat 98%N 600.

(** Five paragraphs, [a], [b], 993 times [x], [a], [b]; three newlines
    follow the first. *)
Definition repeated_paragraphs : str :=
  txt "a" ++ [Chunking.nl; Chunking.nl; Chunking.nl] ++ txt "b" ++ nl2
    ++ repeat 120%N 993 ++ nl2 ++ txt "a" ++ nl2 ++ txt "b".

Definition short_paragraphs : str := txt "ab" ++ nl2 ++ txt "cd" ++ nl2 ++ txt "ab".

(** A store with chunks of two companies. *)
Definition chunk (id company document : string) (idx : Z) (text : str)
  (heading : option str) : DocumentChunk.t :=
  DocumentChunk.mk (txt id) (txt company) (txt document) idx text
    (Some (len text / 4)) v768 heading (Some 0) (Some (len text)).

Definition one_long_word : str := txt "code " ++ repeat 120%N 300.
Definition vacation : str :=
  txt "Employees get 15 vacation days per year. Parking is free.".

Definition two_tenants : store :=
  mkStore
    [Document.mk (txt "d1") (txt "c1") (txt "policy.txt") (Some (txt "x")) INDEXED None;
     Document.mk (txt "d2") (txt "c2") (txt "other.txt") (Some (txt "y")) INDEXED None]
    [chunk "k1" "c1" "d1" 0 one_long_word None;
     chunk "k2" "c2" "d2" 0 (txt "The code of the other company.") None;
     chunk "k3" "c1" "d1" 1 vacation (Some (txt "Leave"))].

Definition serving (faults : list (option str)) : session :=
  mkSession two_tenants two_tenants faults fresh O.

(** A store with one chunk that names a room by its number. *)
Definition rooms : store :=
  mkStore
    [Document.mk (txt "d1") (txt "c1") (txt "rooms.txt") (Some (txt "x")) INDEXED None]
    [chunk "k1" "c1" "d1" 0 (txt "Room 7 only.") None].

Definition asking_rooms : session := mkSession rooms rooms [] fresh O.

(** A store with a chunk on leave and a chunk on opening days. *)
Definition holidays : store :=
  mkStore
    [Document.mk (txt "d1") (txt "c1") (txt "policy.txt") (Some (txt "x")) INDEXED None]
    [chunk "k1" "c1" "d1" 0 (txt "Employees get 15 vacation days per year.")
       (Some (txt "Leave"));
     chunk "k2" "c1" "d1" 1 (txt "The office is closed on public holidays.") None].

Definition asking_holidays : session := mkSession holidays holidays [] fresh O.

Definition distance (d : float) (_ _ : Embeddings.vector) : float := d.
Definition no_rank (_ _ : str) : option float := None.
Definition chat (reply : string) (_ : str) : option str := Some (txt reply).

(** The answers the samples expect. *)
Definition code_quote : str := firstn 220 one_long_word ++ Rag.ellipsis.
Definition code_answer : Rag.answer :=
  (txt "The code is long.",
   [Rag.Citation.mk (txt "d1") (txt "policy.txt") None 0],
   [Rag.Source.mk (txt "d1") (txt "policy.txt") None [code_quote]],
   txt "high", 2).

Definition room_answer : Rag.answer :=
  (txt "It is 7.",
   [Rag.Citation.mk (txt "d1") (txt "rooms.txt") None 0],
   [Rag.Source.mk (txt "d1") (txt "rooms.txt") None [txt "Room 7 only."]],
   txt "high", 1).

Definition vacation_quote : str := txt "Employees get 15 vacation days per year.".
Definition vacation_answer : Rag.answer :=
  (txt "You have 15 vacation days.",
   [Rag.Citation.mk (txt "d1") (txt "policy.txt") (Some (txt "Leave")) 1],
   [Rag.Source.mk (txt "d1") (txt "policy.txt") (Some (txt "Leave")) [vacation_quote]],
   txt "high", 2).

End Sample.

(* ================================================================== *)
(** * Further specification predicates *)
(* ================================================================== *)

(** ** Regular expressions: what a match is *)

Module ReSpec.
Import Py Re.

(** [Matches r pre w rest]: at the position with [pre] before it (nearest
    first), the pattern [r] can match the characters [w], with [rest]
    following. *)
Inductive Matches : regex -> str -> str -> str -> Prop :=
| MEps pre rest : Matches Eps pre [] rest
| MCls p c pre rest : p c = true -> Matches (Cls p) pre [c] rest
| MSeq r1 r2 pre w1 w2 rest :
    Matches r1 pre w1 (w2 ++ rest) -> Matches r2 (rev w1 ++ pre) w2 rest ->
    Matches (Seq r1 r2) pre (w1 ++ w2) rest
| MAltL r1 r2 pre w rest : Matches r1 pre w rest -> Matches (Alt r1 r2) pre w rest
| MAltR r1 r2 pre w rest : Matches r2 pre w rest -> Matches (Alt r1 r2) pre w rest
| MStar0 r pre rest : Matches (Star r) pre [] rest
| MStarS r pre w1 w2 rest :
    Matches r pre w1 (w2 ++ rest) -> Matches (Star r) (rev w1 ++ pre) w2 rest ->
    Matches (Star r) pre (w1 ++ w2) rest
| MLazy0 r pre rest : Matches (Lazy r) pre [] rest
| MLazyS r pre w1 w2 rest :
    Matches r pre w1 (w2 ++ rest) -> Matches (Lazy r) (rev w1 ++ pre) w2 rest ->
    Matches (Lazy r) pre (w1 ++ w2) rest
| MBol rest : Matches Bol [] [] rest
| MEol pre rest : at_eol rest = true -> Matches Eol pre [] rest
| MWordB pre rest : word_boundary pre rest = true -> Matches WordB pre [] rest
| MBehind p pre rest : head_is p pre = true -> Matches (Behind p) pre [] rest
| MAhead r pre w rest : Matches r pre w rest -> Matches (Ahead r) pre [] (w ++ rest).

(** A matching procedure for [r] is sound when its continuation only ever
    succeeds at the end of a match of [r]. *)
Definition sound (body : str -> str -> cont -> option (str * str)) (r : regex) : Prop :=
  forall pre suf k res, body pre suf k = Some res ->
  exists w rest, suf = w ++ rest /\ Matches r pre w rest /\ k (rev w ++ pre) rest = Some res.

(** A pattern that matches at no position of [suf]. *)
Definition matches_nowhere (r : regex) (pre suf : str) : Prop :=
  forall a b, suf = a ++ b -> match_at r (rev a ++ pre) b = None.

(** One space, as the class of [r' {2,}'] has it. *)
Definition is_sp : char -> bool := chr_is Chunking.sp.
Definition head_sp (x : str) : bool := head_is is_sp x.

End ReSpec.

(** ** Chunks *)

Module ChunkSpec.
Import Py.

(** A string that neither starts nor ends with white space. *)
Definition stripped (x : str) : Prop :=
  Re.head_is is_space x = false /\ Re.head_is is_space (rev x) = false.

(** A word: no white space in it. *)
Definition no_space (x : str) : Prop := Forall (fun c => is_space c = false) x.

(** The pieces put together again, each piece after the first without the
    [overlap] characters it shares with the piece before it. *)
Definition rejoin (overlap : nat) (pieces : list str) : str :=
  match pieces with
  | [] => []
  | p :: ps => p ++ concat (map (skipn overlap) ps)
  end.

(** Each piece ends with the [overlap] characters the next one starts
    with. *)
Fixpoint overlapping (overlap : nat) (pieces : list str) : Prop :=
  match pieces with
  | p :: rest =>
      match rest with
      | q :: _ => skipn (length p - overlap) p = firstn overlap q
      | [] => True
      end /\ overlapping overlap rest
  | [] => True
  end.

End ChunkSpec.

(** ** Headings *)

Module HeadingSpec.
Import Py Spec HeadingDetection.

(** The components of a returned tuple. *)
Definition chunk_of (t : located) : str := let '(chunk, _, _, _) := t in chunk.
Definition start_of (t : located) : Z := let '(_, char_start, _, _) := t in char_start.
Definition heading_of (t : located) : option str := let '(_, _, _, heading) := t in heading.

(** A run of characters of the class [\d]. *)
Definition digits (d : str) : Prop := Forall (fun c => Re.cls_digit c = true) d.

(** What a stored heading is: a non-empty stripped excerpt of a line of
    the text that [is_heading] accepts. *)
Definition heading_from (text h : str) : Prop :=
  h <> [] /\ strip h = h /\
  exists line, In line (Py.split text [Chunking.nl]) /\ is_heading line = true /\
               occurs_in h line.

Definition value_ok (text : str) (v : option str) : Prop :=
  match v with Some h => heading_from text h | None => True end.

(** The invariant of the loop of [extract_headings]. *)
Definition scan_ok (text : str) (sc : scan) : Prop :=
  value_ok text (current_heading sc) /\
  forall k v, In (k, v) (heading_map sc) -> value_ok text v.

End HeadingSpec.

(** ** Indexing *)

Module IndexSpec.
Import Py Db.

(** The chunks of one document, and the chunks and the rows of the other
    documents. *)
Definition chunks_of (document_id : uuid) (w : store) : list DocumentChunk.t :=
  filter (fun c => str_eqb (DocumentChunk.document_id c) document_id) (document_chunks w).
Definition other_chunks (document_id : uuid) (w : store) : list DocumentChunk.t :=
  filter (fun c => negb (str_eqb (DocumentChunk.document_id c) document_id))
         (document_chunks w).
Definition other_documents (document_id : uuid) (w : store) : list Document.t :=
  filter (fun d => negb (str_eqb (Document.id d) document_id)) (documents w).

(** What a row keeps when only its index state changes. *)
Definition row_identity (d : Document.t) : uuid * uuid * str * option str :=
  (Document.id d, Document.company_id d, Document.filename_original d,
   Document.text_extracted d).

(** [w] differs from [w0] at most in the chunks of the document and in the
    index state of its row. *)
Definition same_but (document_id : uuid) (w0 w : store) : Prop :=
  other_chunks document_id w = other_chunks document_id w0 /\
  other_documents document_id w = other_documents document_id w0 /\
  map row_identity (documents w) = map row_identity (documents w0).

(** A property of the two stores of a session that a computation keeps,
    however it ends. *)
Definition preserves {A} (R : store -> Prop) (c : M A) : Prop :=
  forall s o s', R (committed s) -> R (working s) -> c s = (o, s') ->
  R (committed s') /\ R (working s').

(** The row [index_document] stores for an enumerated chunk whose
    embedding is kept. *)
Definition stored_as (document : Document.t)
  (item : nat * (HeadingDetection.located * option Embeddings.vector))
  (c : DocumentChunk.t) : Prop :=
  let '(idx, ((chunk_content, char_start, char_end, heading), embedding)) := item in
  exists e new_id,
    embedding = Some e /\
    c = DocumentChunk.mk new_id (Document.company_id document) (Document.id document)
          (Z.of_nat idx) chunk_content (Some (Indexer.estimate_tokens chunk_content))
          e heading (Some char_start) (Some char_end).

(** What holds of every chunk a successful run stores: it belongs to the
    company, its embedding is the 768 numbers the endpoint gave for its
    text, the text is not empty and has at most 1000 characters, the token
    estimate is a quarter of its length, and the span has its length. *)
Definition well_formed (ollama : str -> option Embeddings.vector) (company_id : uuid)
  (c : DocumentChunk.t) : Prop :=
  DocumentChunk.company_id c = company_id /\
  Embeddings.embed ollama (DocumentChunk.text c) = Some (DocumentChunk.embedding c) /\
  len (DocumentChunk.embedding c) = 768 /\
  DocumentChunk.text c <> [] /\ len (DocumentChunk.text c) <= 1000 /\
  DocumentChunk.token_estimate c = Some (len (DocumentChunk.text c) / 4) /\
  exists char_start, 0 <= char_start /\
    DocumentChunk.char_start c = Some char_start /\
    DocumentChunk.char_end c = Some (char_start + len (DocumentChunk.text c)).

End IndexSpec.

(** ** Retrieval and answers *)

Module RagSpec.
Import Py Db Rag Spec.

(** A computation that leaves both stores of the session as they are,
    however it ends. *)
Definition readonly {A} (c : M A) : Prop :=
  forall s o s', c s = (o, s') -> committed s' = committed s /\ working s' = working s.

(** A returned dictionary is the projection of a row that passed the
    WHERE clause. *)
Definition scoped_hit (company_id : str) (document_id : option str) (s : session)
  (h : Hit.t) : Prop :=
  exists dc, scoped company_id document_id s dc /\ hit_of dc h.

(** A quote is not empty and has at most [max_length] characters and an
    ellipsis. *)
Definition quote_ok (max_length : Z) (q : str) : Prop :=
  q <> [] /\ len q <= max_length + 3.

(** The invariant of [sources_map]: one entry per key, each entry under
    the key of its document and heading, with one to three quotes. *)
Definition shape (d : sources_dict) : Prop :=
  NoDup (map fst d) /\
  forall k e, In (k, e) d ->
    (Entry.document_id e, Entry.heading e) = k /\ 1 <= len (Entry.quotes e) <= 3.

(** The key [(document_id, heading)] of a returned source and of a
    returned citation. *)
Definition source_key_of (src : Source.t) : source_key :=
  (Source.document_id src, Source.heading src).
Definition citation_key_of (c : Citation.t) : source_key :=
  (Citation.document_id c, Citation.heading c).

End RagSpec.

(* ================================================================== *)
(** * Lemmas *)
(* ================================================================== *)

Module PyFacts.
Import Py.

Lemma len_nonneg {A} (x : list A) : 0 <= len x.
Proof. unfold len; lia. Qed.

Lemma len_app {A} (x y : list A) : len (x ++ y) = len x + len y.
Proof. unfold len; rewrite length_app; lia. Qed.

Lemma dropwhile_length {A} (f : A -> bool) (x : list A) :
  (length (dropwhile f x) <= length x)%nat.
Proof.
  induction x as [|a x IH]; simpl; [lia|].
  destruct (f a); simpl; lia.
Qed.

Lemma dropwhile_suffix {A} (f : A -> bool) (x : list A) :
  exists p, x = p ++ dropwhile f x.
Proof.
  induction x as [|a x [p IH]]; simpl.
  - now exists [].
  - destruct (f a).
    + exists (a :: p). simpl. now f_equal.
    + now exists [].
Qed.

Lemma rstrip_prefix (x : str) : exists q, x = rstrip x ++ q.
Proof.
  unfold rstrip. destruct (dropwhile_suffix is_space (rev x)) as [p Hp].
  exists (rev p).
  rewrite <- rev_app_distr, <- Hp. now rewrite rev_involutive.
Qed.

Lemma strip_infix (x : str) : exists p q, x = p ++ strip x ++ q.
Proof.
  unfold strip, lstrip.
  destruct (rstrip_prefix x) as [q Hq].
  destruct (dropwhile_suffix is_space (rstrip x)) as [p Hp].
  exists p, q. rewrite app_assoc, <- Hp. exact Hq.
Qed.

Lemma len_strip_le (x : str) : len (strip x) <= len x.
Proof.
  destruct (strip_infix x) as (p & q & H).
  rewrite H at 2. rewrite !len_app.
  pose proof (len_nonneg p); pose proof (len_nonneg q). lia.
Qed.

Lemma clamp_le (n l : Z) : 0 <= l -> (Z.of_nat (clamp n l) <= l).
Proof. unfold clamp. intros. destruct (n <? 0) eqn:E; lia. Qed.

Lemma clamp_nonneg (n l : Z) : 0 <= n -> Z.of_nat (clamp n l) = Z.min n l \/ l < 0.
Proof.
  unfold clamp. intros. destruct (n <? 0) eqn:E; [apply Z.ltb_lt in E; lia|].
  destruct (Z_lt_ge_dec l 0); [now right|left]. lia.
Qed.

Lemma len_slice_to {A} (x : list A) (n : Z) :
  0 <= n -> len (slice_to x n) = Z.min n (len x).
Proof.
  intros Hn. unfold slice_to, len at 1. rewrite length_firstn.
  pose proof (len_nonneg x).
  destruct (clamp_nonneg (len x) Hn) as [E|E]; [|lia].
  unfold len in *. lia.
Qed.

Lemma len_slice_from {A} (x : list A) (n : Z) :
  0 <= n -> len (slice_from x n) = len x - Z.min n (len x).
Proof.
  intros Hn. unfold slice_from, len at 1. rewrite length_skipn.
  pose proof (len_nonneg x).
  destruct (clamp_nonneg (len x) Hn) as [E|E]; [|lia].
  unfold len in *. lia.
Qed.

Lemma firstn_in {A} (n : nat) (l : list A) (x : A) : In x (firstn n l) -> In x l.
Proof.
  intros H. rewrite <- (firstn_skipn n l). apply in_or_app. now left.
Qed.

Lemma skipn_same_length {A} (n : nat) (l : list A) :
  length (skipn n l) = length l -> skipn n l = l.
Proof.
  rewrite length_skipn. intros H. destruct l as [|a l]; [now destruct n|].
  cbn [length] in H. assert (n = O) by lia. now subst.
Qed.

End PyFacts.

Module ChunkingFacts.
Import Py PyFacts Chunking Spec.

Section WithParameters.
Variables chunk_size overlap : Z.

Lemma split_oversized_negative (fuel : nat) (chunk : str) :
  chunk_size < 0 -> split_oversized chunk_size overlap fuel chunk = None.
Proof.
  intros Hneg. revert chunk.
  induction fuel as [|fuel IH]; intros chunk; simpl;
    pose proof (len_nonneg chunk);
    destruct (chunk_size <? len chunk) eqn:E;
    try (apply Z.ltb_ge in E; lia); [reflexivity|].
  now rewrite IH.
Qed.

Lemma split_oversized_bound (fuel : nat) (chunk : str) (pieces : list str) :
  split_oversized chunk_size overlap fuel chunk = Some pieces ->
  Forall (fun c => len c <= chunk_size) pieces.
Proof.
  revert chunk pieces.
  induction fuel as [|fuel IH]; intros chunk pieces; simpl;
    destruct (chunk_size <? len chunk) eqn:E.
  - discriminate.
  - apply Z.ltb_ge in E. intros [= <-]. destruct chunk; simpl; auto.
  - destruct (split_oversized chunk_size overlap fuel _) as [ps|] eqn:R;
      simpl; [|discriminate].
    intros [= <-]. constructor; [|eauto].
    destruct (Z_lt_ge_dec chunk_size 0) as [Hneg|Hpos].
    + now rewrite split_oversized_negative in R.
    + rewrite len_slice_to by lia. lia.
  - apply Z.ltb_ge in E. intros [= <-]. destruct chunk; simpl; auto.
Qed.

Lemma hard_cap_bound (chunks final_chunks : list str) :
  hard_cap chunk_size overlap chunks = Some final_chunks ->
  Forall (fun c => len c <= chunk_size) final_chunks.
Proof.
  revert final_chunks.
  induction chunks as [|chunk rest IH]; intros final_chunks; cbn [hard_cap].
  - intros [= <-]. constructor.
  - destruct (len chunk <=? chunk_size) eqn:E.
    + destruct (hard_cap chunk_size overlap rest) as [fs|]; simpl; [|discriminate].
      intros [= <-]. apply Z.leb_le in E. constructor; auto.
    + destruct (split_oversized chunk_size overlap (S (length chunk)) chunk) as [ps|] eqn:R; [|discriminate].
      destruct (hard_cap chunk_size overlap rest) as [fs|]; simpl; [|discriminate].
      intros [= <-]. apply Forall_app. split; eauto using split_oversized_bound.
Qed.

Lemma strip_pass_bound (final_chunks : list str) :
  Forall (fun c => len c <= chunk_size) final_chunks ->
  Forall (fun c => len c <= chunk_size)
    (map strip (filter (fun c => truthy (strip c)) final_chunks)).
Proof.
  induction 1 as [|c cs Hc _ IH]; simpl; [constructor|].
  destruct (truthy (strip c)); simpl; auto.
  constructor; auto. pose proof (len_strip_le c). lia.
Qed.

(** One iteration of the while loop removes [chunk_size - overlap]
    characters. *)
Lemma slice_step_shorter (chunk : str) :
  0 <= overlap < chunk_size -> chunk_size < len chunk ->
  len (slice_from chunk (chunk_size - overlap)) = len chunk - (chunk_size - overlap).
Proof. intros Hp Hc. rewrite len_slice_from by lia. lia. Qed.

Lemma split_oversized_total (fuel : nat) (chunk : str) :
  0 <= overlap < chunk_size -> (length chunk < fuel)%nat ->
  exists pieces, split_oversized chunk_size overlap fuel chunk = Some pieces.
Proof.
  intros Hp. revert chunk.
  induction fuel as [|fuel IH]; intros chunk Hf; [lia|]. simpl.
  destruct (chunk_size <? len chunk) eqn:E; [|eauto].
  apply Z.ltb_lt in E.
  destruct (IH (slice_from chunk (chunk_size - overlap))) as [ps Hps].
  - pose proof (slice_step_shorter chunk Hp E) as H. unfold len in *. lia.
  - rewrite Hps. simpl. eauto.
Qed.

Lemma hard_cap_total (chunks : list str) :
  0 <= overlap < chunk_size ->
  exists final_chunks, hard_cap chunk_size overlap chunks = Some final_chunks.
Proof.
  intros Hp. induction chunks as [|chunk rest [fs IH]]; cbn [hard_cap]; [eauto|].
  rewrite IH. destruct (len chunk <=? chunk_size); cbn [option_map]; [eauto|].
  destruct (split_oversized_total (fuel := S (length chunk)) chunk Hp) as [ps Hps]; [lia|].
  rewrite Hps. simpl. eauto.
Qed.

Lemma chunk_text_total (text : str) :
  0 <= overlap < chunk_size ->
  exists chunks, chunk_text chunk_size overlap text = Some chunks.
Proof.
  intros Hp. unfold chunk_text.
  destruct (negb (truthy text) || (len (strip text) =? 0))%bool; [eauto|].
  destruct (hard_cap_total (build_chunks chunk_size overlap text) Hp) as [fs Hfs].
  rewrite Hfs. eauto.
Qed.

Lemma chunk_text_bound (text : str) (chunks : list str) :
  chunk_text chunk_size overlap text = Some chunks ->
  Forall (fun c => len c <= chunk_size) chunks.
Proof.
  unfold chunk_text.
  destruct (negb (truthy text) || (len (strip text) =? 0))%bool.
  - intros [= <-]. constructor.
  - destruct (hard_cap chunk_size overlap (build_chunks chunk_size overlap text)) as [fs|] eqn:R; [|discriminate].
    intros [= <-]. apply strip_pass_bound. eauto using hard_cap_bound.
Qed.

Lemma chunk_text_blank (text : str) :
  strip text = [] -> chunk_text chunk_size overlap text = Some [].
Proof.
  intros H. unfold chunk_text. rewrite H. simpl.
  now rewrite orb_true_r.
Qed.

(** When the model of the loop runs out of its fuel, the loop has reached
    an oversized chunk that an iteration leaves unchanged: the Python loop
    repeats there for ever. *)
Lemma split_oversized_none_repeats (fuel : nat) (chunk : str) :
  (length chunk < fuel)%nat ->
  split_oversized chunk_size overlap fuel chunk = None ->
  exists n,
    (forall i, (i <= n)%nat -> chunk_size < len (after_iterations chunk_size overlap i chunk)) /\
    after_iterations chunk_size overlap (S n) chunk = after_iterations chunk_size overlap n chunk.
Proof.
  revert chunk. induction fuel as [|fuel IH]; intros chunk Hf; [lia|].
  cbn [split_oversized]. destruct (chunk_size <? len chunk) eqn:E; [|discriminate].
  apply Z.ltb_lt in E.
  destruct (split_oversized chunk_size overlap fuel
              (slice_from chunk (chunk_size - overlap))) eqn:R; [discriminate|].
  intros _.
  destruct (Nat.eq_dec (length (slice_from chunk (chunk_size - overlap))) (length chunk))
    as [Heq|Hne].
  - exists O. split.
    + intros i Hi. assert (i = O) by lia. now subst.
    + cbn [after_iterations]. unfold slice_from in *. now apply skipn_same_length.
  - assert (Hlt : (length (slice_from chunk (chunk_size - overlap)) < fuel)%nat).
    { unfold slice_from in *. rewrite length_skipn in *. lia. }
    destruct (IH _ Hlt R) as (n & H1 & H2).
    exists (S n). split; [|exact H2].
    intros [|i] Hi; [exact E|]. cbn [after_iterations]. apply H1. lia.
Qed.
End WithParameters.
End ChunkingFacts.

Module FindFacts.
Import Py PyFacts.

Lemma startswith_length (x p : str) :
  startswith x p = true -> (length p <= length x)%nat.
Proof.
  revert x. induction p as [|a p IH]; intros [|b x]; simpl; try lia; try discriminate.
  intros H. apply andb_prop in H as [_ H]. apply IH in H. lia.
Qed.

Lemma index_of_found (x sub : str) (k : nat) :
  index_of x sub = Some k ->
  startswith (skipn k x) sub = true /\ (k + length sub <= length x)%nat.
Proof.
  revert k. induction x as [|a x IH]; intros k.
  - cbn [index_of]. destruct (startswith [] sub) eqn:E; [|discriminate].
    intros [= <-]. split; [exact E|]. apply startswith_length in E. simpl in *. lia.
  - cbn [index_of]. destruct (startswith (a :: x) sub) eqn:E.
    + intros [= <-]. split; [exact E|]. apply startswith_length in E. simpl in *. lia.
    + destruct (index_of x sub) as [j|] eqn:R; [|discriminate].
      intros [= <-]. destruct (IH j eq_refl) as [H1 H2]. split; [exact H1|simpl; lia].
Qed.

(** What [find] returns from a non-negative start: -1, or an offset at or
    after the start where the needle lies within the text. *)
Lemma find_found (x sub : str) (start : Z) :
  0 <= start -> find x sub start <> -1 ->
  start <= find x sub start /\
  startswith (skipn (Z.to_nat (find x sub start)) x) sub = true /\
  find x sub start + len sub <= len x.
Proof.
  intros Hs. unfold find.
  destruct (start <? 0) eqn:E; [apply Z.ltb_lt in E; lia|].
  destruct (len x <? start) eqn:L; [congruence|]. apply Z.ltb_ge in L.
  destruct (index_of (skipn (Z.to_nat start) x) sub) as [k|] eqn:R; [|congruence].
  intros _. apply index_of_found in R as [H1 H2].
  rewrite skipn_skipn in H1. rewrite length_skipn in H2.
  replace (Z.to_nat (start + Z.of_nat k)) with (k + Z.to_nat start)%nat by lia.
  unfold len in *. repeat split; [lia|exact H1|lia].
Qed.

End FindFacts.

Module HeadingFacts.
Import Py PyFacts FindFacts HeadingDetection Spec.

Lemma locate_spans (text : str) (hm : dict (option str)) (chunks : list str) :
  forall search_start, 0 <= search_start ->
  Forall (span_ok text) (locate text hm chunks search_start).
Proof.
  induction chunks as [|chunk rest IH]; intros search_start Hs; cbn [locate].
  - constructor.
  - destruct (find text chunk search_start =? -1) eqn:E.
    + apply Z.eqb_eq in E. constructor; [|apply IH; lia].
      cbn. repeat split; [lia|]. now right.
    + apply Z.eqb_neq in E.
      destruct (find_found text chunk Hs E) as (H1 & H2 & H3).
      constructor; [|apply IH; lia].
      cbn. repeat split; [lia|]. left. split; [exact H2|lia].
Qed.

Lemma chunk_text_with_headings_spans_ok (text : str) (chunk_size overlap : Z)
  (result : list located) :
  chunk_text_with_headings text chunk_size overlap = Some result ->
  Forall (span_ok text) result.
Proof.
  unfold chunk_text_with_headings.
  destruct (negb (truthy text) || (len (strip text) =? 0))%bool.
  - intros [= <-]. constructor.
  - destruct (Chunking.chunk_text chunk_size overlap text) as [chunks|]; [|discriminate].
    intros [= <-]. apply locate_spans. lia.
Qed.

(** With the parameters the indexer passes, the chunker returns. *)
Lemma chunk_text_with_headings_returns (text : str) :
  exists located, chunk_text_with_headings text 1000 150 = Some located.
Proof.
  unfold chunk_text_with_headings.
  destruct (negb (truthy text) || (len (strip text) =? 0))%bool; [eauto|].
  destruct (@ChunkingFacts.chunk_text_total 1000 150 text) as [chunks H]; [lia|].
  rewrite H. eauto.
Qed.
End HeadingFacts.

Module StrFacts.
Import Py.
Lemma str_eqb_eq (x y : str) : str_eqb x y = true <-> x = y.
Proof.
  revert y. induction x as [|a x IH]; intros [|b y]; simpl; split;
    try discriminate; try reflexivity.
  - intros H. apply andb_prop in H as [H1 H2].
    apply N.eqb_eq in H1. apply IH in H2. congruence.
  - intros [= -> ->]. rewrite N.eqb_refl. now apply IH.
Qed.
Lemma str_eqb_refl (x : str) : str_eqb x x = true.
Proof. now apply str_eqb_eq. Qed.
End StrFacts.

Module DbFacts.
Import Py Db Spec.

(** Inversion of a [bind] that returned. *)
Lemma bind_returned {A B} (c : M A) (f : A -> M B) (s s' : session) (b : B) :
  bind c f s = (Returned b, s') ->
  exists a s1, c s = (Returned a, s1) /\ f a s1 = (Returned b, s').
Proof.
  unfold bind. destruct (c s) as [[a|e|] s1]; try discriminate. eauto.
Qed.

Lemma db_call_returned (s s1 : session) (u : unit) :
  db_call s = (Returned u, s1) -> same_data s s1.
Proof.
  unfold db_call, same_data. destruct (faults s) as [|[e|] fs].
  - intros [= _ <-]. auto.
  - discriminate.
  - intros [= _ <-]. simpl. auto.
Qed.

Lemma commit_returned (s s1 : session) (u : unit) :
  commit s = (Returned u, s1) ->
  committed s1 = working s /\ working s1 = working s /\
  uuid4 s1 = uuid4 s /\ drawn s1 = drawn s.
Proof.
  unfold commit. intros H. apply bind_returned in H as (a & s0 & H0 & H1).
  apply db_call_returned in H0 as (_ & Hw & Hu & Hd).
  injection H1 as _ <-. simpl. rewrite Hw. auto.
Qed.

Lemma delete_chunks_returned (document_id : uuid) (s s1 : session) (u : unit) :
  delete_chunks document_id s = (Returned u, s1) ->
  committed s1 = committed s /\
  documents (working s1) = documents (working s) /\
  document_chunks (working s1) =
    filter (fun c => negb (str_eqb (DocumentChunk.document_id c) document_id))
           (document_chunks (working s)) /\
  uuid4 s1 = uuid4 s /\ drawn s1 = drawn s.
Proof.
  unfold delete_chunks. intros H. apply bind_returned in H as (a & s0 & H0 & H1).
  apply db_call_returned in H0 as (Hc & Hw & Hu & Hd).
  cbv [bind get_store put_store with_working] in H1.
  injection H1 as _ <-. simpl. rewrite Hw. auto.
Qed.

Lemma set_index_state_returned (document_id : uuid) (st : IndexStatus)
  (err : option str) (s s1 : session) (u : unit) :
  set_index_state document_id st err s = (Returned u, s1) ->
  committed s1 = committed s /\
  document_chunks (working s1) = document_chunks (working s) /\
  uuid4 s1 = uuid4 s /\ drawn s1 = drawn s.
Proof.
  cbv [set_index_state bind get_store put_store with_working].
  intros [= _ <-]. simpl. auto.
Qed.

Lemma query_document_returned (document_id : uuid) (s s1 : session)
  (found : option Document.t) :
  query_document document_id s = (Returned found, s1) ->
  same_data s s1 /\
  found = List.find (fun d => str_eqb (Document.id d) document_id)
            (documents (working s)).
Proof.
  unfold query_document. intros H. apply bind_returned in H as (a & s0 & H0 & H1).
  apply db_call_returned in H0 as (Hc & Hw & Hu & Hd).
  cbv [bind get_store put_store ret] in H1.
  injection H1 as <- <-. unfold same_data. rewrite Hw. auto.
Qed.

Lemma bind_raised {A B} (c : M A) (f : A -> M B) (s s' : session) (e : str) :
  bind c f s = (Raised e, s') ->
  c s = (Raised e, s') \/
  exists a s1, c s = (Returned a, s1) /\ f a s1 = (Raised e, s').
Proof.
  unfold bind. destruct (c s) as [[a|e'|] s1]; intros H; cbn in H.
  - right. exists a, s1. auto.
  - injection H as -> ->. now left.
  - discriminate.
Qed.

Lemma db_call_raised (s s1 : session) (e : str) :
  db_call s = (Raised e, s1) -> working s1 = working s.
Proof.
  unfold db_call. destruct (faults s) as [|[e'|] fs]; try discriminate.
  intros [= _ <-]. reflexivity.
Qed.

Lemma status_of_set (document_id : uuid) (st : IndexStatus) (err : option str)
  (s s1 : session) (u : unit) :
  set_index_state document_id st err s = (Returned u, s1) ->
  status_of document_id (working s1)
    = map (fun _ => st) (status_of document_id (working s)) /\
  committed s1 = committed s /\ faults s1 = faults s.
Proof.
  cbv [set_index_state bind get_store put_store with_working].
  intros [= _ <-]. cbn [working committed faults]. split; [|auto].
  unfold status_of. cbn [documents].
  induction (documents (working s)) as [|d docs IH]; cbn [map filter]; [reflexivity|].
  destruct (str_eqb (Document.id d) document_id) eqn:E; cbn [Document.id].
  - rewrite E. cbn [map Document.index_status]. now f_equal.
  - rewrite E. exact IH.
Qed.

Lemma commit_raised (s s1 : session) (e : str) :
  commit s = (Raised e, s1) -> committed s1 = committed s /\ working s1 = working s.
Proof.
  unfold commit. intros H. apply bind_raised in H as [H|(? & ? & _ & H)]; [|discriminate].
  unfold db_call in H. destruct (faults s) as [|[e'|] fs]; try discriminate.
  injection H as _ <-. auto.
Qed.

Lemma delete_chunks_raised (document_id : uuid) (s s1 : session) (e : str) :
  delete_chunks document_id s = (Raised e, s1) ->
  committed s1 = committed s /\ working s1 = working s.
Proof.
  unfold delete_chunks. intros H.
  apply bind_raised in H as [H|(? & ? & _ & H)]; [|discriminate].
  unfold db_call in H. destruct (faults s) as [|[e'|] fs]; try discriminate.
  injection H as _ <-. auto.
Qed.

Lemma rollback_returned (s s1 : session) (u : unit) :
  rollback s = (Returned u, s1) ->
  committed s1 = committed s /\ working s1 = committed s.
Proof.
  unfold rollback. intros H. apply bind_returned in H as (a & s0 & H0 & H1).
  apply db_call_returned in H0 as (Hc & _).
  injection H1 as _ <-. cbn. auto.
Qed.

Lemma status_of_documents (document_id : uuid) (w w' : store) :
  documents w' = documents w -> status_of document_id w' = status_of document_id w.
Proof. unfold status_of. now intros ->. Qed.

End DbFacts.

Module IndexerFacts.
Import Py Db Indexer StrFacts DbFacts Spec.

Section WithEmbedder.
Variable ollama : str -> option Embeddings.vector.

Lemma for_each_add_step (document : Document.t)
  (items : list (nat * (HeadingDetection.located * option Embeddings.vector))) :
  forall (acc : Z) (s : session),
  exists s1 new,
    for_each (add_step document) items acc s
      = (Returned (acc + len (survivors items)), s1) /\
    committed s1 = committed s /\
    documents (working s1) = documents (working s) /\
    document_chunks (working s1) = document_chunks (working s) ++ new /\
    map DocumentChunk.chunk_index new
      = map (fun it => Z.of_nat (fst it)) (survivors items) /\
    Forall (fun c => DocumentChunk.document_id c = Document.id document) new.
Proof.
  induction items as [|[idx [[[[c cs] ce] h] e]] items IH]; intros acc s.
  - exists s, []. cbn. rewrite Z.add_0_r, app_nil_r. repeat split; auto.
  - cbn [for_each]. unfold survivors. cbn [filter snd kept].
    destruct e as [v|]; cbn [add_step kept].
    + destruct (len v =? 768) eqn:E; cbn [negb].
      * unfold bind at 1. unfold bind at 1. cbn [add_chunk ret].
        match goal with |- context [for_each _ items ?a ?s0] =>
          destruct (IH a s0) as (s1 & new & H1 & H2 & H3 & H4 & H5 & H6) end.
        cbn in H2, H3, H4.
        eexists s1, (_ :: new). rewrite H1.
        repeat split; auto.
        -- f_equal. f_equal. fold (survivors items).
           change (len (?x :: ?l)) with (Z.of_nat (S (length l))).
           unfold len. lia.
        -- rewrite H4, <- app_assoc. reflexivity.
        -- cbn [map]. fold (survivors items). rewrite H5. reflexivity.
        -- constructor; auto.
      * unfold bind at 1. cbn [ret].
        destruct (IH acc s) as (s1 & new & H1 & H2 & H3 & H4 & H5 & H6).
        exists s1, new. repeat split; auto.
    + unfold bind at 1. cbn [ret].
      destruct (IH acc s) as (s1 & new & H1 & H2 & H3 & H4 & H5 & H6).
      exists s1, new. repeat split; auto.
Qed.

End WithEmbedder.

Lemma try_except_returned {A} (body : M A) (handler : str -> M A)
  (s s' : session) (a : A) :
  try_except body handler s = (Returned a, s') ->
  body s = (Returned a, s') \/
  exists e s1, body s = (Raised e, s1) /\ handler e s1 = (Returned a, s').
Proof.
  unfold try_except. destruct (body s) as [[b|e|] s1]; eauto.
Qed.

Lemma find_some_id (document_id : uuid) (docs : list Document.t) (d : Document.t) :
  List.find (fun d => str_eqb (Document.id d) document_id) docs = Some d ->
  In d docs /\ Document.id d = document_id.
Proof.
  intros H. apply find_some in H as [H1 H2]. split; [exact H1|].
  now apply str_eqb_eq.
Qed.

Section WithEmbedder.
Variable ollama : str -> option Embeddings.vector.

Lemma index_handler_fails (document_id : uuid) (e : str) (s s' : session) (r : result) :
  index_handler document_id e s = (Returned r, s') -> fst (fst r) = false.
Proof.
  unfold index_handler. intros H.
  apply bind_returned in H as (? & ? & _ & H).
  apply bind_returned in H as (? & ? & _ & H).
  apply bind_returned in H as (? & ? & _ & H).
  injection H as <- _. reflexivity.
Qed.

(** The enumerated indices that survive a filter are strictly increasing. *)
Lemma enumerate_filter_sorted {A} (f : nat * A -> bool) (l : list A) (a : nat) :
  StronglySorted Z.lt
    (map (fun it => Z.of_nat (fst it)) (filter f (combine (seq a (length l)) l)))
  /\ Forall (fun z => Z.of_nat a <= z)
       (map (fun it => Z.of_nat (fst it)) (filter f (combine (seq a (length l)) l))).
Proof.
  revert a. induction l as [|x l IH]; intros a; cbn [length seq combine filter map].
  - split; constructor.
  - destruct (IH (S a)) as [H1 H2].
    assert (H3 : Forall (fun z => Z.of_nat a < z)
              (map (fun it => Z.of_nat (fst it))
                 (filter f (combine (seq (S a) (length l)) l)))).
    { eapply Forall_impl; [|exact H2]. cbn beta. intros z Hz. lia. }
    destruct (f (a, x)); cbn [map fst].
    + split; constructor; auto; try lia.
      eapply Forall_impl; [|exact H3]. cbn beta. intros; lia.
    + split; auto. eapply Forall_impl; [|exact H3]. cbn beta. intros; lia.
Qed.

Lemma enumerate_filter_all {A} (f : nat * A -> bool) (l : list A) (a : nat) :
  Forall (fun it => f it = true) (combine (seq a (length l)) l) ->
  map (fun it => Z.of_nat (fst it)) (filter f (combine (seq a (length l)) l))
  = map Z.of_nat (seq a (length l)).
Proof.
  revert a. induction l as [|x l IH]; intros a; cbn [length seq combine filter map];
    [reflexivity|].
  intros H. inversion H as [|? ? Hx Hl]; subst. rewrite Hx. cbn [map fst].
  f_equal. now apply IH.
Qed.

Lemma filter_filter_neg {A} (f : A -> bool) (l : list A) :
  filter f (filter (fun x => negb (f x)) l) = [].
Proof.
  induction l as [|x l IH]; simpl; [reflexivity|].
  destruct (f x) eqn:E; simpl; [exact IH|]. now rewrite E.
Qed.

Lemma filter_all {A} (f : A -> bool) (l : list A) :
  Forall (fun x => f x = true) l -> filter f l = l.
Proof.
  induction 1 as [|x l Hx _ IH]; simpl; [reflexivity|]. now rewrite Hx, IH.
Qed.

(** What a successful run of the [try] block leaves in the store. *)
Lemma index_body_success (document : Document.t) (text : str)
  (s s' : session) (n : Z) :
  index_body ollama document (Document.id document) text s
    = (Returned (true, None, n), s') ->
  exists located,
    HeadingDetection.chunk_text_with_headings text 1000 150 = Some located /\
    let embeddings :=
      Embeddings.embed_batch ollama (map (fun '(chunk_text, _, _, _) => chunk_text) located) in
    let kept_items := survivors (enumerate (combine located embeddings)) in
    ordinals (Document.id document) (committed s')
      = map (fun it => Z.of_nat (fst it)) kept_items /\
    n = len kept_items.
Proof.
  unfold index_body. intros H.
  apply bind_returned in H as (? & s1 & H1 & H). apply set_index_state_returned in H1 as (_ & C1 & _).
  apply bind_returned in H as (? & s2 & H2 & H). apply commit_returned in H2 as (_ & W2 & _).
  apply bind_returned in H as (? & s3 & H3 & H). apply delete_chunks_returned in H3 as (_ & _ & C3 & _).
  apply bind_returned in H as (? & s4 & H4 & H). apply commit_returned in H4 as (_ & W4 & _).
  destruct (HeadingDetection.chunk_text_with_headings text 1000 150) as [located|];
    [|discriminate].
  exists located. split; [reflexivity|].
  destruct (negb (truthy located)).
  { apply bind_returned in H as (? & ? & _ & H).
    apply bind_returned in H as (? & ? & _ & H). discriminate. }
  cbv zeta in H |- *.
  set (embeddings := Embeddings.embed_batch ollama _) in *.
  destruct (_ =? len embeddings).
  { apply bind_returned in H as (? & ? & _ & H).
    apply bind_returned in H as (? & ? & _ & H). discriminate. }
  apply bind_returned in H as (created & s5 & H5 & H).
  destruct (for_each_add_step document (enumerate (combine located embeddings)) 0 s4)
    as (s5' & new & F1 & F2 & F3 & F4 & F5 & F6).
  rewrite F1 in H5. injection H5 as <- <-.
  apply bind_returned in H as (? & s6 & H6 & H). apply commit_returned in H6 as (_ & W6 & _).
  apply bind_returned in H as (? & s7 & H7 & H).
  assert (C7 : document_chunks (working s7) = document_chunks (working s6)).
  { destruct (0 <? _); now apply set_index_state_returned in H7 as (_ & C7 & _). }
  apply bind_returned in H as (? & s8 & H8 & H). apply commit_returned in H8 as (K8 & _).
  injection H as <- <-.
  split; [|lia].
  unfold ordinals. rewrite K8, C7, W6, F4, W4, C3, filter_app, filter_filter_neg.
  cbn [app]. rewrite filter_all; [exact F5|].
  eapply Forall_impl; [|exact F6]. cbn beta. intros c ->. apply str_eqb_refl.
Qed.

End WithEmbedder.
Section WithEmbedder.
Variable ollama : str -> option Embeddings.vector.

(** Once the commit of line 57 has succeeded, an exception raised in the
    [try] block leaves [INDEXING] committed. *)
Lemma index_body_raised (document : Document.t) (document_id : uuid) (text : str)
  (s s1 : session) (e : str) :
  (match faults s with Some _ :: _ => False | _ => True end) ->
  index_body ollama document document_id text s = (Raised e, s1) ->
  status_of document_id (committed s1)
    = map (fun _ => INDEXING) (status_of document_id (working s)).
Proof.
  intros Hfirst. unfold index_body. intros H.
  apply bind_raised in H as [H|(? & sa & Ha & H)]; [discriminate|].
  apply status_of_set in Ha as (Sa & Ca & Fa).
  apply bind_raised in H as [H|(? & sb & Hb & H)].
  { exfalso. unfold commit in H.
    apply bind_raised in H as [H|(? & ? & _ & H)]; [|discriminate].
    unfold db_call in H. rewrite Fa in H.
    destruct (faults s) as [|[e'|] fs]; try discriminate; auto. }
  apply commit_returned in Hb as (Cb & Wb & _).
  assert (Pb : status_of document_id (committed sb)
               = map (fun _ => INDEXING) (status_of document_id (working s)))
    by (rewrite Cb; exact Sa).
  apply bind_raised in H as [H|(? & sc & Hc & H)].
  { apply delete_chunks_raised in H as [-> _]. exact Pb. }
  apply delete_chunks_returned in Hc as (Cc & Dc & _).
  apply bind_raised in H as [H|(? & sd & Hd & H)].
  { apply commit_raised in H as [-> _]. now rewrite Cc. }
  apply commit_returned in Hd as (Cd & Wd & _).
  assert (Pd : status_of document_id (committed sd)
               = map (fun _ => INDEXING) (status_of document_id (working s))).
  { rewrite Cd, (@status_of_documents document_id _ _ Dc), Wb. exact Sa. }
  destruct (HeadingDetection.chunk_text_with_headings text 1000 150) as [located|];
    [|discriminate].
  assert (Hset : forall st err sx sy e' (k : M result),
            committed sx = committed sd ->
            bind (set_index_state document_id st err) (fun _ => bind commit (fun _ => k)) sx
              = (Raised e', sy) ->
            (exists sz, k sz = (Raised e', sy)) \/
            status_of document_id (committed sy)
              = map (fun _ => INDEXING) (status_of document_id (working s))).
  { intros st err sx sy e' k Cx Hx.
    apply bind_raised in Hx as [Hx|(? & s2 & H2 & Hx)]; [discriminate|].
    apply status_of_set in H2 as (_ & C2 & _).
    apply bind_raised in Hx as [Hx|(? & s3 & H3 & Hx)].
    - right. apply commit_raised in Hx as [-> _]. now rewrite C2, Cx.
    - left. eauto. }
  destruct (negb (truthy located)).
  { apply Hset in H as [[sz H]|H]; [discriminate|exact H|reflexivity]. }
  cbv zeta in H.
  destruct (_ =? _).
  { apply Hset in H as [[sz H]|H]; [discriminate|exact H|reflexivity]. }
  apply bind_raised in H as [H|(created & se & He & H)].
  { destruct (for_each_add_step document
                (enumerate (combine located
                   (Embeddings.embed_batch ollama
                      (map (fun '(chunk_text, _, _, _) => chunk_text) located)))) 0 sd)
      as (s5 & new & F1 & _). rewrite F1 in H. discriminate. }
  destruct (for_each_add_step document
              (enumerate (combine located
                 (Embeddings.embed_batch ollama
                    (map (fun '(chunk_text, _, _, _) => chunk_text) located)))) 0 sd)
    as (s5 & new & F1 & F2 & F3 & _).
  rewrite F1 in He. injection He as _ <-.
  apply bind_raised in H as [H|(? & sf & Hf & H)].
  { apply commit_raised in H as [-> _]. now rewrite F2. }
  apply commit_returned in Hf as (Cf & Wf & _).
  assert (Pf : status_of document_id (committed sf)
               = map (fun _ => INDEXING) (status_of document_id (working s))).
  { rewrite Cf, (@status_of_documents document_id _ _ F3), Wd,
      (@status_of_documents document_id _ _ Dc), Wb. exact Sa. }
  apply bind_raised in H as [H|(? & sg & Hg & H)].
  { destruct (0 <? _); discriminate. }
  assert (Cg : committed sg = committed sf).
  { destruct (0 <? _); now apply status_of_set in Hg as (_ & Cg & _). }
  apply bind_raised in H as [H|(? & sh & Hh & H)]; [|discriminate].
  apply commit_raised in H as [-> _]. now rewrite Cg.
Qed.

(** The handler then returns the failure and commits nothing new. *)
Lemma index_handler_returned (document_id : uuid) (e : str) (s s' : session)
  (r : result) :
  index_handler document_id e s = (Returned r, s') ->
  r = (false, Some e, 0) /\
  committed s' = committed s /\ working s' = committed s.
Proof.
  unfold index_handler. intros H.
  apply bind_returned in H as (? & s1 & H1 & H).
  apply set_index_state_returned in H1 as (C1 & _).
  apply bind_returned in H as (? & s2 & H2 & H).
  apply rollback_returned in H2 as (C2 & W2).
  apply bind_returned in H as (? & s3 & H3 & H).
  apply commit_returned in H3 as (C3 & W3 & _).
  injection H as <- <-. rewrite C3, W3, W2, C1. auto.
Qed.

End WithEmbedder.
End IndexerFacts.

Module SearchFacts.
Import Py PyFacts Db Rag StrFacts DbFacts IndexerFacts Spec.

Lemma insert_desc_in {A} (key : A -> float) (x y : A) (l : list A) :
  In y (insert_desc key x l) -> y = x \/ In y l.
Proof.
  induction l as [|z l IH]; simpl.
  - intros [->|[]]; auto.
  - destruct (PrimFloat.ltb (key x) (key z)); simpl.
    + intros [->|H]; auto. apply IH in H as [->|H]; auto.
    + intros [->|[->|H]]; auto.
Qed.

Lemma order_by_desc_in {A} (key : A -> float) (y : A) (l : list A) :
  In y (order_by_desc key l) -> In y l.
Proof.
  induction l as [|x l IH]; simpl; [tauto|].
  intros H. apply insert_desc_in in H as [->|H]; auto.
Qed.

Lemma limit_returned {A} (n : Z) (rows r : list A) (s s1 : session) :
  limit n rows s = (Returned r, s1) -> s1 = s /\ forall x, In x r -> In x rows.
Proof.
  unfold limit. destruct (n <? 0); [discriminate|].
  intros [= <- <-]. split; [reflexivity|]. intros x. apply firstn_in.
Qed.

Section WithServices.
Variable ollama_embed : str -> option Embeddings.vector.
Variable cosine_distance : Embeddings.vector -> Embeddings.vector -> float.
Variable ts_rank_cd : str -> str -> option float.

Lemma hybrid_query_scoped (qv : Embeddings.vector) (query company_id : str)
  (document_id : option str) (cl top_k : Z) (s s1 : session)
  (rows : list DocumentChunk.t) :
  hybrid_query cosine_distance ts_rank_cd qv query company_id document_id cl top_k s
    = (Returned rows, s1) ->
  Forall (scoped company_id document_id s) rows.
Proof.
  unfold hybrid_query. intros H.
  apply bind_returned in H as (? & s0 & H0 & H). apply db_call_returned in H0 as (_ & W & _).
  apply bind_returned in H as (w & s2 & H2 & H). injection H2 as <- <-.
  apply bind_returned in H as (cands & s3 & H3 & H).
  apply limit_returned in H3 as [-> H3]. apply limit_returned in H as [-> H].
  apply Forall_forall. intros dc Hdc.
  apply H, order_by_desc_in, H3, order_by_desc_in, filter_In in Hdc.
  unfold scoped. now rewrite <- W.
Qed.

Lemma semantic_query_scoped (qv : Embeddings.vector) (company_id : str)
  (document_id : option str) (top_k : Z) (s s1 : session)
  (rows : list DocumentChunk.t) :
  semantic_query cosine_distance qv company_id document_id top_k s
    = (Returned rows, s1) ->
  Forall (scoped company_id document_id s) rows /\ working s1 = working s.
Proof.
  unfold semantic_query. intros H.
  apply bind_returned in H as (? & s0 & H0 & H). apply db_call_returned in H0 as (_ & W & _).
  apply bind_returned in H as (w & s2 & H2 & H). injection H2 as <- <-.
  apply limit_returned in H as [-> H]. split; [|exact W].
  apply Forall_forall. intros dc Hdc.
  apply H, order_by_desc_in, filter_In in Hdc.
  unfold scoped. now rewrite <- W.
Qed.

Lemma base_where_company (company_id : str) (document_id : option str)
  (dc : DocumentChunk.t) :
  base_where company_id document_id dc = true ->
  DocumentChunk.company_id dc = company_id.
Proof.
  unfold base_where. intros H. apply andb_prop in H as [H _].
  now apply str_eqb_eq.
Qed.

Lemma scoped_hits (company_id : str) (document_id : option str) (s : session)
  (mk : DocumentChunk.t -> Hit.t) (rows : list DocumentChunk.t) :
  (forall dc, hit_of dc (mk dc)) ->
  Forall (scoped company_id document_id s) rows ->
  Forall (tenant_hit company_id s) (map mk rows).
Proof.
  intros Hmk H. induction H as [|dc rows [H1 H2] _ IH]; simpl; constructor; auto.
  exists dc. split; [exact H1|]. split; [|apply Hmk].
  eauto using base_where_company.
Qed.

Lemma fallback_tenant (query : str) (qv : Embeddings.vector) (company_id : str)
  (top_k : Z) (document_id : option str) (s s' : session) (hits : list Hit.t) :
  _fallback_semantic_search cosine_distance query qv company_id top_k document_id s
    = (Returned hits, s') ->
  Forall (tenant_hit company_id s) hits.
Proof.
  unfold _fallback_semantic_search. intros H.
  apply bind_returned in H as (rows & s1 & H1 & H).
  apply semantic_query_scoped in H1 as [H1 W].
  destruct (negb (truthy rows)).
  - injection H as <- _. constructor.
  - apply bind_returned in H as (docs & s2 & _ & H). injection H as <- _.
    apply scoped_hits with (document_id := document_id); [|exact H1].
    intros dc. repeat split.
Qed.

End WithServices.

Lemma limit_raised {A} (n : Z) (rows : list A) (s s1 : session) (e : str) :
  limit n rows s = (Raised e, s1) -> s1 = s.
Proof.
  unfold limit. destruct (n <? 0); [|discriminate]. now intros [= _ <-].
Qed.

Section WithServices.
Variable ollama_embed : str -> option Embeddings.vector.
Variable cosine_distance : Embeddings.vector -> Embeddings.vector -> float.
Variable ts_rank_cd : str -> str -> option float.

Lemma hybrid_query_raised (qv : Embeddings.vector) (query company_id : str)
  (document_id : option str) (cl top_k : Z) (s s1 : session) (e : str) :
  hybrid_query cosine_distance ts_rank_cd qv query company_id document_id cl top_k s
    = (Raised e, s1) ->
  working s1 = working s.
Proof.
  unfold hybrid_query. intros H.
  apply bind_raised in H as [H|(? & s0 & H0 & H)]; [now apply db_call_raised in H|].
  apply db_call_returned in H0 as (_ & W & _).
  apply bind_raised in H as [H|(w & s2 & H2 & H)]; [discriminate|].
  injection H2 as <- <-.
  apply bind_raised in H as [H|(c & s3 & H3 & H)].
  - apply limit_raised in H as ->. exact W.
  - apply limit_returned in H3 as [-> _]. apply limit_raised in H as ->. exact W.
Qed.

Lemma tenant_hit_same_store (company_id : str) (s s1 : session) (hits : list Hit.t) :
  working s1 = working s ->
  Forall (tenant_hit company_id s1) hits -> Forall (tenant_hit company_id s) hits.
Proof.
  intros W. apply Forall_impl. intros h (dc & H1 & H2). exists dc. now rewrite <- W.
Qed.

Lemma search_tenant (query company_id : str) (top_k : Z) (document_id : option str)
  (s s' : session) (hits : list Hit.t) :
  perform_semantic_search ollama_embed cosine_distance ts_rank_cd
    query company_id top_k document_id s = (Returned hits, s') ->
  Forall (tenant_hit company_id s) hits.
Proof.
  unfold perform_semantic_search.
  destruct (Embeddings.embed ollama_embed query) as [qv|]; [|intros [= <- _]; constructor].
  destruct (negb (len qv =? 768)); [intros [= <- _]; constructor|].
  intros H. apply bind_returned in H as (r & s1 & H1 & H).
  apply try_except_returned in H1 as [H1|(e & s2 & H1 & H2)].
  - apply bind_returned in H1 as (rows & s3 & H3 & H1). injection H1 as <- <-.
    apply hybrid_query_scoped in H3.
    destruct (negb (truthy rows)); [injection H as <- _; constructor|].
    apply bind_returned in H as (docs & s4 & _ & H). injection H as <- _.
    apply scoped_hits with (document_id := document_id); [|exact H3].
    intros dc. repeat split.
  - apply bind_raised in H1 as [H1|(rows & s3 & _ & H1)]; [|discriminate].
    apply hybrid_query_raised in H1.
    apply bind_returned in H2 as (hs & s4 & H4 & H2). injection H2 as <- <-.
    injection H as <- _.
    apply fallback_tenant in H4. eauto using tenant_hit_same_store.
Qed.

(** With unique primary keys, a chunk of another company has the id of no
    returned dictionary. *)
Lemma unique_id (chunks : list DocumentChunk.t) (a b : DocumentChunk.t) :
  NoDup (map DocumentChunk.id chunks) -> In a chunks -> In b chunks ->
  DocumentChunk.id a = DocumentChunk.id b -> a = b.
Proof.
  induction chunks as [|c chunks IH]; simpl; [tauto|].
  intros N Ha Hb E. inversion N as [|? ? N1 N2]; subst.
  destruct Ha as [->|Ha], Hb as [->|Hb]; auto.
  - exfalso. apply N1. rewrite E. now apply in_map.
  - exfalso. apply N1. rewrite <- E. now apply in_map.
Qed.

End WithServices.
End SearchFacts.

Module ReFacts.
Import Py PyFacts StrFacts Re Spec.

Lemma startswith_app (x p : str) :
  startswith x p = true <-> x = p ++ skipn (length p) x.
Proof.
  revert x. induction p as [|a p IH]; intros [|b x]; simpl;
    try (split; (reflexivity || discriminate)).
  rewrite andb_true_iff, N.eqb_eq, IH. split.
  - intros [-> H]. now f_equal.
  - intros [= -> H]. auto.
Qed.

Lemma startswith_prefix (p rest : str) : startswith (p ++ rest) p = true.
Proof.
  induction p as [|a p IH]; simpl; [now destruct rest|]. now rewrite N.eqb_refl.
Qed.

Lemma skipn_app_exact {A} (p rest : list A) : skipn (length p) (p ++ rest) = rest.
Proof. induction p; simpl; auto. Qed.

Lemma firstn_app_exact {A} (p rest : list A) : firstn (length p) (p ++ rest) = p.
Proof. induction p; simpl; [reflexivity|now f_equal]. Qed.

(** The matcher on a literal. *)
Lemma m_lit (x pre suf : str) (k : cont) :
  m (lit x) pre suf k =
  if startswith suf x then k (rev x ++ pre) (skipn (length x) suf) else None.
Proof.
  revert pre suf. induction x as [|c x IH]; intros pre suf; cbn [lit m].
  - now destruct suf.
  - destruct suf as [|a suf]; cbn [startswith]; [reflexivity|].
    unfold chr_is. destruct (N.eqb c a) eqn:E; cbn [andb]; [|reflexivity].
    apply N.eqb_eq in E as <-. rewrite IH. cbn [length skipn rev].
    now rewrite <- app_assoc.
Qed.

(** A search succeeds exactly when a match starts at some position. *)
Lemma search_aux_iff (r : regex) (pre suf : str) :
  search_aux r pre suf = true <->
  exists a b, suf = a ++ b /\ match_at r (rev a ++ pre) b <> None.
Proof.
  revert pre. induction suf as [|c suf IH]; intros pre; cbn [search_aux].
  - destruct (match_at r pre []) eqn:E.
    + split; [|reflexivity]. intros _. exists [], []. simpl. split; congruence.
    + split; [discriminate|]. intros (a & b & H & N).
      symmetry in H. apply app_eq_nil in H as [-> ->]. simpl in N. congruence.
  - destruct (match_at r pre (c :: suf)) eqn:E.
    + split; [|reflexivity]. intros _. exists [], (c :: suf). simpl. split; congruence.
    + rewrite IH. split.
      * intros (a & b & -> & N). exists (c :: a), b. split; [reflexivity|].
        simpl. now rewrite <- app_assoc.
      * intros (a & b & H & N). destruct a as [|c' a].
        -- simpl in *. subst b. congruence.
        -- simpl in H. injection H as <- ->. exists a, b. split; [reflexivity|].
           simpl in N. now rewrite <- app_assoc in N.
Qed.

End ReFacts.

Module KeywordFacts.
Import Py PyFacts StrFacts Re Spec ReFacts.

Lemma match_bounded_literal (x pre suf : str) :
  match_at (Seq WordB (Seq (lit x) WordB)) pre suf <> None <->
  word_boundary pre suf = true /\ startswith suf x = true /\
  word_boundary (rev x ++ pre) (skipn (length x) suf) = true.
Proof.
  unfold match_at. cbn [m]. destruct (word_boundary pre suf); [|intuition congruence].
  rewrite m_lit. destruct (startswith suf x); [|intuition congruence].
  cbn [m]. destruct (word_boundary (rev x ++ pre) (skipn (length x) suf));
    intuition congruence.
Qed.

Lemma search_bounded_literal (x q : str) :
  search (Seq WordB (Seq (lit x) WordB)) q = true <-> whole_word x q.
Proof.
  unfold search, whole_word. rewrite search_aux_iff. split.
  - intros (a & b & -> & H). rewrite app_nil_r in H.
    apply match_bounded_literal in H as (H1 & H2 & H3).
    apply startswith_app in H2. exists a, (skipn (length x) b).
    rewrite <- H2. auto.
  - intros (a & b & -> & H1 & H2). exists a, (x ++ b). split; [reflexivity|].
    rewrite app_nil_r. apply match_bounded_literal.
    rewrite startswith_prefix, skipn_app_exact. auto.
Qed.

(** [_quote_is_relevant] holds exactly when the quote is not empty and
    some keyword, lowercased, occurs in the lowercased quote as a whole
    word. *)
Lemma quote_is_relevant_iff (quote : str) (answer_keywords : list str) :
  Rag._quote_is_relevant quote answer_keywords = true <->
  quote <> [] /\
  exists keyword, In keyword answer_keywords /\
                  whole_word (lower keyword) (lower quote).
Proof.
  unfold Rag._quote_is_relevant, Rag.re_keyword.
  destruct quote as [|c quote]; cbn [truthy negb orb].
  - split; [discriminate|]. intros [H _]. congruence.
  - destruct answer_keywords as [|kw kws]; cbn [truthy negb].
    + split; [discriminate|]. intros [_ (k & [] & _)].
    + rewrite existsb_exists. split.
      * intros (k & H1 & H2). split; [discriminate|]. exists k. split; [exact H1|].
        now apply search_bounded_literal.
      * intros [_ (k & H1 & H2)]. exists k. split; [exact H1|].
        now apply search_bounded_literal.
Qed.

(** The matcher on a repeated character class. *)
Lemma m_star_cls (p : char -> bool) (pre suf : str) (k : cont) (res : str * str) :
  m (Star (Cls p)) pre suf k = Some res ->
  exists w rest, suf = w ++ rest /\ Forall (fun c => p c = true) w /\
                 k (rev w ++ pre) rest = Some res.
Proof.
  change (m (Star (Cls p)) pre suf k)
    with (star_loop (m (Cls p)) k (S (length suf)) pre suf).
  generalize (S (length suf)) as n. intros n. revert pre suf.
  assert (Hnil : forall pre suf, k pre suf = Some res ->
            exists w rest, suf = w ++ rest /\ Forall (fun c => p c = true) w /\
                           k (rev w ++ pre) rest = Some res).
  { intros pre suf H. exists [], suf. repeat split; auto. }
  induction n as [|n IH]; intros pre suf; cbn [star_loop]; [apply Hnil|].
  destruct suf as [|c suf]; [apply Hnil|].
  change (m (Cls p) pre (c :: suf) ?k0)
    with (if p c then k0 (c :: pre) suf else None).
  destruct (p c) eqn:E; [|apply Hnil].
  replace (length suf <? length (c :: suf))%nat with true
    by (symmetry; apply Nat.ltb_lt; simpl; lia).
  destruct (star_loop (m (Cls p)) k n (c :: pre) suf) eqn:R; [|apply Hnil].
  intros [= <-]. apply IH in R as (w & rest & -> & Hw & Hk).
  exists (c :: w), rest. repeat split; auto.
  simpl. now rewrite <- app_assoc.
Qed.

Lemma m_plus_cls (p : char -> bool) (pre suf : str) (k : cont) (res : str * str) :
  m (plus (Cls p)) pre suf k = Some res ->
  exists w rest, w <> [] /\ suf = w ++ rest /\ Forall (fun c => p c = true) w /\
                 k (rev w ++ pre) rest = Some res.
Proof.
  unfold plus. cbn [m]. destruct suf as [|c suf]; [discriminate|].
  destruct (p c) eqn:E; [|discriminate].
  intros H. apply (m_star_cls p (c :: pre) suf k) in H as (w & rest & -> & Hw & Hk).
  exists (c :: w), rest. repeat split; auto; [discriminate|].
  simpl. now rewrite <- app_assoc.
Qed.

(** A match of [\b[class]+\b]. *)
Lemma match_bounded_class (p : char -> bool) (pre suf : str) (res : str * str) :
  match_at (Seq WordB (Seq (plus (Cls p)) WordB)) pre suf = Some res ->
  exists w rest, w <> [] /\ suf = w ++ rest /\ Forall (fun c => p c = true) w /\
    word_boundary pre suf = true /\ word_boundary (rev w ++ pre) rest = true /\
    res = (rev w ++ pre, rest).
Proof.
  unfold match_at. cbn [m]. destruct (word_boundary pre suf) eqn:B; [|discriminate].
  intros H. apply m_plus_cls in H as (w & rest & Hn & -> & Hw & Hk).
  cbn [m] in Hk. destruct (word_boundary (rev w ++ pre) rest) eqn:B2; [|discriminate].
  injection Hk as <-. exists w, rest. repeat split; auto.
Qed.

(** Every text [findall] returns is what a match consumed somewhere. *)
Lemma findall_aux_found (r : regex) (t : str) (suf : str) :
  forall (pre : str) (skip : nat),
  In t (findall_aux r pre suf skip) ->
  exists a b pp rest, suf = a ++ b /\
    match_at r (rev a ++ pre) b = Some (pp, rest) /\
    t = firstn (consumed b rest) b.
Proof.
  induction suf as [|c suf IH]; intros pre skip; cbn [findall_aux].
  - destruct skip; [|intros []].
    destruct (match_at r pre []) as [[pp rest]|] eqn:E; [|intros []].
    intros [<-|[]]. exists [], [], pp, rest. auto.
  - assert (Hrec : forall k, In t (findall_aux r (c :: pre) suf k) ->
              exists a b pp rest, c :: suf = a ++ b /\
                match_at r (rev a ++ pre) b = Some (pp, rest) /\
                t = firstn (consumed b rest) b).
    { intros k H. apply IH in H as (a & b & pp & rest & -> & H1 & H2).
      exists (c :: a), b, pp, rest. split; [reflexivity|]. split; [|exact H2].
      simpl. now rewrite <- app_assoc. }
    destruct skip; [|apply Hrec].
    destruct (match_at r pre (c :: suf)) as [[pp rest]|] eqn:E; [|apply Hrec].
    intros [<-|H]; [|eapply Hrec; eauto].
    exists [], (c :: suf), pp, rest. auto.
Qed.

Lemma findall_bounded_class (p : char -> bool) (x t : str) :
  In t (findall (Seq WordB (Seq (plus (Cls p)) WordB)) x) ->
  t <> [] /\ Forall (fun c => p c = true) t /\ whole_word t x.
Proof.
  unfold findall. intros H.
  apply findall_aux_found in H as (a & b & pp & rest & -> & H1 & ->).
  rewrite app_nil_r in H1.
  apply match_bounded_class in H1 as (w & rest' & Hn & -> & Hw & B1 & B2 & [= -> ->]).
  unfold consumed. rewrite length_app.
  replace (length w + length rest' - length rest')%nat with (length w) by lia.
  rewrite firstn_app_exact. repeat split; auto.
  exists a, rest'. auto.
Qed.

Lemma extract_answer_keywords_spec (answer kw : str) :
  In kw (Rag._extract_answer_keywords answer) -> is_keyword_of answer kw.
Proof.
  unfold Rag._extract_answer_keywords.
  destruct (negb (truthy answer)); [intros []|].
  intros H. apply in_app_or in H as [H|H].
  - apply filter_In in H as [H1 H2]. apply andb_prop in H2 as [H2 H3].
    apply findall_bounded_class in H1 as (Hn & Hc & Hw).
    left. repeat split; auto.
    + now apply negb_true_iff in H2.
    + apply Z.ltb_lt in H3. lia.
  - apply findall_bounded_class in H as (Hn & Hc & Hw). right. auto.
Qed.

End KeywordFacts.

Module QuoteFacts.
Import Py PyFacts StrFacts Re Spec ReFacts Rag.

Lemma occurs_in_refl (x : str) : occurs_in x x.
Proof. exists [], []. now rewrite app_nil_r. Qed.

Lemma occurs_in_trans (x y z : str) : occurs_in x y -> occurs_in y z -> occurs_in x z.
Proof.
  intros (a & b & ->) (c & d & ->). exists (c ++ a), (b ++ d).
  now rewrite <- !app_assoc.
Qed.

Lemma strip_is_infix (x : str) : occurs_in (strip x) x.
Proof. destruct (strip_infix x) as (p & q & H). now exists p, q. Qed.

(** The pieces and separators of [split_keep] make up the text. *)
Lemma split_keep_concat (r : regex) (suf : str) :
  forall (pre acc : str) (skip : nat),
  concat (split_aux true r pre suf acc skip) = rev acc ++ skipn skip suf.
Proof.
  induction suf as [|c suf IH]; intros pre acc skip; cbn [split_aux].
  - destruct skip; simpl; now rewrite !app_nil_r.
  - destruct skip as [|k]; [|rewrite IH; reflexivity].
    assert (Hstep : concat (split_aux true r (c :: pre) suf (c :: acc) 0)
                    = rev acc ++ skipn 0 (c :: suf)).
    { rewrite IH. simpl. now rewrite <- app_assoc. }
    destruct (match_at r pre (c :: suf)) as [[pp rest]|]; [|exact Hstep].
    destruct (consumed (c :: suf) rest) as [|k]; [exact Hstep|].
    cbn [concat app]. rewrite IH. cbn [rev app skipn].
    change (skipn k suf) with (skipn (S k) (c :: suf)).
    now rewrite firstn_skipn.
Qed.

(** Every reconstructed sentence occurs in the text that was split. *)
Lemma reconstruct_infix (s : str) (n : nat) :
  forall sentences, (length sentences <= n)%nat ->
  In s (reconstruct sentences) -> occurs_in s (concat sentences).
Proof.
  induction n as [|n IH]; intros [|a [|b rest]] Hn; cbn [reconstruct];
    try (intros []); simpl in Hn; try lia.
  intros H. apply in_app_or in H as [H|H].
  - destruct (truthy (strip (a ++ b))); [|destruct H].
    destruct H as [<-|[]]. cbn [concat].
    apply occurs_in_trans with (a ++ b); [apply strip_is_infix|].
    exists [], (concat rest). now rewrite app_assoc.
  - assert (Hr : (length rest <= n)%nat) by lia.
    destruct n as [|n]; [destruct rest; [destruct H|simpl in Hr; lia]|].
    apply (IH rest) in H; [|lia].
    destruct H as (u & v & E). cbn [concat]. rewrite E.
    exists (a ++ b ++ u), v. now rewrite <- !app_assoc.
Qed.

Lemma pick_quotes_origin (max_quotes max_length : Z) (q : str) (sentences : list str) :
  forall quotes,
  In q (pick_quotes max_quotes max_length sentences quotes) ->
  In q quotes \/
  exists x, In x sentences /\
            (q = x \/ (max_length < len x /\ q = truncate max_length x)).
Proof.
  induction sentences as [|x sentences IH]; intros quotes; cbn [pick_quotes]; [auto|].
  assert (Hrec : forall qs, (In q qs -> In q quotes \/ q = x) ->
            In q (pick_quotes max_quotes max_length sentences qs) ->
            In q quotes \/
            exists x0, In x0 (x :: sentences) /\
              (q = x0 \/ (max_length < len x0 /\ q = truncate max_length x0))).
  { intros qs Hqs H. apply IH in H as [H|(y & H1 & H2)].
    - apply Hqs in H as [H| ->]; [now left|]. right. exists x. simpl. auto.
    - right. exists y. simpl. auto. }
  destruct (len x <=? max_length) eqn:E.
  - destruct (max_quotes <=? len (quotes ++ [x])).
    + intros H. apply in_app_or in H as [H|[<-|[]]]; [now left|].
      right. exists x. simpl. auto.
    + apply Hrec. intros H. apply in_app_or in H as [H|[<-|[]]]; auto.
  - apply Z.leb_gt in E. destruct (len quotes =? 0).
    + intros H. apply in_app_or in H as [H|[<-|[]]]; [now left|].
      right. exists x. simpl. auto.
    + apply Hrec. auto.
Qed.

(** Where the quotes of [_extract_quotes] come from. *)
Lemma extract_quotes_origin (chunk_text : str) (max_quotes max_length : Z) (q : str) :
  In q (_extract_quotes chunk_text max_quotes max_length) ->
  exists x, occurs_in x chunk_text /\
            (q = x \/ (max_length < len x /\ q = truncate max_length x)).
Proof.
  unfold _extract_quotes.
  destruct (negb (truthy chunk_text) || negb (truthy (strip chunk_text)))%bool;
    [intros []|].
  set (text := strip chunk_text).
  set (sentences := split_keep re_quote_delim text).
  assert (Hc : concat sentences = text).
  { unfold sentences, split_keep. now rewrite split_keep_concat. }
  set (quotes := if truthy (reconstruct sentences) then _ else _).
  assert (Hq : forall y, In y quotes ->
            exists x, occurs_in x chunk_text /\
              (y = x \/ (max_length < len x /\ y = truncate max_length x))).
  { unfold quotes. destruct (truthy (reconstruct sentences)); [|intros y []].
    intros y H. apply pick_quotes_origin in H as [[]|(x & H1 & H2)].
    exists x. split; [|exact H2].
    apply reconstruct_infix with (n := length sentences) in H1; [|lia].
    rewrite Hc in H1. eapply occurs_in_trans; [exact H1|apply strip_is_infix]. }
  destruct (truthy quotes).
  - intros H. apply firstn_in in H. auto.
  - destruct (max_length <? len text) eqn:E.
    + apply Z.ltb_lt in E. intros [<-|[]]. exists text.
      split; [apply strip_is_infix|]. auto.
    + intros [<-|[]]. exists text. split; [apply strip_is_infix|]. auto.
Qed.


Lemma rfind_char_aux_spec (x : str) (c : char) :
  forall i best,
  let r := rfind_char_aux x c i best in
  r = best \/ (i <= r < i + len x /\ nth_error x (Z.to_nat (r - i)) = Some c).
Proof.
  induction x as [|a x IH]; intros i best; cbn [rfind_char_aux]; [now left|].
  cbv zeta. destruct (IH (i + 1) (if N.eqb a c then i else best)) as [H|[H1 H2]].
  - rewrite H. destruct (N.eqb a c) eqn:E; [|now left].
    apply N.eqb_eq in E as ->. right. rewrite Z.sub_diag. simpl.
    unfold len. simpl length. split; [lia|reflexivity].
  - right. unfold len in *. simpl length. split; [lia|].
    replace (Z.to_nat (rfind_char_aux x c (i + 1) (if N.eqb a c then i else best) - i))
      with (S (Z.to_nat (rfind_char_aux x c (i + 1) (if N.eqb a c then i else best) - (i + 1))))
      by lia.
    exact H2.
Qed.

Lemma rfind_char_spec (x : str) (c : char) :
  rfind_char x c = -1 \/
  (0 <= rfind_char x c < len x /\
   nth_error x (Z.to_nat (rfind_char x c)) = Some c).
Proof.
  unfold rfind_char. destruct (rfind_char_aux_spec x c 0 (-1)) as [H|[H1 H2]];
    [now left|right].
  rewrite Z.sub_0_r in H2. split; [lia|exact H2].
Qed.

(** [last_space > 220 * 0.7] holds from 155 on. *)
Lemma threshold_220 (k : Z) :
  -1 <= k < 220 ->
  PrimFloat.ltb (float_of_Z 220 * 0.7)%float (float_of_Z k) = true -> 154 < k.
Proof.
  intros Hk.
  assert (Hall : forallb
            (fun n => implb (PrimFloat.ltb (float_of_Z 220 * 0.7)%float
                               (float_of_Z (Z.of_nat n - 1)))
                            (154 <? Z.of_nat n - 1))
            (seq 0 221) = true) by (vm_compute; reflexivity).
  rewrite forallb_forall in Hall.
  specialize (Hall (Z.to_nat (k + 1))).
  replace (Z.of_nat (Z.to_nat (k + 1)) - 1) with k in Hall by lia.
  intros H. rewrite H in Hall. apply Z.ltb_lt. apply Hall.
  apply in_seq. lia.
Qed.

Lemma slice_to_firstn {A} (x : list A) (n : Z) :
  0 <= n <= len x -> slice_to x n = firstn (Z.to_nat n) x.
Proof.
  intros H. unfold slice_to, clamp.
  destruct (n <? 0) eqn:E; [apply Z.ltb_lt in E; lia|].
  now rewrite Z.min_l by lia.
Qed.

Lemma leading_span_firstn (n : nat) (x : str) : leading_span (firstn n x) x.
Proof. exists (skipn n x). now rewrite firstn_skipn. Qed.

Lemma leading_span_trans (p q x : str) : leading_span p q -> leading_span q x -> leading_span p x.
Proof. intros [a ->] [b ->]. exists (a ++ b). now rewrite app_assoc. Qed.

Lemma leading_span_len (p x : str) : leading_span p x -> len p <= len x.
Proof. intros [q ->]. rewrite len_app. pose proof (len_nonneg q). lia. Qed.

(** [rfind] returns the highest index of the character. *)
Lemma rfind_char_aux_highest (x : str) (c : char) :
  forall i best j,
  i <= j -> nth_error x (Z.to_nat (j - i)) = Some c ->
  j <= rfind_char_aux x c i best.
Proof.
  induction x as [|a x IH]; intros i best j Hj H; cbn [rfind_char_aux].
  - destruct (Z.to_nat (j - i)); discriminate.
  - destruct (Z.eq_dec j i) as [->|Hne].
    + rewrite Z.sub_diag in H. cbn in H. injection H as ->.
      rewrite N.eqb_refl.
      destruct (rfind_char_aux_spec x c (i + 1) i) as [E|[E _]]; cbv zeta in *; lia.
    + apply IH; [lia|].
      replace (Z.to_nat (j - i)) with (S (Z.to_nat (j - (i + 1)))) in H by lia.
      exact H.
Qed.

Lemma rfind_char_highest (x : str) (c : char) (j : nat) :
  nth_error x j = Some c -> Z.of_nat j <= rfind_char x c.
Proof.
  intros H. unfold rfind_char. apply rfind_char_aux_highest; [lia|].
  now replace (Z.to_nat (Z.of_nat j - 0)) with j by lia.
Qed.

(** [last_space > 220 * 0.7] fails up to 154. *)
Lemma threshold_220_below (k : Z) :
  -1 <= k < 220 ->
  PrimFloat.ltb (float_of_Z 220 * 0.7)%float (float_of_Z k) = false -> k <= 154.
Proof.
  intros Hk.
  assert (Hall : forallb
            (fun n => implb (negb (PrimFloat.ltb (float_of_Z 220 * 0.7)%float
                                     (float_of_Z (Z.of_nat n - 1))))
                            (Z.of_nat n - 1 <=? 154))
            (seq 0 221) = true) by (vm_compute; reflexivity).
  rewrite forallb_forall in Hall.
  specialize (Hall (Z.to_nat (k + 1))).
  replace (Z.of_nat (Z.to_nat (k + 1)) - 1) with k in Hall by lia.
  intros H. rewrite H in Hall. apply Z.leb_le. apply Hall.
  apply in_seq. lia.
Qed.

(** The truncation of a sentence of more than 220 characters. *)
Lemma truncate_220 (x : str) : 220 < len x -> truncated_from x (truncate 220 x).
Proof.
  intros Hx. split; [exact Hx|]. unfold truncate.
  rewrite (slice_to_firstn x (n := 220)) by lia.
  set (truncated := firstn (Z.to_nat 220) x).
  assert (Ht : len truncated = 220).
  { unfold truncated, len. rewrite length_firstn. unfold len in Hx. lia. }
  assert (Hnth : forall i, (i < 220)%nat -> nth_error truncated i = nth_error x i).
  { intros i Hi. unfold truncated. rewrite nth_error_firstn.
    destruct (i <? Z.to_nat 220)%nat eqn:L; [reflexivity|].
    apply Nat.ltb_ge in L. lia. }
  set (k := rfind_char truncated Chunking.sp).
  assert (Hlast : forall i, (i < 220)%nat -> nth_error x i = Some Chunking.sp ->
                            Z.of_nat i <= k).
  { intros i Hi H. apply rfind_char_highest. now rewrite Hnth. }
  destruct (PrimFloat.ltb _ _) eqn:F.
  - destruct (rfind_char_spec truncated Chunking.sp) as [E|[H1 H2]].
    + fold k in E. rewrite E in F. vm_compute in F. discriminate.
    + fold k in H1, H2. apply threshold_220 in F; [|lia].
      exists (slice_to truncated k). rewrite slice_to_firstn by lia.
      assert (Hp : firstn (Z.to_nat k) truncated = firstn (Z.to_nat k) x).
      { unfold truncated. rewrite firstn_firstn. f_equal. lia. }
      rewrite Hp.
      assert (Hl : length (firstn (Z.to_nat k) x) = Z.to_nat k).
      { rewrite length_firstn. unfold len in Hx. lia. }
      repeat split.
      * apply leading_span_firstn.
      * unfold len. rewrite Hl. lia.
      * left. unfold len. rewrite Hl. repeat split; try lia.
        -- rewrite <- Hnth by lia. exact H2.
        -- intros i Hi H. apply Hlast in H; lia.
  - assert (Hk : k <= 154).
    { destruct (rfind_char_spec truncated Chunking.sp) as [E|[H1 _]].
      - fold k in E. lia.
      - fold k in H1. apply threshold_220_below; [lia|exact F]. }
    exists (rstrip truncated). repeat split.
    + destruct (rstrip_prefix truncated) as [q Hq].
      apply leading_span_trans with truncated; [now exists q|apply leading_span_firstn].
    + destruct (rstrip_prefix truncated) as [q Hq].
      assert (leading_span (rstrip truncated) truncated) by now exists q.
      apply leading_span_len in H. lia.
    + right. split; [|reflexivity].
      intros i Hi H. apply Hlast in H; lia.
Qed.

Lemma extract_quotes_quote_of (chunk_text q : str) :
  In q (_extract_quotes chunk_text 2 220) -> quote_of chunk_text q.
Proof.
  intros H. apply extract_quotes_origin in H as (x & H1 & [->|[H2 ->]]).
  - exists x. auto.
  - exists x. split; [exact H1|]. right. now apply truncate_220.
Qed.

End QuoteFacts.

Module SourceFacts.
Import Py PyFacts StrFacts Rag Spec SearchFacts QuoteFacts.

Lemma key_eqb_eq (a b : source_key) : key_eqb a b = true -> a = b.
Proof.
  destruct a as [a1 [a2|]], b as [b1 [b2|]]; unfold key_eqb; cbn [fst snd];
    intros H; apply andb_prop in H as [H1 H2]; try discriminate;
    apply str_eqb_eq in H1 as ->; [apply str_eqb_eq in H2 as ->|]; reflexivity.
Qed.

Lemma key_eqb_refl (a : source_key) : key_eqb a a = true.
Proof.
  destruct a as [a1 [a2|]]; unfold key_eqb; cbn [fst snd];
    now rewrite !str_eqb_refl.
Qed.

Lemma lookup_some (d : sources_dict) (k : source_key) (e : Entry.t) :
  lookup d k = Some e -> In (k, e) d.
Proof.
  induction d as [|[k' v] d IH]; cbn [lookup]; [discriminate|].
  destruct (key_eqb k' k) eqn:E.
  - intros [= ->]. apply key_eqb_eq in E as ->. now left.
  - intros H. right. auto.
Qed.

Lemma assign_in (d : sources_dict) (key k : source_key) (e v : Entry.t) :
  In (k, v) (assign d key e) -> In (k, v) d \/ (k = key /\ v = e).
Proof.
  induction d as [|[k' v'] d IH]; cbn [assign].
  - intros [[= <- <-]|[]]. now right.
  - destruct (key_eqb k' key) eqn:E.
    + intros [[= <- <-]|H]; [|left; now right].
      right. split; [now apply key_eqb_eq|reflexivity].
    + intros [H|H]; [left; now left|].
      apply IH in H as [H|H]; [left; now right|now right].
Qed.

Lemma merge_quotes_in (q : str) (relevant : list str) :
  forall existing, In q (merge_quotes existing relevant) ->
                   In q existing \/ In q relevant.
Proof.
  unfold merge_quotes.
  induction relevant as [|r relevant IH]; intros existing; cbn [fold_left]; [auto|].
  intros H. apply IH in H as [H|H]; [|right; now right].
  destruct (is_duplicate r existing); [now left|].
  apply in_app_or in H as [H|[<-|[]]]; [now left|right; now left].
Qed.

Lemma insert_len_in (q x : str) (l : list str) :
  In q (insert_len x l) -> q = x \/ In q l.
Proof.
  induction l as [|y l IH]; cbn [insert_len].
  - intros [<-|[]]. now left.
  - destruct (len y <? len x).
    + intros [<-|H]; [right; now left|]. apply IH in H as [H|H]; auto.
      right. now right.
    + intros [<-|H]; auto.
Qed.

Lemma sort_by_len_in (q : str) (l : list str) : In q (sort_by_len l) -> In q l.
Proof.
  unfold sort_by_len. induction l as [|x l IH]; cbn [fold_right]; [auto|].
  intros H. apply insert_len_in in H as [->|H]; [now left|right; auto].
Qed.

Lemma cap_quotes_in (q : str) (l : list str) : In q (cap_quotes l) -> In q l.
Proof.
  unfold cap_quotes. destruct (3 <? len l); [|auto].
  unfold slice_to. intros H. apply firstn_in in H.
  now apply sort_by_len_in.
Qed.

Lemma source_step_ok (chunks : list Hit.t) (answer_keywords : list str)
  (d : sources_dict) (chunk : Hit.t) :
  In chunk chunks -> sources_ok chunks answer_keywords d ->
  sources_ok chunks answer_keywords (source_step answer_keywords d chunk).
Proof.
  intros Hc Hd. unfold source_step.
  set (key := (Hit.document_id chunk, Hit.heading chunk)).
  set (relevant := filter _ _).
  assert (Hrel : forall q, In q relevant -> grounded chunks answer_keywords key q).
  { intros q H. apply filter_In in H as [H1 H2]. exists chunk. auto. }
  destruct (negb (truthy relevant)); [exact Hd|].
  destruct (lookup d key) as [e0|] eqn:L.
  - apply lookup_some in L. destruct (Hd _ _ L) as [K0 Q0].
    intros k e H. apply assign_in in H as [H|[-> ->]]; [now apply Hd|].
    cbn [Entry.document_id Entry.heading Entry.quotes]. split; [exact K0|].
    intros q H. apply cap_quotes_in, merge_quotes_in in H as [H|H]; auto.
  - intros k e H. apply in_app_or in H as [H|[[= <- <-]|[]]]; [now apply Hd|].
    cbn [Entry.document_id Entry.heading Entry.quotes]. split; [reflexivity|exact Hrel].
Qed.

Lemma fold_source_step_ok (chunks : list Hit.t) (answer_keywords : list str)
  (l : list Hit.t) :
  forall d, incl l chunks -> sources_ok chunks answer_keywords d ->
  sources_ok chunks answer_keywords (fold_left (source_step answer_keywords) l d).
Proof.
  induction l as [|c l IH]; intros d Hl Hd; cbn [fold_left]; [exact Hd|].
  apply IH; [intros x Hx; apply Hl; now right|].
  apply source_step_ok; [apply Hl; now left|exact Hd].
Qed.

(** A chunk none of whose quotes is relevant leaves [sources_map] as it
    is. *)
Lemma source_step_skips (answer_keywords : list str) (d : sources_dict) (chunk : Hit.t) :
  (forall q, In q (_extract_quotes (Hit.text chunk) 2 220) ->
             _quote_is_relevant q answer_keywords = false) ->
  source_step answer_keywords d chunk = d.
Proof.
  intros H. unfold source_step.
  replace (filter _ (_extract_quotes (Hit.text chunk) 2 220)) with (@nil str);
    [reflexivity|].
  symmetry. induction (_extract_quotes (Hit.text chunk) 2 220) as [|q l IH];
    cbn [filter]; [reflexivity|].
  rewrite (H q) by now left. apply IH. intros q' Hq'. apply H. now right.
Qed.

Section WithServices.
Variable ollama_chat : str -> option str.
Variable settings : Config.Settings.

(** Every quote of every returned source is a relevant quote of a
    retrieved chunk of that source's document and heading, for the
    keywords of the returned answer. *)
Lemma answer_from_grounded (query : str) (chunks : list Hit.t)
  (ans : str) (cits : list Citation.t) (srcs : list Source.t) (conf : str) (n : Z)
  (src : Source.t) (q : str) :
  answer_from ollama_chat settings query chunks = (ans, cits, srcs, conf, n) ->
  In src srcs -> In q (Source.quotes src) ->
  grounded chunks (_extract_answer_keywords ans)
    (Source.document_id src, Source.heading src) q.
Proof.
  unfold answer_from. destruct chunks as [|first others]; [intros [= _ _ <- _ _] []|].
  destruct (PrimFloat.ltb _ 0.3%float); [intros [= _ _ <- _ _] []|].
  destruct (Llm.generate ollama_chat _) as [[|c raw]|];
    try (intros [= _ _ <- _ _] []).
  intros [= <- _ <- _ _] Hs Hq.
  apply in_map_iff in Hs as (e & <- & He).
  apply order_by_desc_in, in_map_iff in He as ([k e'] & E & He). cbn [snd] in E. subst e'.
  pose proof (@fold_source_step_ok (first :: others)
                (_extract_answer_keywords (_clean_answer_text (c :: raw)))
                (first :: others) [] (incl_refl _)) as Hok.
  destruct (Hok (fun _ _ H => match H with end) _ _ He) as [K Q].
  cbn [Source.document_id Source.heading Source.quotes] in *.
  rewrite K. auto.
Qed.

End WithServices.
End SourceFacts.

Module AnswerFacts.
Import Py PyFacts StrFacts Db Rag Spec DbFacts SourceFacts QuoteFacts KeywordFacts.

Lemma has_char_in (x : str) (c : char) : has_char x c = true <-> In c x.
Proof.
  unfold has_char. rewrite existsb_exists. split.
  - intros (a & H1 & H2). apply N.eqb_eq in H2. now subst.
  - intros H. exists c. split; [exact H|apply N.eqb_refl].
Qed.

Lemma fold_source_step_skips (answer_keywords : list str) (l : list Hit.t) :
  forall d,
  (forall chunk q, In chunk l -> In q (_extract_quotes (Hit.text chunk) 2 220) ->
                   _quote_is_relevant q answer_keywords = false) ->
  fold_left (source_step answer_keywords) l d = d.
Proof.
  induction l as [|c l IH]; intros d H; cbn [fold_left]; [reflexivity|].
  rewrite source_step_skips by (intros q Hq; apply (H c q); [now left|exact Hq]).
  apply IH. intros chunk q Hc. apply H. now right.
Qed.

Section WithServices.
Variable ollama_embed : str -> option Embeddings.vector.
Variable ollama_chat : str -> option str.
Variable cosine_distance : Embeddings.vector -> Embeddings.vector -> float.
Variable ts_rank_cd : str -> str -> option float.
Variable settings : Config.Settings.

(** When no quote of any retrieved chunk is relevant to the returned
    answer, no citation and no source is returned. *)
Lemma answer_from_no_overlap (query : str) (chunks : list Hit.t)
  (ans : str) (cits : list Citation.t) (srcs : list Source.t) (conf : str) (n : Z) :
  answer_from ollama_chat settings query chunks = (ans, cits, srcs, conf, n) ->
  (forall chunk q, In chunk chunks ->
     In q (_extract_quotes (Hit.text chunk) 2 220) ->
     _quote_is_relevant q (_extract_answer_keywords ans) = false) ->
  cits = [] /\ srcs = [].
Proof.
  unfold answer_from. destruct chunks as [|first others]; [now intros [= _ <- <- _ _]|].
  destruct (PrimFloat.ltb _ 0.3%float); [now intros [= _ <- <- _ _]|].
  destruct (Llm.generate ollama_chat _) as [[|c raw]|];
    try (now intros [= _ <- <- _ _]).
  intros [= <- <- <- _ _] H.
  pose proof (@fold_source_step_skips _ (first :: others) [] H) as F.
  cbn [fold_left] in F |- *. rewrite F. now cbn.
Qed.

(** [answer_question] returns what [answer_from] makes of the retrieved
    chunks. *)
Lemma answer_question_returned (query company_id : str) (top_k : option Z)
  (s s' : session) (r : answer) :
  answer_question ollama_embed ollama_chat cosine_distance ts_rank_cd settings
    query company_id top_k s = (Returned r, s') ->
  exists hits,
    perform_semantic_search ollama_embed cosine_distance ts_rank_cd
      query company_id (top_k_or_default settings top_k) None s = (Returned hits, s') /\
    answer_from ollama_chat settings query hits = r.
Proof.
  unfold answer_question. cbv zeta. intros H.
  apply bind_returned in H as (hits & s1 & H1 & H). injection H as <- <-.
  exists hits. auto.
Qed.

End WithServices.
End AnswerFacts.

(* ================================================================== *)
(** * Further lemmas *)
(* ================================================================== *)

Module StripFacts.
Import Py PyFacts.
Import ChunkSpec.

Lemma dropwhile_head {A} (f : A -> bool) (x : list A) :
  match dropwhile f x with [] => True | c :: _ => f c = false end.
Proof.
  induction x as [|a x IH]; cbn; [exact I|].
  destruct (f a) eqn:E; [exact IH|exact E].
Qed.

Lemma dropwhile_fixed {A} (f : A -> bool) (x : list A) :
  match x with [] => True | c :: _ => f c = false end -> dropwhile f x = x.
Proof. destruct x as [|a x]; cbn; [reflexivity|]. now intros ->. Qed.

Lemma dropwhile_last {A} (f : A -> bool) (x : list A) (c : A) (y : list A) :
  rev x = c :: y -> f c = false -> dropwhile f x <> [] /\
  exists z, rev (dropwhile f x) = c :: z.
Proof.
  revert y. induction x as [|a x IH]; intros y H Hc; [discriminate|].
  cbn [dropwhile]. destruct (f a) eqn:E.
  - cbn in H. destruct (rev x) as [|b r] eqn:R.
    + cbn in H. injection H as -> _. congruence.
    + cbn in H. injection H as -> _. eapply IH; eauto.
  - split; [discriminate|]. eauto.
Qed.


Lemma strip_stripped (x : str) : stripped (strip x).
Proof.
  unfold stripped, strip, lstrip, rstrip.
  set (y := dropwhile is_space (rev x)).
  pose proof (dropwhile_head is_space (rev x)) as Hy. fold y in Hy.
  split.
  - pose proof (dropwhile_head is_space (rev y)) as H.
    destruct (dropwhile is_space (rev y)); [reflexivity|exact H].
  - destruct y as [|c y'] eqn:Y; [reflexivity|].
    destruct (@dropwhile_last _ is_space (rev (c :: y')) c y') as [_ [z Hz]];
      [now rewrite rev_involutive|exact Hy|].
    rewrite Hz. exact Hy.
Qed.

Lemma stripped_fixed (x : str) : stripped x -> strip x = x.
Proof.
  intros [H1 H2]. unfold strip, lstrip, rstrip.
  rewrite (dropwhile_fixed is_space (rev x)).
  - rewrite rev_involutive. apply dropwhile_fixed.
    destruct x; [exact I|exact H1].
  - destruct (rev x); [exact I|exact H2].
Qed.

Lemma strip_idem (x : str) : strip (strip x) = strip x.
Proof. apply stripped_fixed, strip_stripped. Qed.

Lemma no_space_stripped (x : str) :
  Forall (fun c => is_space c = false) x -> strip x = x.
Proof.
  intros H. apply stripped_fixed. split.
  - destruct x as [|c x]; [reflexivity|]. now inversion H.
  - destruct (rev x) as [|c r] eqn:R; [reflexivity|]. cbn.
    rewrite Forall_forall in H. apply H. apply in_rev. rewrite R. now left.
Qed.

End StripFacts.

Module ReSound.
Import Py PyFacts Re.
Import ReSpec.


Lemma star_loop_sound (body : str -> str -> cont -> option (str * str)) (r : regex) :
  sound body r ->
  forall n k pre suf res, star_loop body k n pre suf = Some res ->
  exists w rest, suf = w ++ rest /\ Matches (Star r) pre w rest /\
                 k (rev w ++ pre) rest = Some res.
Proof.
  intros Hb. induction n as [|n IH]; intros k pre suf res H; cbn [star_loop] in H.
  - exists [], suf. repeat split; [constructor|exact H].
  - destruct (body pre suf _) as [x|] eqn:B.
    + injection H as ->. apply Hb in B as (w1 & rest1 & -> & M1 & K).
      destruct (length rest1 <? length (w1 ++ rest1))%nat; [|discriminate].
      apply IH in K as (w2 & rest & -> & M2 & K).
      exists (w1 ++ w2), rest. rewrite <- app_assoc. split; [reflexivity|].
      split; [now constructor|]. now rewrite rev_app_distr, <- app_assoc.
    + exists [], suf. repeat split; [constructor|exact H].
Qed.

Lemma lazy_loop_sound (body : str -> str -> cont -> option (str * str)) (r : regex) :
  sound body r ->
  forall n k pre suf res, lazy_loop body k n pre suf = Some res ->
  exists w rest, suf = w ++ rest /\ Matches (Lazy r) pre w rest /\
                 k (rev w ++ pre) rest = Some res.
Proof.
  intros Hb. induction n as [|n IH]; intros k pre suf res H; cbn [lazy_loop] in H.
  - exists [], suf. repeat split; [constructor|exact H].
  - destruct (k pre suf) as [x|] eqn:K0.
    + injection H as ->. exists [], suf. repeat split; [constructor|exact K0].
    + apply Hb in H as (w1 & rest1 & -> & M1 & K).
      destruct (length rest1 <? length (w1 ++ rest1))%nat; [|discriminate].
      apply IH in K as (w2 & rest & -> & M2 & K).
      exists (w1 ++ w2), rest. rewrite <- app_assoc. split; [reflexivity|].
      split; [now constructor|]. now rewrite rev_app_distr, <- app_assoc.
Qed.

(** Whenever the matcher succeeds, the continuation succeeded at the end
    of a match of the pattern. *)
Lemma m_sound (r : regex) : sound (m r) r.
Proof.
  induction r; intros pre suf k res H; cbn [m] in H.
  - exists [], suf. repeat split; [constructor|exact H].
  - destruct suf as [|c suf]; [discriminate|]. destruct (p c) eqn:P; [|discriminate].
    exists [c], suf. repeat split; [now constructor|exact H].
  - apply IHr1 in H as (w1 & rest1 & -> & M1 & H).
    apply IHr2 in H as (w2 & rest & -> & M2 & H).
    exists (w1 ++ w2), rest. rewrite <- app_assoc. split; [reflexivity|].
    split; [now constructor|]. now rewrite rev_app_distr, <- app_assoc.
  - destruct (m r1 pre suf k) as [x|] eqn:E.
    + injection H as ->. apply IHr1 in E as (w & rest & -> & M1 & K).
      exists w, rest. repeat split; [now apply MAltL|exact K].
    + apply IHr2 in H as (w & rest & -> & M1 & K).
      exists w, rest. repeat split; [now apply MAltR|exact K].
  - eapply star_loop_sound; eauto.
  - eapply lazy_loop_sound; eauto.
  - destruct pre; [|discriminate]. exists [], suf. repeat split; [constructor|exact H].
  - destruct (at_eol suf) eqn:E; [|discriminate].
    exists [], suf. repeat split; [now constructor|exact H].
  - destruct (word_boundary pre suf) eqn:E; [|discriminate].
    exists [], suf. repeat split; [now constructor|exact H].
  - destruct (head_is p pre) eqn:E; [|discriminate].
    exists [], suf. repeat split; [now constructor|exact H].
  - destruct (m r pre suf _) as [x|] eqn:E; [|discriminate].
    apply IHr in E as (w & rest & -> & M1 & _).
    exists [], (w ++ rest). repeat split; [now constructor|exact H].
Qed.

Lemma match_at_sound (r : regex) (pre suf : str) (res : str * str) :
  match_at r pre suf = Some res ->
  exists w rest, suf = w ++ rest /\ Matches r pre w rest /\ res = (rev w ++ pre, rest).
Proof.
  intros H. apply m_sound in H as (w & rest & -> & M & K).
  exists w, rest. cbn in K. injection K as <-. repeat split. exact M.
Qed.


Lemma matches_nowhere_tail (r : regex) (pre : str) (c : char) (suf : str) :
  matches_nowhere r pre (c :: suf) -> matches_nowhere r (c :: pre) suf.
Proof.
  intros H a b ->. specialize (H (c :: a) b eq_refl).
  cbn [rev] in H. now rewrite <- app_assoc in H.
Qed.

Lemma matches_nowhere_here (r : regex) (pre suf : str) :
  matches_nowhere r pre suf -> match_at r pre suf = None.
Proof. intros H. exact (H [] suf eq_refl). Qed.

Lemma sub_nowhere (r : regex) (repl : str) (suf : str) :
  forall pre, matches_nowhere r pre suf -> sub_aux r repl pre suf O = suf.
Proof.
  induction suf as [|c suf IH]; intros pre H; cbn [sub_aux].
  - now rewrite (matches_nowhere_here H).
  - rewrite (matches_nowhere_here H). f_equal. apply IH.
    now apply matches_nowhere_tail.
Qed.

Lemma split_nowhere (keep : bool) (r : regex) (suf : str) :
  forall pre acc, matches_nowhere r pre suf ->
  Re.split_aux keep r pre suf acc O = [rev acc ++ suf].
Proof.
  induction suf as [|c suf IH]; intros pre acc H; cbn [Re.split_aux].
  - now rewrite app_nil_r.
  - rewrite (matches_nowhere_here H). rewrite IH.
    + cbn [rev]. now rewrite <- app_assoc.
    + now apply matches_nowhere_tail.
Qed.

End ReSound.

Module ContainsFacts.
Import Py PyFacts StrFacts ReFacts.

Lemma index_of_none (x sub : str) :
  index_of x sub = None <-> forall a b, x = a ++ b -> startswith b sub = false.
Proof.
  induction x as [|c x IH]; cbn [index_of].
  - destruct (startswith [] sub) eqn:E.
    + split; [discriminate|]. intros H. specialize (H [] [] eq_refl). congruence.
    + split; [|reflexivity]. intros _ a b H.
      symmetry in H. apply app_eq_nil in H as [-> ->]. exact E.
  - destruct (startswith (c :: x) sub) eqn:E.
    + split; [discriminate|]. intros H. specialize (H [] (c :: x) eq_refl). congruence.
    + destruct (index_of x sub) eqn:I; cbn [option_map].
      * split; [discriminate|]. intros H.
        assert (K : forall a b, x = a ++ b -> startswith b sub = false).
        { intros a b ->. apply (H (c :: a) b). reflexivity. }
        apply IH in K. discriminate.
      * split; [|reflexivity]. intros _ a b H.
        destruct a as [|a0 a]; cbn in H.
        -- subst b. exact E.
        -- injection H as -> ->. destruct IH as [IH _]. now apply (IH eq_refl a b).
Qed.

Lemma contains_false (x sub : str) :
  contains x sub = false <-> forall a b, x = a ++ b -> startswith b sub = false.
Proof.
  unfold contains. rewrite <- index_of_none.
  destruct (index_of x sub); split; congruence.
Qed.

Lemma contains_true (x sub : str) :
  contains x sub = true <-> exists a b, x = a ++ sub ++ b.
Proof.
  split.
  - intros H. destruct (contains x sub) eqn:E; [|discriminate]. clear H.
    unfold contains in E. destruct (index_of x sub) as [k|] eqn:I; [|discriminate].
    apply FindFacts.index_of_found in I as [S _].
    apply startswith_app in S.
    exists (firstn k x), (skipn (length sub) (skipn k x)).
    rewrite <- S. now rewrite firstn_skipn.
  - intros (a & b & ->). destruct (contains (a ++ sub ++ b) sub) eqn:E; [reflexivity|].
    rewrite contains_false in E. specialize (E a (sub ++ b) eq_refl).
    now rewrite startswith_prefix in E.
Qed.

Lemma contains_infix (x y sub : str) :
  Spec.occurs_in y x -> contains x sub = false -> contains y sub = false.
Proof.
  intros (p & q & ->) H. destruct (contains y sub) eqn:E; [|reflexivity].
  apply contains_true in E as (a & b & ->).
  assert (K : contains (p ++ (a ++ sub ++ b) ++ q) sub = true).
  { apply contains_true. exists (p ++ a), (b ++ q). now rewrite <- !app_assoc. }
  congruence.
Qed.

Lemma split_absent (sep : str) (x : str) :
  forall acc, contains x sep = false -> Py.split_aux sep x acc O = [rev acc ++ x].
Proof.
  induction x as [|c x IH]; intros acc H; cbn [Py.split_aux].
  - now rewrite app_nil_r.
  - rewrite contains_false in H.
    rewrite (H [] (c :: x) eq_refl). rewrite IH.
    + cbn [rev]. now rewrite <- app_assoc.
    + apply contains_false. intros a b ->. apply (H (c :: a) b). reflexivity.
Qed.

End ContainsFacts.

Module ChunkShape.
Import Py PyFacts StrFacts ReFacts StripFacts ContainsFacts Re ReSound Chunking.
Import ReSpec.

Lemma chunk_text_stripped (chunk_size overlap : Z) (text : str) (chunks : list str) :
  chunk_text chunk_size overlap text = Some chunks ->
  Forall (fun c => c <> [] /\ strip c = c) chunks.
Proof.
  unfold chunk_text.
  destruct (negb (truthy text) || (len (strip text) =? 0))%bool.
  - intros H. injection H as <-. constructor.
  - destruct (hard_cap chunk_size overlap (build_chunks chunk_size overlap text))
      as [final_chunks|]; [|discriminate].
    intros H. injection H as <-. apply Forall_forall. intros c Hc.
    apply in_map_iff in Hc as (c0 & <- & Hc). apply filter_In in Hc as [_ Hc].
    split; [|apply strip_idem]. destruct (strip c0); [discriminate|discriminate].
Qed.

(** [\n{3,}] matches only where three newlines stand. *)
Lemma newlines3_match (pre suf : str) (res : str * str) :
  match_at re_newlines3 pre suf = Some res ->
  exists b, suf = nl :: nl :: nl :: b.
Proof.
  intros H. apply match_at_sound in H as (w & rest & -> & M & _).
  unfold re_newlines3, at_least in M. cbn [rep] in M.
  inversion M as [| |r1 r2 pre' w1 w2 rest' M1 M2| | | | | | | | | | |]; subst.
  inversion M1 as [| |r1 r2 pre' wa wb rest' Ma Mb| | | | | | | | | | |]; subst.
  inversion Ma; subst.
  inversion Mb as [| |r1 r2 pre' wc wd rest' Mc Md| | | | | | | | | | |]; subst.
  inversion Mc; subst.
  inversion Md as [| |r1 r2 pre' we wf rest' Me Mf| | | | | | | | | | |]; subst.
  inversion Me; subst.
  repeat match goal with
         | H : chr_is _ _ = true |- _ => apply N.eqb_eq in H; subst
         end.
  cbn. eauto.
Qed.

Lemma newlines3_nowhere (x : str) :
  contains x [nl; nl] = false -> matches_nowhere re_newlines3 [] x.
Proof.
  intros H a b ->. destruct (match_at re_newlines3 (rev a ++ []) b) as [res|] eqn:E;
    [|reflexivity].
  apply newlines3_match in E as (b' & ->).
  rewrite contains_false in H. specialize (H a _ eq_refl).
  cbn in H. discriminate.
Qed.

Section WithParameters.
Variables chunk_size overlap : Z.

Lemma build_chunks_short (text : str) :
  contains text [nl; nl] = false -> strip text <> [] ->
  len (strip text) <= chunk_size ->
  build_chunks chunk_size overlap text = [strip text].
Proof.
  intros Hc Hn Hl. unfold build_chunks, Re.sub.
  rewrite (sub_nowhere [nl; nl] (newlines3_nowhere Hc)).
  unfold Py.split. rewrite split_absent.
  2:{ eapply contains_infix; [apply QuoteFacts.strip_is_infix|exact Hc]. }
  cbn [rev app fold_left]. unfold para_step. rewrite strip_idem.
  destruct (strip text) as [|c t] eqn:S; [congruence|].
  cbn [truthy negb current_length current_chunk chunks].
  assert (Hc' : contains (c :: t) [nl; nl] = false).
  { rewrite <- S. eapply contains_infix; [apply QuoteFacts.strip_is_infix|exact Hc]. }
  destruct (0 + len (c :: t) + 2 <=? chunk_size).
  - unfold final_chunk. cbn [current_chunk chunks app]. rewrite Hc'. reflexivity.
  - cbn [truthy]. destruct (chunk_size <? len (c :: t)) eqn:E; [lia|].
    cbn [last_opt rev]. unfold final_chunk. cbn [current_chunk chunks app].
    rewrite Hc'. reflexivity.
Qed.

Lemma chunk_text_short (text : str) :
  contains text [nl; nl] = false -> strip text <> [] ->
  len (strip text) <= chunk_size ->
  chunk_text chunk_size overlap text = Some [strip text].
Proof.
  intros Hc Hn Hl. unfold chunk_text.
  assert (T : (negb (truthy text) || (len (strip text) =? 0))%bool = false).
  { destruct text as [|c t]; [now destruct Hn|]. cbn [truthy negb orb].
    destruct (strip (c :: t)); [congruence|]. reflexivity. }
  rewrite T, build_chunks_short by assumption. cbn [hard_cap].
  destruct (len (strip text) <=? chunk_size) eqn:E; [|lia].
  cbn [option_map filter]. rewrite strip_idem.
  destruct (strip text) eqn:S; [congruence|]. cbn [truthy map].
  now rewrite <- S, strip_idem.
Qed.

End WithParameters.
End ChunkShape.

Module WordFacts.
Import Py PyFacts StrFacts ReFacts StripFacts ContainsFacts Re ReSound Chunking ChunkShape.
Import ReSpec ChunkSpec.


Lemma split_ws_word (x : str) :
  forall acc, no_space x -> split_ws_aux x acc =
                            if truthy (rev acc ++ x) then [rev acc ++ x] else [].
Proof.
  induction x as [|c x IH]; intros acc H; cbn [split_ws_aux].
  - rewrite app_nil_r. destruct acc as [|a acc]; [reflexivity|].
    cbn [truthy]. destruct (rev (a :: acc)) eqn:R; [|reflexivity].
    apply (f_equal (@length _)) in R. rewrite length_rev in R. discriminate.
  - inversion H as [|? ? Hc Hx]; subst. rewrite Hc. rewrite IH by assumption.
    cbn [rev]. now rewrite <- app_assoc.
Qed.

Lemma no_space_app (a b : str) : no_space (a ++ b) -> no_space a /\ no_space b.
Proof. apply Forall_app. Qed.

(** [(?<=[.!?])\s+] needs a white space character. *)
Lemma sentence_end_nowhere (x : str) (pre : str) :
  no_space x -> matches_nowhere re_sentence_end pre x.
Proof.
  intros H a b ->. apply no_space_app in H as [_ H].
  destruct (match_at re_sentence_end (rev a ++ pre) b) as [res|] eqn:E; [|reflexivity].
  apply match_at_sound in E as (w & rest & -> & M & _).
  unfold re_sentence_end, plus in M.
  inversion M as [| |r1 r2 pre' w1 w2 rest' M1 M2| | | | | | | | | | |]; subst.
  inversion M1; subst.
  inversion M2 as [| |r1 r2 pre' wa wb rest' Ma Mb| | | | | | | | | | |]; subst.
  inversion Ma as [|p c pre' rest' Hc | | | | | | | | | | | |]; subst.
  cbn in H. inversion H as [|? ? Hs _]; subst.
  unfold cls_space in Hc. congruence.
Qed.

Lemma no_space_no_blank_line (x : str) : no_space x -> contains x [nl; nl] = false.
Proof.
  intros H. apply contains_false. intros a b ->. apply no_space_app in H as [_ H].
  destruct b as [|c b]; [reflexivity|]. inversion H as [|? ? Hc _]; subst.
  cbn [startswith]. destruct (N.eqb_spec nl c) as [<-|]; [discriminate|reflexivity].
Qed.

Section WithParameters.
Variables chunk_size overlap : Z.

(** A text of one word longer than [chunk_size] reaches the hard cap as
    one chunk. *)
Lemma build_chunks_word (word : str) :
  no_space word -> 0 <= chunk_size < len word ->
  build_chunks chunk_size overlap word = [word].
Proof.
  intros Hw Hl. unfold build_chunks, Re.sub.
  rewrite (sub_nowhere [nl; nl] (newlines3_nowhere (no_space_no_blank_line Hw))).
  rewrite (no_space_stripped Hw).
  unfold Py.split. rewrite split_absent by now apply no_space_no_blank_line.
  cbn [rev app fold_left]. unfold para_step. rewrite (no_space_stripped Hw).
  destruct word as [|c t] eqn:W.
  { cbn in Hl. lia. }
  rewrite <- W in *.
  assert (T : truthy word = true) by now rewrite W.
  rewrite T. cbn [negb current_length current_chunk chunks truthy].
  destruct (0 + len word + 2 <=? chunk_size) eqn:E1; [lia|].
  destruct (chunk_size <? len word) eqn:E2; [|lia].
  unfold Re.split. rewrite split_nowhere by now apply sentence_end_nowhere.
  cbn [rev app fold_left]. unfold sentence_step.
  cbn [current_length current_chunk chunks truthy].
  destruct (0 + len word + 1 <=? chunk_size) eqn:E3; [lia|].
  unfold split_ws. rewrite split_ws_word by assumption. cbn [rev app].
  rewrite T. cbn [fold_left]. unfold word_step.
  cbn [current_length current_chunk chunks truthy].
  destruct (0 + (len word + 1) <=? chunk_size) eqn:E4; [lia|].
  unfold final_chunk. cbn [current_chunk chunks app].
  rewrite (no_space_no_blank_line Hw). rewrite W. reflexivity.
Qed.

End WithParameters.
End WordFacts.

Module WindowFacts.
Import Py PyFacts StrFacts ReFacts StripFacts ContainsFacts Chunking ChunkShape WordFacts ChunkingFacts.
Import ChunkSpec.

Section WithParameters.
Variables chunk_size overlap : Z.
Hypothesis Hp : 0 <= overlap < chunk_size.

Lemma slice_to_big (chunk : str) :
  chunk_size < len chunk -> slice_to chunk chunk_size = firstn (Z.to_nat chunk_size) chunk.
Proof.
  intros H. unfold slice_to, clamp. destruct (chunk_size <? 0) eqn:E; [lia|].
  f_equal. lia.
Qed.

Lemma slice_from_step (chunk : str) :
  chunk_size < len chunk ->
  slice_from chunk (chunk_size - overlap) = skipn (Z.to_nat (chunk_size - overlap)) chunk.
Proof.
  intros H. unfold slice_from, clamp. destruct (chunk_size - overlap <? 0) eqn:E; [lia|].
  f_equal. lia.
Qed.

Lemma split_oversized_head (fuel : nat) (chunk : str) (pieces : list str) :
  split_oversized chunk_size overlap fuel chunk = Some pieces ->
  match pieces with
  | [] => chunk = []
  | q :: _ => q = firstn (Z.to_nat chunk_size) chunk /\ chunk <> []
  end.
Proof.
  destruct fuel as [|fuel]; cbn [split_oversized].
  - destruct (chunk_size <? len chunk) eqn:E; [discriminate|].
    intros H. injection H as <-. destruct chunk as [|c t]; [reflexivity|].
    cbn [truthy]. split; [|discriminate]. rewrite firstn_all2; [reflexivity|].
    unfold len in E. lia.
  - destruct (chunk_size <? len chunk) eqn:E.
    + destruct (split_oversized _ _ fuel _) as [pieces'|]; [|discriminate].
      cbn [option_map]. intros H. injection H as <-. split.
      * apply slice_to_big. lia.
      * intros ->. cbn in E. lia.
    + intros H. injection H as <-. destruct chunk as [|c t]; [reflexivity|].
      cbn [truthy]. split; [|discriminate]. rewrite firstn_all2; [reflexivity|].
      unfold len in E. lia.
Qed.

Lemma split_oversized_tails (fuel : nat) :
  forall (chunk : str) (pieces : list str),
  split_oversized chunk_size overlap fuel chunk = Some pieces ->
  concat (map (skipn (Z.to_nat overlap)) pieces) = skipn (Z.to_nat overlap) chunk.
Proof.
  induction fuel as [|fuel IH]; intros chunk pieces; cbn [split_oversized].
  - destruct (chunk_size <? len chunk) eqn:E; [discriminate|].
    intros H. injection H as <-. destruct chunk as [|c t]; cbn [truthy map concat].
    + now rewrite skipn_nil.
    + now rewrite app_nil_r.
  - destruct (chunk_size <? len chunk) eqn:E.
    + destruct (split_oversized _ _ fuel _) as [pieces'|] eqn:S; [|discriminate].
      cbn [option_map]. intros H. injection H as <-. cbn [map concat].
      rewrite (IH _ _ S). rewrite slice_to_big, slice_from_step by lia.
      rewrite skipn_skipn.
      replace (Z.to_nat overlap + Z.to_nat (chunk_size - overlap))%nat
        with (Z.to_nat chunk_size) by lia.
      rewrite skipn_firstn_comm.
      replace (skipn (Z.to_nat chunk_size) chunk)
        with (skipn (Z.to_nat chunk_size - Z.to_nat overlap)
                (skipn (Z.to_nat overlap) chunk)).
      * apply firstn_skipn.
      * rewrite skipn_skipn. f_equal. lia.
    + intros H. injection H as <-. destruct chunk as [|c t]; cbn [truthy map concat].
      * now rewrite skipn_nil.
      * now rewrite app_nil_r.
Qed.

Lemma split_oversized_rejoin (fuel : nat) (chunk : str) (pieces : list str) :
  split_oversized chunk_size overlap fuel chunk = Some pieces ->
  rejoin (Z.to_nat overlap) pieces = chunk.
Proof.
  destruct fuel as [|fuel]; cbn [split_oversized].
  - destruct (chunk_size <? len chunk) eqn:E; [discriminate|].
    intros H. injection H as <-. destruct chunk; cbn; [reflexivity|now rewrite app_nil_r].
  - destruct (chunk_size <? len chunk) eqn:E.
    + destruct (split_oversized _ _ fuel _) as [pieces'|] eqn:S; [|discriminate].
      cbn [option_map]. intros H. injection H as <-. unfold rejoin.
      rewrite (split_oversized_tails _ _ S).
      rewrite slice_to_big, slice_from_step by lia. rewrite skipn_skipn.
      replace (Z.to_nat overlap + Z.to_nat (chunk_size - overlap))%nat
        with (Z.to_nat chunk_size) by lia.
      apply firstn_skipn.
    + intros H. injection H as <-. destruct chunk; cbn; [reflexivity|now rewrite app_nil_r].
Qed.

Lemma split_oversized_overlapping (fuel : nat) :
  forall (chunk : str) (pieces : list str),
  split_oversized chunk_size overlap fuel chunk = Some pieces ->
  overlapping (Z.to_nat overlap) pieces.
Proof.
  induction fuel as [|fuel IH]; intros chunk pieces; cbn [split_oversized].
  - destruct (chunk_size <? len chunk) eqn:E; [discriminate|].
    intros H. injection H as <-. destruct chunk; cbn; auto.
  - destruct (chunk_size <? len chunk) eqn:E.
    + destruct (split_oversized _ _ fuel _) as [pieces'|] eqn:S; [|discriminate].
      cbn [option_map]. intros H. injection H as <-. cbn [overlapping].
      split; [|eapply IH; eauto].
      pose proof (split_oversized_head _ _ S) as Hh.
      destruct pieces' as [|q rest]; [exact I|]. destruct Hh as [-> _].
      rewrite slice_to_big, slice_from_step by lia.
      rewrite length_firstn.
      replace (Nat.min (Z.to_nat chunk_size) (length chunk)) with (Z.to_nat chunk_size)
        by (unfold len in E; lia).
      replace (Z.to_nat chunk_size - Z.to_nat overlap)%nat
        with (Z.to_nat (chunk_size - overlap)) by lia.
      rewrite skipn_firstn_comm.
      replace (Z.to_nat chunk_size - Z.to_nat (chunk_size - overlap))%nat
        with (Z.to_nat overlap) by lia.
      rewrite firstn_firstn. f_equal. lia.
    + intros H. injection H as <-. destruct chunk; cbn; auto.
Qed.

Lemma split_oversized_pieces_of_word (fuel : nat) :
  forall (chunk : str) (pieces : list str),
  no_space chunk ->
  split_oversized chunk_size overlap fuel chunk = Some pieces ->
  Forall (fun p => p <> [] /\ no_space p) pieces.
Proof.
  induction fuel as [|fuel IH]; intros chunk pieces Hw; cbn [split_oversized].
  - destruct (chunk_size <? len chunk) eqn:E; [discriminate|].
    intros H. injection H as <-. destruct chunk; cbn [truthy]; constructor; auto.
    split; [discriminate|exact Hw].
  - destruct (chunk_size <? len chunk) eqn:E.
    + destruct (split_oversized _ _ fuel _) as [pieces'|] eqn:S; [|discriminate].
      cbn [option_map]. intros H. injection H as <-. constructor.
      * rewrite slice_to_big by lia. split.
        -- destruct chunk as [|c t]; [cbn in E; lia|].
           destruct (Z.to_nat chunk_size) eqn:N; [lia|]. discriminate.
        -- apply Forall_forall. intros c Hc. apply firstn_in in Hc.
           unfold no_space in Hw. rewrite Forall_forall in Hw. now apply Hw.
      * apply (IH _ _ (proj2 (no_space_app _ _ (eq_ind_r no_space Hw
                  (firstn_skipn (clamp (chunk_size - overlap) (len chunk)) chunk)))) S).
    + intros H. injection H as <-. destruct chunk; cbn [truthy]; constructor; auto.
      split; [discriminate|exact Hw].
Qed.

Lemma strip_pass_word_pieces (pieces : list str) :
  Forall (fun p => p <> [] /\ no_space p) pieces ->
  map strip (filter (fun c => truthy (strip c)) pieces) = pieces.
Proof.
  induction 1 as [|p ps [Hn Hw] _ IH]; [reflexivity|].
  cbn [filter]. rewrite (no_space_stripped Hw).
  destruct p; [congruence|]. cbn [truthy map]. rewrite IH.
  now rewrite (no_space_stripped Hw).
Qed.

Lemma chunk_text_word (word : str) :
  no_space word -> chunk_size < len word ->
  exists pieces,
    chunk_text chunk_size overlap word = Some pieces /\
    rejoin (Z.to_nat overlap) pieces = word /\
    overlapping (Z.to_nat overlap) pieces.
Proof.
  intros Hw Hl.
  destruct (@split_oversized_total chunk_size overlap (S (length word)) word Hp)
    as [pieces S]; [lia|].
  exists pieces. unfold chunk_text.
  assert (T : (negb (truthy word) || (len (strip word) =? 0))%bool = false).
  { rewrite (no_space_stripped Hw). destruct word; [cbn in Hl; lia|]. reflexivity. }
  rewrite T, build_chunks_word by (auto; lia). cbn [hard_cap].
  destruct (len word <=? chunk_size) eqn:E; [lia|]. rewrite S. cbn [option_map].
  rewrite app_nil_r.
  rewrite strip_pass_word_pieces by (eapply split_oversized_pieces_of_word; eauto).
  split; [reflexivity|]. split.
  - eapply split_oversized_rejoin; eauto.
  - eapply split_oversized_overlapping; eauto.
Qed.

End WithParameters.

(** With [overlap = chunk_size] the loop body leaves the chunk as it is. *)
Lemma split_oversized_stuck (chunk_size : Z) (fuel : nat) (chunk : str) :
  0 <= chunk_size < len chunk ->
  split_oversized chunk_size chunk_size fuel chunk = None.
Proof.
  intros H. induction fuel as [|fuel IH]; cbn [split_oversized].
  - destruct (chunk_size <? len chunk) eqn:E; [reflexivity|lia].
  - destruct (chunk_size <? len chunk) eqn:E; [|lia].
    replace (slice_from chunk (chunk_size - chunk_size)) with chunk.
    + now rewrite IH.
    + rewrite Z.sub_diag. unfold slice_from, clamp. change (0 <? 0) with false.
      cbv iota. replace (Z.to_nat (Z.min 0 (len chunk))) with 0%nat by (unfold len; lia).
      reflexivity.
Qed.

Lemma after_iterations_stuck (chunk_size : Z) (n : nat) (chunk : str) :
  Spec.after_iterations chunk_size chunk_size n chunk = chunk.
Proof.
  induction n as [|n IH]; cbn [Spec.after_iterations]; [reflexivity|].
  replace (slice_from chunk (chunk_size - chunk_size)) with chunk; [exact IH|].
  rewrite Z.sub_diag. unfold slice_from, clamp. change (0 <? 0) with false.
  cbv iota. replace (Z.to_nat (Z.min 0 (len chunk))) with 0%nat by (unfold len; lia).
  reflexivity.
Qed.

Lemma chunk_text_word_stuck (chunk_size : Z) (word : str) :
  no_space word -> 0 <= chunk_size < len word ->
  chunk_text chunk_size chunk_size word = None.
Proof.
  intros Hw Hl. unfold chunk_text.
  assert (T : (negb (truthy word) || (len (strip word) =? 0))%bool = false).
  { rewrite (no_space_stripped Hw). destruct word; [cbn in Hl; lia|]. reflexivity. }
  rewrite T, build_chunks_word by (auto; lia). cbn [hard_cap].
  destruct (len word <=? chunk_size) eqn:E; [lia|].
  now rewrite split_oversized_stuck.
Qed.

End WindowFacts.

Module LocateFacts.
Import Py PyFacts StrFacts FindFacts HeadingDetection StripFacts.
Import HeadingSpec.


Lemma locate_chunks (text : str) (hm : dict (option str)) (chunks : list str) :
  forall search_start, map chunk_of (locate text hm chunks search_start) = chunks.
Proof.
  induction chunks as [|c chunks IH]; intros st; cbn [locate map chunk_of]; [reflexivity|].
  now rewrite IH.
Qed.

Lemma locate_starts (text : str) (hm : dict (option str)) (chunks : list str) :
  forall search_start, 0 <= search_start ->
  StronglySorted Z.lt (map start_of (locate text hm chunks search_start)) /\
  Forall (fun z => search_start <= z) (map start_of (locate text hm chunks search_start)).
Proof.
  induction chunks as [|c chunks IH]; intros st Hst; cbn [locate map start_of].
  - split; constructor.
  - set (start := if find text c st =? -1 then st else find text c st).
    assert (Hs : st <= start).
    { unfold start. destruct (find text c st =? -1) eqn:E; [lia|].
      apply Z.eqb_neq in E. now apply find_found in E as [E _]. }
    destruct (IH (start + 1)) as [S F]; [lia|]. split.
    + constructor; [exact S|]. eapply Forall_impl; [|exact F]. cbn beta. lia.
    + constructor; [exact Hs|]. eapply Forall_impl; [|exact F]. cbn beta. lia.
Qed.

Lemma chunk_text_with_headings_chunks (text : str) (chunk_size overlap : Z)
  (result : list located) :
  chunk_text_with_headings text chunk_size overlap = Some result ->
  Chunking.chunk_text chunk_size overlap text = Some (map chunk_of result) /\
  StronglySorted Z.lt (map start_of result).
Proof.
  unfold chunk_text_with_headings, Chunking.chunk_text.
  destruct (negb (truthy text) || (len (strip text) =? 0))%bool eqn:B.
  - intros H. injection H as <-. split; [reflexivity|constructor].
  - fold (Chunking.build_chunks chunk_size overlap text).
    destruct (Chunking.hard_cap chunk_size overlap (Chunking.build_chunks chunk_size overlap text))
      as [final|]; [|discriminate].
    intros H. injection H as <-. rewrite locate_chunks. split; [reflexivity|].
    now apply locate_starts.
Qed.

End LocateFacts.

Module ClassFacts.
Import Py Re ReSound.
Import ReSpec.

Lemma digit_cases (c : char) :
  is_ascii_digit c = true ->
  (c = 48 \/ c = 49 \/ c = 50 \/ c = 51 \/ c = 52 \/ c = 53 \/ c = 54 \/ c = 55
   \/ c = 56 \/ c = 57)%N.
Proof.
  unfold is_ascii_digit, in_range. intros H. apply andb_prop in H as [H1 H2].
  apply N.leb_le in H1, H2. lia.
Qed.

Lemma digit_not_space (c : char) : is_ascii_digit c = true -> is_space c = false.
Proof. intros H. apply digit_cases in H. repeat destruct H as [->|H]; try subst c; reflexivity. Qed.

Lemma digit_not_upper (c : char) : is_ascii_digit c = true -> is_ascii_upper c = false.
Proof. intros H. apply digit_cases in H. repeat destruct H as [->|H]; try subst c; reflexivity. Qed.

Lemma digit_not_dot (c : char) : is_ascii_digit c = true -> c <> HeadingDetection.dot.
Proof. intros H. apply digit_cases in H. repeat destruct H as [->|H]; try subst c; discriminate. Qed.

Lemma matches_star_cls (p : char -> bool) (r : regex) (pre w rest : str) :
  Matches r pre w rest -> r = Star (Cls p) -> Forall (fun c => p c = true) w.
Proof.
  induction 1; intros E; try discriminate.
  - constructor.
  - injection E as ->. apply Forall_app. split; [|now apply IHMatches2].
    inversion H; subst. now repeat constructor.
Qed.

Lemma matches_plus_cls (p : char -> bool) (pre w rest : str) :
  Matches (plus (Cls p)) pre w rest ->
  exists c w', w = c :: w' /\ p c = true /\ Forall (fun c => p c = true) w'.
Proof.
  unfold plus. intros M.
  inversion M as [| |r1 r2 pre' w1 w2 rest' M1 M2| | | | | | | | | | |]; subst.
  inversion M1; subst. exists c, w2. repeat split; [assumption|].
  eapply matches_star_cls; eauto.
Qed.

(** A repetition of groups that each start with a character of [p] and
    then need a character of [q]: it matches nothing, or a text that
    starts with these two. *)
Lemma matches_star_seq_head (p q : char -> bool) (r : regex) (pre w rest : str) :
  Matches r pre w rest -> r = Star (Seq (Cls p) (plus (Cls q))) ->
  w = [] \/ exists a b w', w = a :: b :: w' /\ p a = true /\ q b = true.
Proof.
  induction 1; intros E; try discriminate.
  - now left.
  - injection E as ->. right.
    inversion H as [| |r1 r2 pre' wa wb rest' Ma Mb| | | | | | | | | | |]; subst.
    inversion Ma as [|p' a pre0 rest0 Ha| | | | | | | | | | | |]; subst.
    apply matches_plus_cls in Mb as (b & wb' & -> & Hb & _).
    exists a, b, (wb' ++ w2). repeat split; assumption.
Qed.

End ClassFacts.

Module NumberingFacts.
Import Py PyFacts StrFacts Re ReSound ClassFacts HeadingDetection StripFacts.
Import HeadingSpec.


Lemma digits_prefix (d : str) :
  forall (w rest t : str), digits d -> digits w ->
  d ++ dot :: rest = w ++ t ->
  exists d', d = w ++ d' /\ t = d' ++ dot :: rest.
Proof.
  induction d as [|c d IH]; intros w rest t Hd Hw E.
  - destruct w as [|a w]; [exists []; auto|].
    cbn in E. injection E as <- _. inversion Hw; subst. discriminate.
  - destruct w as [|a w]; [exists (c :: d); auto|].
    cbn in E. injection E as <- E. inversion Hd; inversion Hw; subst.
    destruct (IH _ _ _ H2 H6 E) as (d' & -> & ->). exists d'. auto.
Qed.

(** Rule A needs white space right after the numbering: a number followed
    by a dot and no digit does not match. *)
Lemma numbering_needs_space (d rest : str) :
  d <> [] -> digits d -> head_is is_ascii_digit rest = false ->
  re_match re_numbering (d ++ dot :: rest) = false.
Proof.
  intros Hn Hd Hr. unfold re_match.
  destruct (match_at re_numbering [] (d ++ dot :: rest)) as [res|] eqn:E; [|reflexivity].
  exfalso. apply match_at_sound in E as (w & rest' & E & M & _).
  unfold re_numbering in M.
  inversion M as [| |r1 r2 pre' w0 w' rest0 M0 M'| | | | | | | | | | |]; subst.
  inversion M0; subst. cbn [app rev] in *.
  inversion M' as [| |r1 r2 pre' w1 w23 rest0 M1 M23| | | | | | | | | | |]; subst.
  apply matches_plus_cls in M1 as (c1 & w1' & -> & Hc1 & Hw1).
  inversion M23 as [| |r1 r2 pre' w2 w3 rest0 M2 M3| | | | | | | | | | |]; subst.
  apply matches_plus_cls in M3 as (c3 & w3' & -> & Hc3 & _).
  eapply matches_star_seq_head in M2; [|reflexivity].
  rewrite <- !app_assoc in E.
  apply (@digits_prefix d (c1 :: w1') rest _ Hd) in E as (d' & -> & E);
    [|constructor; assumption].
  destruct d' as [|c d'].
  - destruct M2 as [->|(a & b & w2' & -> & Ha & Hb)]; cbn [app] in E.
    + injection E as E1 E2. subst c3. discriminate.
    + injection E as E1 E2. subst rest. cbn in Hr. unfold cls_digit in Hb. congruence.
  - assert (Hc : is_ascii_digit c = true).
    { apply Forall_app in Hd as [_ Hd]. now inversion Hd. }
    destruct M2 as [->|(a & b & w2' & -> & Ha & Hb)]; cbn [app] in E.
    + injection E as E1 E2. subst c3. unfold cls_space in Hc3.
      rewrite (digit_not_space _ Hc) in Hc3. discriminate.
    + injection E as E1 E2. subst a. apply N.eqb_eq in Ha. subst c.
      now apply digit_not_dot in Hc.
Qed.

(** Rule C needs a line of capital letters and white space only. *)
Lemma all_caps_first (c : char) (x : str) :
  re_match re_all_caps (c :: x) = true -> (is_ascii_upper c || is_space c)%bool = true.
Proof.
  unfold re_match. destruct (match_at re_all_caps [] (c :: x)) as [res|] eqn:E; [|discriminate].
  intros _. apply match_at_sound in E as (w & rest' & E & M & _).
  unfold re_all_caps in M.
  inversion M as [| |r1 r2 pre' w0 w' rest0 M0 M'| | | | | | | | | | |]; subst.
  inversion M0; subst. cbn [app rev] in *.
  inversion M' as [| |r1 r2 pre' w1 w2 rest0 M1 M2| | | | | | | | | | |]; subst.
  apply matches_plus_cls in M1 as (c1 & w1' & -> & Hc1 & _).
  cbn in E. injection E as -> _. exact Hc1.
Qed.

Lemma numbered_dot_heading (line d rest : str) :
  d <> [] -> digits d -> head_is is_ascii_digit rest = false ->
  strip line = d ++ dot :: rest ->
  is_heading line
  = (endswith (strip line) [colon] && (len (strip line) <? 120))%bool.
Proof.
  intros Hn Hd Hr S. unfold is_heading. rewrite S.
  rewrite (numbering_needs_space rest Hn Hd Hr).
  destruct d as [|c d]; [congruence|]. cbn [app truthy negb].
  destruct (endswith _ _ && _)%bool; [reflexivity|].
  destruct (re_match re_all_caps (c :: d ++ dot :: rest)) eqn:E.
  - apply all_caps_first in E. inversion Hd; subst.
    rewrite (digit_not_space _ H1), (digit_not_upper _ H1) in E. discriminate.
  - now rewrite andb_false_r.
Qed.

End NumberingFacts.

Module SplitFacts.
Import Py PyFacts StrFacts Spec QuoteFacts.

Lemma occurs_in_app_r (l a b : str) : occurs_in l b -> occurs_in l (a ++ b).
Proof. intros (p & q & ->). exists (a ++ p), q. now rewrite <- app_assoc. Qed.

Lemma occurs_in_app_l (l a b : str) : occurs_in l a -> occurs_in l (a ++ b).
Proof. intros (p & q & ->). exists p, (q ++ b). now rewrite <- !app_assoc. Qed.

Lemma split_aux_infix (sep l : str) (x : str) :
  forall acc skip, (skip = O \/ acc = []) ->
  In l (Py.split_aux sep x acc skip) -> occurs_in l (rev acc ++ x).
Proof.
  induction x as [|c x IH]; intros acc skip Hs H; cbn [Py.split_aux] in H.
  - destruct H as [<-|[]]. rewrite app_nil_r. apply occurs_in_refl.
  - destruct skip as [|k].
    + destruct (startswith (c :: x) sep).
      * destruct H as [<-|H]; [apply occurs_in_app_l, occurs_in_refl|].
        apply IH in H; [|now right]. cbn [rev app] in H.
        apply occurs_in_app_r. now apply (occurs_in_app_r [c]).
      * apply IH in H; [|now left]. cbn [rev] in H. now rewrite <- app_assoc in H.
    + destruct Hs as [Hs| ->]; [discriminate|].
      apply IH in H; [|now right]. cbn [rev app] in *. now apply (occurs_in_app_r [c]).
Qed.

Lemma split_infix (x sep l : str) : In l (Py.split x sep) -> occurs_in l x.
Proof. intros H. apply split_aux_infix in H; [exact H|now left]. Qed.

End SplitFacts.

Module SubFacts.
Import Py PyFacts StrFacts Re ReSound Spec QuoteFacts.
Import ReSpec.

Lemma bol_nowhere (r : regex) (pre suf : str) :
  pre <> [] -> matches_nowhere (Seq Bol r) pre suf.
Proof.
  intros Hp a b _. unfold match_at. cbn [m].
  destruct (rev a ++ pre) eqn:E; [|reflexivity].
  apply app_eq_nil in E as [_ E]. congruence.
Qed.

Lemma sub_aux_skip (r : regex) (repl : str) (suf : str) :
  forall pre skip, (forall a b, suf = a ++ b -> a <> [] -> match_at r (rev a ++ pre) b = None) ->
  (0 < skip)%nat -> sub_aux r repl pre suf skip = skipn skip suf.
Proof.
  induction suf as [|c suf IH]; intros pre skip H Hs.
  - destruct skip; [lia|]. reflexivity.
  - destruct skip as [|k]; [lia|]. cbn [sub_aux skipn].
    destruct k as [|k].
    + cbn [skipn]. apply sub_nowhere. intros a b ->.
      specialize (H (c :: a) b eq_refl). cbn [rev] in H. rewrite <- app_assoc in H.
      apply H. discriminate.
    + apply IH; [|lia]. intros a b -> Ha.
      specialize (H (c :: a) b eq_refl). cbn [rev] in H. rewrite <- app_assoc in H.
      apply H. discriminate.
Qed.

(** Removing the matches of a pattern anchored at the start leaves a
    suffix of the string. *)
Lemma sub_bol_suffix (r : regex) (x : str) :
  exists p, x = p ++ sub (Seq Bol r) [] x.
Proof.
  unfold sub. destruct x as [|c x]; cbn [sub_aux].
  - exists []. destruct (match_at _ _ _) as [[? ?]|]; reflexivity.
  - assert (N : matches_nowhere (Seq Bol r) [c] x) by (apply bol_nowhere; discriminate).
    destruct (match_at (Seq Bol r) [] (c :: x)) as [[p rest]|].
    + cbn [app]. destruct (consumed (c :: x) rest) as [|k].
      * exists []. cbn [app]. f_equal. symmetry. now apply sub_nowhere.
      * destruct k as [|k].
        -- exists [c]. cbn [app]. f_equal. symmetry. now apply sub_nowhere.
        -- rewrite sub_aux_skip; [|intros a b -> _; apply (N a b eq_refl)|lia].
           exists (c :: firstn (S k) x). cbn [app]. f_equal.
           symmetry. apply firstn_skipn.
    + exists []. cbn [app]. f_equal. symmetry. now apply sub_nowhere.
Qed.

End SubFacts.

Module HeadingMapFacts.
Import Py PyFacts StrFacts Re Spec QuoteFacts StripFacts SplitFacts SubFacts HeadingDetection LocateFacts.
Import HeadingSpec.



Lemma dict_set_in {V} (d : dict V) (k : Z) (v : V) (k' : Z) (v' : V) :
  In (k', v') (dict_set d k v) -> (k', v') = (k, v) \/ In (k', v') d.
Proof.
  induction d as [|[k0 v0] d IH]; cbn [dict_set]; intros H.
  - destruct H as [H|[]]. now left.
  - destruct (k0 =? k).
    + destruct H as [H|H]; [now left|right; now right].
    + destruct H as [H|H]; [right; now left|].
      apply IH in H as [H|H]; [now left|right; now right].
Qed.

Lemma dict_get_in {V} (d : dict V) (k : Z) (v : V) :
  dict_get d k = Some v -> exists k', In (k', v) d.
Proof.
  induction d as [|[k0 v0] d IH]; cbn [dict_get]; [discriminate|].
  destruct (k0 =? k).
  - intros H. injection H as ->. exists k0. now left.
  - intros H. apply IH in H as [k' H]. exists k'. now right.
Qed.

Lemma is_heading_nonblank (line : str) : is_heading line = true -> strip line <> [].
Proof. unfold is_heading. destruct (strip line); [discriminate|discriminate]. Qed.

Lemma slice_to_prefix {A} (x : list A) (n : Z) : exists q, x = slice_to x n ++ q.
Proof. unfold slice_to. eexists. symmetry. apply firstn_skipn. Qed.

Lemma line_heading_ok (text line : str) :
  In line (Py.split text [Chunking.nl]) -> is_heading line = true ->
  let heading_clean := strip (Re.sub re_numbering [] line) in
  let heading_clean :=
    if endswith heading_clean [colon]
    then strip (slice_to heading_clean (-1))
    else heading_clean in
  heading_from text (if truthy heading_clean then heading_clean else strip line).
Proof.
  intros Hin Hh. cbv zeta.
  assert (O1 : occurs_in (strip (Re.sub re_numbering [] line)) line).
  { unfold re_numbering. destruct (sub_bol_suffix
      (Seq (plus (Cls cls_digit))
         (Seq (Star (Seq (Cls (chr_is dot)) (plus (Cls cls_digit))))
            (plus (Cls cls_space)))) line) as [p Hp].
    eapply occurs_in_trans; [apply strip_is_infix|].
    exists p, []. now rewrite app_nil_r. }
  set (hc := strip (Re.sub re_numbering [] line)) in *.
  assert (O2 : occurs_in (strip (slice_to hc (-1))) line).
  { eapply occurs_in_trans; [apply strip_is_infix|].
    eapply occurs_in_trans; [|exact O1].
    destruct (slice_to_prefix hc (-1)) as [q Hq]. exists [], q. exact Hq. }
  assert (K : forall h, h <> [] -> strip h = h -> occurs_in h line -> heading_from text h).
  { intros h H1 H2 H3. split; [exact H1|]. split; [exact H2|]. exists line. auto. }
  destruct (endswith hc [colon]).
  - destruct (strip (slice_to hc (-1))) as [|c t] eqn:E; cbn [truthy].
    + apply K; [now apply is_heading_nonblank|apply strip_idem|apply strip_is_infix].
    + apply K; [discriminate| |exact O2]. rewrite <- E. apply strip_idem.
  - destruct hc as [|c t] eqn:E; cbn [truthy].
    + apply K; [now apply is_heading_nonblank|apply strip_idem|apply strip_is_infix].
    + apply K; [discriminate| |exact O1]. unfold hc in E. rewrite <- E. apply strip_idem.
Qed.


Lemma line_step_ok (text : str) (sc : scan) (line : str) :
  In line (Py.split text [Chunking.nl]) -> scan_ok text sc ->
  scan_ok text (line_step sc line).
Proof.
  intros Hin [Hc Hm]. unfold line_step.
  set (cur := if is_heading line then _ else current_heading sc).
  assert (Hcur : value_ok text cur).
  { unfold cur. destruct (is_heading line) eqn:E; [|exact Hc].
    cbn [value_ok]. now apply line_heading_ok. }
  split; cbn [current_heading heading_map]; [exact Hcur|].
  intros k v H. apply dict_set_in in H as [H|H].
  - injection H as _ ->. exact Hcur.
  - eapply Hm; eauto.
Qed.

Lemma fold_line_step_ok (text : str) (lines : list str) :
  forall sc, (forall l, In l lines -> In l (Py.split text [Chunking.nl])) ->
  scan_ok text sc -> scan_ok text (fold_left line_step lines sc).
Proof.
  induction lines as [|l lines IH]; intros sc Hl Hs; cbn [fold_left]; [exact Hs|].
  apply IH; [intros; apply Hl; now right|].
  apply line_step_ok; [apply Hl; now left|exact Hs].
Qed.

Lemma find_heading_ok (text : str) (position : Z) (h : str) :
  find_heading_for_position (extract_headings text) position = Some h ->
  heading_from text h.
Proof.
  unfold find_heading_for_position, extract_headings.
  set (sc := fold_left line_step _ _).
  assert (Hs : scan_ok text sc).
  { apply fold_line_step_ok; [auto|]. split; [exact I|]. intros k v []. }
  destruct (negb (truthy (heading_map sc))); [discriminate|].
  destruct (filter _ _) as [|p ps]; [discriminate|].
  destruct (dict_get (heading_map sc) (max_list p ps)) as [v|] eqn:G; [|discriminate].
  intros ->. apply dict_get_in in G as [k G]. destruct Hs as [_ Hm].
  exact (Hm _ _ G).
Qed.

Lemma locate_headings (text : str) (hm : dict (option str)) (chunks : list str) :
  forall search_start t, In t (locate text hm chunks search_start) ->
  exists position, heading_of t = find_heading_for_position hm position.
Proof.
  induction chunks as [|c chunks IH]; intros st t H; cbn [locate] in H; [destruct H|].
  destruct H as [<-|H]; [|eapply IH; eauto].
  cbn [heading_of]. eauto.
Qed.

Lemma chunk_headings_ok (text : str) (chunk_size overlap : Z) (result : list located)
  (chunk : str) (char_start char_end : Z) (h : str) :
  chunk_text_with_headings text chunk_size overlap = Some result ->
  In (chunk, char_start, char_end, Some h) result ->
  heading_from text h /\ occurs_in h text.
Proof.
  unfold chunk_text_with_headings.
  destruct (negb (truthy text) || (len (strip text) =? 0))%bool.
  - intros H. injection H as <-. intros [].
  - destruct (Chunking.chunk_text chunk_size overlap text) as [chunks|]; [|discriminate].
    intros H. injection H as <-. intros Hin.
    apply locate_headings in Hin as [position Hp]. cbn [heading_of] in Hp.
    symmetry in Hp. apply find_heading_ok in Hp. split; [exact Hp|].
    destruct Hp as (_ & _ & line & L1 & _ & L2).
    eapply occurs_in_trans; [exact L2|]. now apply split_infix in L1.
Qed.

End HeadingMapFacts.

Module FrameFacts.
Import Py Db StrFacts DbFacts Indexer.
Import IndexSpec.

Section WithInvariant.
Variable R : store -> Prop.

Lemma preserves_ret {A} (a : A) : preserves R (ret a).
Proof. intros s o s' Hc Hw H. injection H as _ <-. auto. Qed.

Lemma preserves_diverge {A} : preserves R (@diverge A).
Proof. intros s o s' Hc Hw H. injection H as _ <-. auto. Qed.

Lemma preserves_bind {A B} (c : M A) (f : A -> M B) :
  preserves R c -> (forall a, preserves R (f a)) -> preserves R (bind c f).
Proof.
  intros Pc Pf s o s' Hc Hw H. unfold bind in H.
  destruct (c s) as [[a|e|] s1] eqn:E.
  - destruct (Pc _ _ _ Hc Hw E) as [Hc1 Hw1]. eapply Pf; eauto.
  - injection H as _ <-. eapply Pc; eauto.
  - injection H as _ <-. eapply Pc; eauto.
Qed.

Lemma preserves_try_except {A} (body : M A) (handler : str -> M A) :
  preserves R body -> (forall e, preserves R (handler e)) ->
  preserves R (try_except body handler).
Proof.
  intros Pb Ph s o s' Hc Hw H. unfold try_except in H.
  destruct (body s) as [[a|e|] s1] eqn:E.
  - injection H as _ <-. eapply Pb; eauto.
  - destruct (Pb _ _ _ Hc Hw E) as [Hc1 Hw1]. eapply Ph; eauto.
  - injection H as _ <-. eapply Pb; eauto.
Qed.

Lemma preserves_db_call : preserves R db_call.
Proof.
  intros s o s' Hc Hw H. unfold db_call in H.
  destruct (faults s) as [|[e|] fs]; injection H as _ <-; auto.
Qed.

Lemma preserves_commit : preserves R commit.
Proof.
  unfold commit. apply preserves_bind; [apply preserves_db_call|].
  intros _ s o s' Hc Hw H. injection H as _ <-. auto.
Qed.

Lemma preserves_rollback : preserves R rollback.
Proof.
  unfold rollback. apply preserves_bind; [apply preserves_db_call|].
  intros _ s o s' Hc Hw H. injection H as _ <-. auto.
Qed.

Lemma preserves_get_store_bind {B} (f : store -> M B) :
  (forall w, preserves R (f w)) -> preserves R (bind get_store f).
Proof.
  intros Pf. apply preserves_bind; [|exact Pf].
  intros s o s' Hc Hw H. injection H as _ <-. auto.
Qed.

Lemma preserves_query_document (document_id : uuid) :
  preserves R (query_document document_id).
Proof.
  unfold query_document. apply preserves_bind; [apply preserves_db_call|]. intros _.
  apply preserves_get_store_bind. intros w. apply preserves_ret.
Qed.

Lemma preserves_for_each {A B} (body : B -> A -> M B) (xs : list A) :
  (forall acc x, preserves R (body acc x)) ->
  forall acc, preserves R (for_each body xs acc).
Proof.
  intros Pb. induction xs as [|x xs IH]; intros acc; cbn [for_each].
  - apply preserves_ret.
  - apply preserves_bind; [apply Pb|exact IH].
Qed.

Section WithDocument.
Variable document_id : uuid.

Hypothesis R_set : forall (st : IndexStatus) (err : option str) (w : store),
  R w ->
  R (mkStore
       (map (fun d =>
               if str_eqb (Document.id d) document_id
               then Document.mk (Document.id d) (Document.company_id d)
                      (Document.filename_original d) (Document.text_extracted d) st err
               else d)
            (documents w))
       (document_chunks w)).
Hypothesis R_delete : forall w : store,
  R w ->
  R (mkStore (documents w)
       (filter (fun c => negb (str_eqb (DocumentChunk.document_id c) document_id))
               (document_chunks w))).
Hypothesis R_add : forall (w : store) (c : DocumentChunk.t),
  DocumentChunk.document_id c = document_id ->
  R w -> R (mkStore (documents w) (document_chunks w ++ [c])).

Lemma preserves_set_index_state (st : IndexStatus) (err : option str) :
  preserves R (set_index_state document_id st err).
Proof.
  intros s o s' Hc Hw H. unfold set_index_state, bind, get_store, put_store in H.
  injection H as _ <-. cbn. auto.
Qed.

Lemma preserves_delete_chunks : preserves R (delete_chunks document_id).
Proof.
  unfold delete_chunks. apply preserves_bind; [apply preserves_db_call|]. intros _.
  intros s o s' Hc Hw H. unfold bind, get_store, put_store in H.
  injection H as _ <-. cbn. auto.
Qed.

Lemma preserves_add_chunk (mk_chunk : uuid -> DocumentChunk.t) :
  (forall new_id, DocumentChunk.document_id (mk_chunk new_id) = document_id) ->
  preserves R (add_chunk mk_chunk).
Proof.
  intros Hm s o s' Hc Hw H. unfold add_chunk in H. injection H as _ <-. cbn. auto.
Qed.

Section WithEmbedder.
Variable ollama : str -> option Embeddings.vector.

Lemma preserves_add_step (document : Document.t) (chunks_created : Z)
  (item : nat * (HeadingDetection.located * option Embeddings.vector)) :
  Document.id document = document_id ->
  preserves R (add_step document chunks_created item).
Proof.
  intros Hd. destruct item as [idx [[[[c cs] ce] h] [e|]]]; cbn [add_step].
  - destruct (negb (len e =? 768)); [apply preserves_ret|].
    apply preserves_bind; [|intros; apply preserves_ret].
    apply preserves_add_chunk. intros new_id. exact Hd.
  - apply preserves_ret.
Qed.

Lemma preserves_index_body (document : Document.t) (text : str) :
  Document.id document = document_id ->
  preserves R (index_body ollama document document_id text).
Proof.
  intros Hd. unfold index_body.
  apply preserves_bind; [apply preserves_set_index_state|]; intros _.
  apply preserves_bind; [apply preserves_commit|]; intros _.
  apply preserves_bind; [apply preserves_delete_chunks|]; intros _.
  apply preserves_bind; [apply preserves_commit|]; intros _.
  destruct (HeadingDetection.chunk_text_with_headings text 1000 150) as [located|];
    [|apply preserves_diverge].
  destruct (negb (truthy located)).
  { apply preserves_bind; [apply preserves_set_index_state|]; intros _.
    apply preserves_bind; [apply preserves_commit|]; intros _. apply preserves_ret. }
  cbv zeta. destruct (_ =? _).
  { apply preserves_bind; [apply preserves_set_index_state|]; intros _.
    apply preserves_bind; [apply preserves_commit|]; intros _. apply preserves_ret. }
  apply preserves_bind.
  { apply preserves_for_each. intros acc x. now apply preserves_add_step. }
  intros created.
  apply preserves_bind; [apply preserves_commit|]; intros _.
  apply preserves_bind.
  { destruct (0 <? created); apply preserves_set_index_state. }
  intros _.
  apply preserves_bind; [apply preserves_commit|]; intros _. apply preserves_ret.
Qed.

Lemma preserves_index_handler (e : str) : preserves R (index_handler document_id e).
Proof.
  unfold index_handler.
  apply preserves_bind; [apply preserves_set_index_state|]; intros _.
  apply preserves_bind; [apply preserves_rollback|]; intros _.
  apply preserves_bind; [apply preserves_commit|]; intros _. apply preserves_ret.
Qed.

Lemma preserves_index_document (company_id : str) :
  preserves R (index_document ollama document_id company_id).
Proof.
  unfold index_document. intros s o s' Hc Hw H.
  unfold bind in H. destruct (query_document document_id s) as [[found|e|] s1] eqn:Q.
  - destruct (preserves_query_document document_id _ Hc Hw Q) as [Hc1 Hw1].
    apply query_document_returned in Q as [_ F].
    destruct found as [document|]; [|eapply preserves_ret; eauto].
    symmetry in F. apply IndexerFacts.find_some_id in F as [_ F].
    destruct (negb (str_eqb (Document.company_id document) company_id));
      [eapply preserves_ret; eauto|].
    destruct (Document.text_extracted document) as [text|];
      [|eapply preserves_ret; eauto].
    destruct (negb (truthy text)); [eapply preserves_ret; eauto|].
    revert H. apply preserves_try_except; auto.
    + now apply preserves_index_body.
    + apply preserves_index_handler.
  - injection H as _ <-. eapply preserves_query_document; eauto.
  - injection H as _ <-. eapply preserves_query_document; eauto.
Qed.

End WithEmbedder.
End WithDocument.
End WithInvariant.

(** The three changes [index_document] makes keep the rest of the store. *)
Lemma same_but_refl (document_id : uuid) (w : store) : same_but document_id w w.
Proof. repeat split. Qed.

Lemma filter_map_other (document_id : uuid) (f : Document.t -> Document.t)
  (docs : list Document.t) :
  (forall d, Document.id (f d) = Document.id d) ->
  (forall d, str_eqb (Document.id d) document_id = false -> f d = d) ->
  filter (fun d => negb (str_eqb (Document.id d) document_id)) (map f docs)
  = filter (fun d => negb (str_eqb (Document.id d) document_id)) docs.
Proof.
  intros Hid Hf. induction docs as [|d docs IH]; [reflexivity|].
  cbn [map filter]. rewrite Hid. destruct (str_eqb (Document.id d) document_id) eqn:E;
    cbn [negb]; [exact IH|]. now rewrite Hf, IH.
Qed.

Lemma same_but_set (document_id : uuid) (w0 : store) (st : IndexStatus)
  (err : option str) (w : store) :
  same_but document_id w0 w ->
  same_but document_id w0
    (mkStore
       (map (fun d =>
               if str_eqb (Document.id d) document_id
               then Document.mk (Document.id d) (Document.company_id d)
                      (Document.filename_original d) (Document.text_extracted d) st err
               else d)
            (documents w))
       (document_chunks w)).
Proof.
  intros (H1 & H2 & H3). unfold same_but, other_chunks, other_documents in *.
  cbn [documents document_chunks]. split; [exact H1|]. split.
  - rewrite filter_map_other; [exact H2| |].
    + intros d. now destruct (str_eqb (Document.id d) document_id).
    + now intros d ->.
  - rewrite <- H3, map_map. apply map_ext. intros d.
    now destruct (str_eqb (Document.id d) document_id).
Qed.

Lemma filter_idem {A} (f : A -> bool) (l : list A) : filter f (filter f l) = filter f l.
Proof.
  induction l as [|a l IH]; [reflexivity|]. cbn [filter].
  destruct (f a) eqn:E; cbn [filter]; [rewrite E|]; now rewrite IH.
Qed.

Lemma same_but_delete (document_id : uuid) (w0 w : store) :
  same_but document_id w0 w ->
  same_but document_id w0
    (mkStore (documents w)
       (filter (fun c => negb (str_eqb (DocumentChunk.document_id c) document_id))
               (document_chunks w))).
Proof.
  intros (H1 & H2 & H3). unfold same_but, other_chunks, other_documents in *.
  cbn [documents document_chunks]. rewrite filter_idem. auto.
Qed.

Lemma same_but_add (document_id : uuid) (w0 w : store) (c : DocumentChunk.t) :
  DocumentChunk.document_id c = document_id ->
  same_but document_id w0 w ->
  same_but document_id w0 (mkStore (documents w) (document_chunks w ++ [c])).
Proof.
  intros Hc (H1 & H2 & H3). unfold same_but, other_chunks, other_documents in *.
  cbn [documents document_chunks]. rewrite filter_app. cbn [filter].
  rewrite Hc, str_eqb_refl. cbn [negb]. rewrite app_nil_r. auto.
Qed.

Lemma index_document_same_but (ollama : str -> option Embeddings.vector)
  (document_id company_id : str) (s s' : session) (o : outcome result) :
  committed s = working s ->
  index_document ollama document_id company_id s = (o, s') ->
  same_but document_id (working s) (committed s') /\
  same_but document_id (working s) (working s').
Proof.
  intros Hs H.
  apply (@preserves_index_document (same_but document_id (working s)) document_id)
    with (ollama := ollama) (company_id := company_id) (s := s) (o := o).
  - intros. now apply same_but_set.
  - intros. now apply same_but_delete.
  - intros. now apply same_but_add.
  - rewrite Hs. apply same_but_refl.
  - apply same_but_refl.
  - exact H.
Qed.

End FrameFacts.

Module StoredFacts.
Import Py PyFacts Db Indexer StrFacts DbFacts IndexerFacts Spec FrameFacts LocateFacts.
Import IndexSpec.

Section WithEmbedder.
Variable ollama : str -> option Embeddings.vector.

Lemma index_document_refused (document_id company_id : str) (s s' : session)
  (r : result) :
  index_document ollama document_id company_id s = (Returned r, s') ->
  (forall d, In d (documents (working s)) -> Document.id d = document_id ->
             Document.company_id d <> company_id) ->
  (r = (false, Some (txt "Document not found"), 0) \/
   r = (false, Some (txt "Document does not belong to company"), 0)) /\
  committed s' = committed s /\ working s' = working s.
Proof.
  unfold index_document. intros H Hd.
  apply bind_returned in H as (found & s1 & H1 & H).
  apply query_document_returned in H1 as [(C1 & W1 & _) F].
  destruct found as [document|].
  - symmetry in F. apply find_some_id in F as [F1 F2].
    specialize (Hd _ F1 F2).
    destruct (str_eqb (Document.company_id document) company_id) eqn:E.
    + apply str_eqb_eq in E. contradiction.
    + cbn [negb] in H. injection H as <- <-. auto.
  - injection H as <- <-. auto.
Qed.

Lemma for_each_add_step_stored (document : Document.t)
  (items : list (nat * (HeadingDetection.located * option Embeddings.vector))) :
  forall (acc : Z) (s : session),
  exists s1 new,
    for_each (add_step document) items acc s
      = (Returned (acc + len (survivors items)), s1) /\
    committed s1 = committed s /\
    documents (working s1) = documents (working s) /\
    document_chunks (working s1) = document_chunks (working s) ++ new /\
    Forall2 (stored_as document) (survivors items) new.
Proof.
  induction items as [|[idx [[[[c cs] ce] h] e]] items IH]; intros acc s.
  - exists s, []. cbn. rewrite Z.add_0_r, app_nil_r. repeat split; auto.
  - cbn [for_each]. unfold survivors. cbn [filter snd kept].
    destruct e as [v|]; cbn [add_step kept].
    + destruct (len v =? 768) eqn:E; cbn [negb].
      * unfold bind at 1. unfold bind at 1. cbn [add_chunk ret].
        match goal with |- context [for_each _ items ?a ?s0] =>
          destruct (IH a s0) as (s1 & new & H1 & H2 & H3 & H4 & H5) end.
        cbn in H2, H3, H4.
        eexists s1, (_ :: new). rewrite H1.
        repeat split; auto.
        -- f_equal. f_equal. fold (survivors items).
           change (len (?x :: ?l)) with (Z.of_nat (S (length l))).
           unfold len. lia.
        -- rewrite H4, <- app_assoc. reflexivity.
        -- constructor; [|exact H5]. cbn [stored_as]. eauto.
      * unfold bind at 1. cbn [ret].
        destruct (IH acc s) as (s1 & new & H1 & H2 & H3 & H4 & H5).
        exists s1, new. repeat split; auto.
    + unfold bind at 1. cbn [ret].
      destruct (IH acc s) as (s1 & new & H1 & H2 & H3 & H4 & H5).
      exists s1, new. repeat split; auto.
Qed.

Lemma stored_as_document_id (document : Document.t) items new :
  Forall2 (stored_as document) items new ->
  Forall (fun c => DocumentChunk.document_id c = Document.id document) new.
Proof.
  induction 1 as [|[idx [[[[c cs] ce] h] e]] x items new H _ IH]; constructor; auto.
  destruct H as (v & i & _ & ->). reflexivity.
Qed.

(** What a successful run of the [try] block leaves committed. *)
Lemma index_body_stored (document : Document.t) (text : str)
  (s s' : session) (n : Z) :
  index_body ollama document (Document.id document) text s
    = (Returned (true, None, n), s') ->
  exists located,
    HeadingDetection.chunk_text_with_headings text 1000 150 = Some located /\
    let embeddings :=
      Embeddings.embed_batch ollama (map (fun '(chunk_text, _, _, _) => chunk_text) located) in
    let kept_items := survivors (enumerate (combine located embeddings)) in
    Forall2 (stored_as document) kept_items
      (chunks_of (Document.id document) (committed s')) /\
    n = len kept_items /\
    status_of (Document.id document) (committed s')
      = map (fun _ => if 0 <? n then INDEXED else FAILED)
            (status_of (Document.id document) (working s)) /\
    working s' = committed s'.
Proof.
  unfold index_body. intros H.
  apply bind_returned in H as (? & s1 & H1 & H).
  pose proof (status_of_set H1) as (S1 & _).
  apply set_index_state_returned in H1 as (_ & C1 & _).
  apply bind_returned in H as (? & s2 & H2 & H). apply commit_returned in H2 as (_ & W2 & _).
  apply bind_returned in H as (? & s3 & H3 & H).
  apply delete_chunks_returned in H3 as (_ & D3 & C3 & _).
  apply bind_returned in H as (? & s4 & H4 & H). apply commit_returned in H4 as (_ & W4 & _).
  destruct (HeadingDetection.chunk_text_with_headings text 1000 150) as [located|];
    [|discriminate].
  exists located. split; [reflexivity|].
  destruct (negb (truthy located)).
  { apply bind_returned in H as (? & ? & _ & H).
    apply bind_returned in H as (? & ? & _ & H). discriminate. }
  cbv zeta in H |- *.
  set (embeddings := Embeddings.embed_batch ollama _) in *.
  destruct (_ =? len embeddings).
  { apply bind_returned in H as (? & ? & _ & H).
    apply bind_returned in H as (? & ? & _ & H). discriminate. }
  apply bind_returned in H as (created & s5 & H5 & H).
  destruct (for_each_add_step_stored document (enumerate (combine located embeddings)) 0 s4)
    as (s5' & new & F1 & F2 & F3 & F4 & F5).
  rewrite F1 in H5. injection H5 as <- <-.
  apply bind_returned in H as (? & s6 & H6 & H). apply commit_returned in H6 as (_ & W6 & _).
  apply bind_returned in H as (? & s7 & H7 & H).
  assert (C7 : document_chunks (working s7) = document_chunks (working s6) /\
               status_of (Document.id document) (working s7)
               = map (fun _ => if 0 <? 0 + len (survivors (enumerate (combine located embeddings)))
                               then INDEXED else FAILED)
                   (status_of (Document.id document) (working s6))).
  { destruct (0 <? _).
    - pose proof (status_of_set H7) as (S7 & _).
      apply set_index_state_returned in H7 as (_ & C7 & _). auto.
    - pose proof (status_of_set H7) as (S7 & _).
      apply set_index_state_returned in H7 as (_ & C7 & _). auto. }
  destruct C7 as [C7 S7].
  apply bind_returned in H as (? & s8 & H8 & H).
  apply commit_returned in H8 as (K8 & W8 & _).
  injection H as <- <-.
  split; [|split; [lia|split]].
  - unfold chunks_of. rewrite K8, C7, W6, F4, W4, C3, filter_app, filter_filter_neg.
    cbn [app]. rewrite filter_all; [exact F5|].
    apply stored_as_document_id in F5.
    eapply Forall_impl; [|exact F5]. cbn beta. intros c ->. apply str_eqb_refl.
  - rewrite K8, S7.
    rewrite (@status_of_documents (Document.id document) (working s1) (working s6)).
    2:{ rewrite W6, F3, W4, D3, W2. reflexivity. }
    rewrite S1, map_map. rewrite Z.add_0_l. reflexivity.
  - congruence.
Qed.

End WithEmbedder.
End StoredFacts.

Module SuccessFacts.
Import Py PyFacts Db Indexer StrFacts DbFacts IndexerFacts Spec FrameFacts LocateFacts StoredFacts.
Import HeadingSpec IndexSpec.

Lemma in_combine_map {A B} (f : A -> B) (l : list A) (a : A) (b : B) :
  In (a, b) (combine l (map f l)) -> b = f a /\ In a l.
Proof.
  induction l as [|x l IH]; cbn; [intros []|].
  intros [H|H]; [injection H as <- <-; auto|]. apply IH in H as [H1 H2]. auto.
Qed.

Lemma Forall2_right {A B} (R : A -> B -> Prop) (P : A -> Prop) (Q : B -> Prop)
  (l1 : list A) (l2 : list B) :
  (forall x y, R x y -> P x -> Q y) ->
  Forall2 R l1 l2 -> Forall P l1 -> Forall Q l2.
Proof.
  intros H F. induction F; intros HP; constructor; inversion HP; subst; eauto.
Qed.


Section WithEmbedder.
Variable ollama : str -> option Embeddings.vector.

Lemma index_document_success (document_id company_id : str) (s s' : session) (n : Z) :
  index_document ollama document_id company_id s = (Returned (true, None, n), s') ->
  exists document text,
    In document (documents (working s)) /\ Document.id document = document_id /\
    Document.company_id document = company_id /\
    Document.text_extracted document = Some text /\
    exists s1, same_data s s1 /\
    index_body ollama document (Document.id document) text s1
      = (Returned (true, None, n), s').
Proof.
  unfold index_document. intros H.
  apply bind_returned in H as (found & s1 & H1 & H).
  apply query_document_returned in H1 as [SD F].
  destruct found as [document|]; [|discriminate].
  symmetry in F. apply find_some_id in F as [F1 F2].
  destruct (str_eqb (Document.company_id document) company_id) eqn:E; [|discriminate].
  apply str_eqb_eq in E. cbn [negb] in H.
  destruct (Document.text_extracted document) as [text|] eqn:T; [|discriminate].
  destruct (negb (truthy text)); [discriminate|].
  apply try_except_returned in H as [H|(e & s2 & _ & H)].
  - exists document, text. repeat split; auto. exists s1. split; [exact SD|].
    now rewrite F2.
  - apply index_handler_fails in H. discriminate.
Qed.

Lemma index_document_well_formed (document_id company_id : str) (s s' : session) (n : Z) :
  index_document ollama document_id company_id s = (Returned (true, None, n), s') ->
  Forall (well_formed ollama company_id) (chunks_of document_id (committed s')).
Proof.
  intros H. apply index_document_success in H
    as (document & text & _ & <- & <- & _ & s1 & _ & H).
  apply index_body_stored in H as (located & L & F & _).
  cbv zeta in F. eapply Forall2_right; [|exact F|].
  2:{ apply Forall_forall. intros x Hx. exact Hx. }
  intros [idx [[[[c cs] ce] h] e]] y (v & new_id & -> & ->) Hin.
  unfold survivors in Hin. apply filter_In in Hin as [Hin K]. cbn [snd kept] in K.
  unfold enumerate in Hin. apply in_combine_r in Hin.
  unfold Embeddings.embed_batch in Hin. rewrite map_map in Hin.
  apply in_combine_map in Hin as [He Hl].
  pose proof (HeadingFacts.chunk_text_with_headings_spans_ok _ _ _ L) as Sp.
  rewrite Forall_forall in Sp. specialize (Sp _ Hl). cbn in Sp.
  destruct Sp as (S1 & S2 & _).
  apply chunk_text_with_headings_chunks in L as [L _].
  pose proof (ChunkingFacts.chunk_text_bound _ _ _ L) as B.
  pose proof (ChunkShape.chunk_text_stripped _ _ _ L) as N.
  rewrite Forall_forall in B, N.
  assert (Hc : In c (map chunk_of located)).
  { apply in_map_iff. exists (c, cs, ce, h). auto. }
  specialize (B _ Hc). destruct (N _ Hc) as [N1 _].
  unfold well_formed. cbn.
  repeat split; auto.
  - now apply Z.eqb_eq.
  - exists cs. subst ce. auto.
Qed.

Lemma index_document_status (document_id company_id : str) (s s' : session) (n : Z) :
  index_document ollama document_id company_id s = (Returned (true, None, n), s') ->
  status_of document_id (committed s')
    = map (fun _ => if 0 <? n then INDEXED else FAILED)
          (status_of document_id (working s)) /\
  status_of document_id (working s) <> [] /\
  working s' = committed s'.
Proof.
  intros H. apply index_document_success in H
    as (document & text & Hin & <- & <- & _ & s1 & (_ & W1 & _) & H).
  apply index_body_stored in H as (located & _ & _ & _ & S & W).
  rewrite S, W1. repeat split; auto.
  unfold status_of. intros E. apply map_eq_nil in E.
  assert (K : In document (filter (fun d => str_eqb (Document.id d) (Document.id document))
                             (documents (working s)))).
  { apply filter_In. split; [exact Hin|apply str_eqb_refl]. }
  rewrite E in K. destruct K.
Qed.

End WithEmbedder.
End SuccessFacts.

Module HealthyDb.
Import Py PyFacts Db Indexer StrFacts DbFacts IndexerFacts Spec FrameFacts LocateFacts StoredFacts.
Import HeadingSpec IndexSpec.

(** With no fault pending, a database call returns and leaves the session
    as it is. *)
Lemma db_call_healthy (s : session) :
  faults s = [] -> db_call s = (Returned tt, s).
Proof. unfold db_call. now intros ->. Qed.

Lemma commit_healthy (s : session) :
  faults s = [] ->
  commit s = (Returned tt, mkSession (working s) (working s) [] (uuid4 s) (drawn s)).
Proof.
  intros H. unfold commit, bind. rewrite (db_call_healthy s H). now rewrite H.
Qed.

Lemma query_document_healthy (document_id : uuid) (s : session) :
  faults s = [] ->
  query_document document_id s
  = (Returned (List.find (fun d => str_eqb (Document.id d) document_id)
                 (documents (working s))), s).
Proof.
  intros H. unfold query_document, bind. now rewrite (db_call_healthy s H).
Qed.

Lemma delete_chunks_healthy (document_id : uuid) (s : session) :
  faults s = [] ->
  delete_chunks document_id s
  = (Returned tt,
     with_working s
       (mkStore (documents (working s))
          (filter (fun c => negb (str_eqb (DocumentChunk.document_id c) document_id))
                  (document_chunks (working s))))).
Proof.
  intros H. unfold delete_chunks, bind. now rewrite (db_call_healthy s H).
Qed.

Lemma status_of_map_set (document_id : uuid) (st : IndexStatus) (err : option str)
  (docs : list Document.t) (chunks : list DocumentChunk.t) :
  status_of document_id
    (mkStore
       (map (fun d =>
               if str_eqb (Document.id d) document_id
               then Document.mk (Document.id d) (Document.company_id d)
                      (Document.filename_original d) (Document.text_extracted d) st err
               else d) docs) chunks)
  = map (fun _ => st) (status_of document_id (mkStore docs chunks)).
Proof.
  unfold status_of. cbn [documents].
  induction docs as [|d docs IH]; [reflexivity|]. cbn [map filter].
  destruct (str_eqb (Document.id d) document_id) eqn:E.
  - cbn [Document.id]. rewrite E. cbn [map Document.index_status]. now rewrite IH.
  - rewrite E. exact IH.
Qed.

Section WithEmbedder.
Variable ollama : str -> option Embeddings.vector.

Lemma all_failed_count (located : list HeadingDetection.located) :
  Forall (fun t => Embeddings.embed ollama (chunk_of t) = None) located ->
  let embeddings :=
    Embeddings.embed_batch ollama (map (fun '(chunk_text, _, _, _) => chunk_text) located) in
  len (filter (fun e => match e with None => true | Some _ => false end) embeddings)
  = len embeddings.
Proof.
  intros H. cbv zeta. unfold Embeddings.embed_batch. rewrite map_map.
  induction H as [|t l Ht _ IH]; [reflexivity|].
  cbn [map filter]. change (let '(chunk_text, _, _, _) := t in chunk_text) with (chunk_of t).
  rewrite Ht. unfold len in *. cbn [length]. lia.
Qed.

(** No chunk of the document gets an embedding: the run fails, and the
    chunks the document had are gone. *)
Lemma index_document_all_failed (document_id company_id : str) (s : session)
  (document : Document.t) (text : str) (located : list HeadingDetection.located) :
  faults s = [] ->
  List.find (fun d => str_eqb (Document.id d) document_id) (documents (working s))
    = Some document ->
  Document.company_id document = company_id ->
  Document.text_extracted document = Some text ->
  HeadingDetection.chunk_text_with_headings text 1000 150 = Some located ->
  located <> [] ->
  Forall (fun t => Embeddings.embed ollama (chunk_of t) = None) located ->
  exists s',
    index_document ollama document_id company_id s
      = (Returned (false, Some (txt "Failed to generate embeddings"), 0), s') /\
    chunks_of document_id (committed s') = [] /\
    status_of document_id (committed s')
      = map (fun _ => FAILED) (status_of document_id (working s)) /\
    working s' = committed s'.
Proof.
  intros Hf Hfind Hc Ht Hl Hn Ha.
  assert (Htext : truthy text = true).
  { destruct text; [|reflexivity]. cbn in Hl. injection Hl as <-. congruence. }
  unfold index_document. unfold bind at 1. rewrite (query_document_healthy _ _ Hf), Hfind.
  rewrite Hc, str_eqb_refl, Ht, Htext. cbn [negb].
  unfold try_except, index_body.
  unfold bind at 1. unfold set_index_state at 1. unfold bind at 1.
  cbn [get_store put_store].
  unfold bind at 1. rewrite commit_healthy by exact Hf.
  unfold bind at 1. rewrite delete_chunks_healthy by reflexivity.
  unfold bind at 1. rewrite commit_healthy by reflexivity.
  rewrite Hl. destruct located as [|t0 l0] eqn:EL; [congruence|]. cbn [truthy negb].
  rewrite <- EL in *. cbv zeta.
  rewrite (all_failed_count Ha), Z.eqb_refl.
  unfold bind at 1. unfold set_index_state at 1. unfold bind at 1.
  cbn [get_store put_store].
  unfold bind at 1. rewrite commit_healthy by reflexivity.
  cbn [ret]. eexists. split; [reflexivity|].
  cbn [committed working with_working documents document_chunks].
  split; [|split; [|reflexivity]].
  - unfold chunks_of. cbn [document_chunks]. apply filter_filter_neg.
  - rewrite status_of_map_set, status_of_map_set, map_map.
    reflexivity.
Qed.

End WithEmbedder.
End HealthyDb.

Module ReadOnlyFacts.
Import Py PyFacts Db Rag StrFacts DbFacts Spec.
Import RagSpec.

Lemma readonly_ret {A} (a : A) : readonly (ret a).
Proof. intros s o s' H. injection H as _ <-. auto. Qed.

Lemma readonly_raise {A} (e : str) : readonly (@raise A e).
Proof. intros s o s' H. injection H as _ <-. auto. Qed.

Lemma readonly_bind {A B} (c : M A) (f : A -> M B) :
  readonly c -> (forall a, readonly (f a)) -> readonly (bind c f).
Proof.
  intros Pc Pf s o s' H. unfold bind in H.
  destruct (c s) as [[a|e|] s1] eqn:E.
  - destruct (Pc _ _ _ E) as [C W]. destruct (Pf a _ _ _ H) as [C' W']. split; congruence.
  - injection H as _ <-. eapply Pc; eauto.
  - injection H as _ <-. eapply Pc; eauto.
Qed.

Lemma readonly_try_except {A} (body : M A) (handler : str -> M A) :
  readonly body -> (forall e, readonly (handler e)) -> readonly (try_except body handler).
Proof.
  intros Pb Ph s o s' H. unfold try_except in H.
  destruct (body s) as [[a|e|] s1] eqn:E.
  - injection H as _ <-. eapply Pb; eauto.
  - destruct (Pb _ _ _ E) as [C W]. destruct (Ph e _ _ _ H) as [C' W']. split; congruence.
  - injection H as _ <-. eapply Pb; eauto.
Qed.

Lemma readonly_db_call : readonly db_call.
Proof.
  intros s o s' H. unfold db_call in H.
  destruct (faults s) as [|[e|] fs]; injection H as _ <-; auto.
Qed.

Lemma readonly_get_store : readonly get_store.
Proof. intros s o s' H. injection H as _ <-. auto. Qed.

Lemma readonly_limit {A} (n : Z) (rows : list A) : readonly (limit n rows).
Proof. unfold limit. destruct (n <? 0); [apply readonly_raise|apply readonly_ret]. Qed.

Section WithServices.
Variable ollama_embed : str -> option Embeddings.vector.
Variable ollama_chat : str -> option str.
Variable cosine_distance : Embeddings.vector -> Embeddings.vector -> float.
Variable ts_rank_cd : str -> str -> option float.
Variable settings : Config.Settings.

Lemma readonly_hybrid_query qv query company_id document_id cl top_k :
  readonly (hybrid_query cosine_distance ts_rank_cd qv query company_id document_id cl top_k).
Proof.
  unfold hybrid_query.
  apply readonly_bind; [apply readonly_db_call|]; intros _.
  apply readonly_bind; [apply readonly_get_store|]; intros w.
  apply readonly_bind; [apply readonly_limit|]; intros c. apply readonly_limit.
Qed.

Lemma readonly_semantic_query qv company_id document_id top_k :
  readonly (semantic_query cosine_distance qv company_id document_id top_k).
Proof.
  unfold semantic_query.
  apply readonly_bind; [apply readonly_db_call|]; intros _.
  apply readonly_bind; [apply readonly_get_store|]; intros w. apply readonly_limit.
Qed.

Lemma readonly_filenames ids : readonly (filenames ids).
Proof.
  unfold filenames.
  apply readonly_bind; [apply readonly_db_call|]; intros _.
  apply readonly_bind; [apply readonly_get_store|]; intros w. apply readonly_ret.
Qed.

Lemma readonly_fallback query qv company_id top_k document_id :
  readonly (_fallback_semantic_search cosine_distance query qv company_id top_k document_id).
Proof.
  unfold _fallback_semantic_search.
  apply readonly_bind; [apply readonly_semantic_query|]; intros rows.
  destruct (negb (truthy rows)); [apply readonly_ret|].
  apply readonly_bind; [apply readonly_filenames|]; intros d. apply readonly_ret.
Qed.

Lemma readonly_search query company_id top_k document_id :
  readonly (perform_semantic_search ollama_embed cosine_distance ts_rank_cd
              query company_id top_k document_id).
Proof.
  unfold perform_semantic_search.
  destruct (Embeddings.embed ollama_embed query) as [qv|]; [|apply readonly_ret].
  destruct (negb (len qv =? 768)); [apply readonly_ret|].
  apply readonly_bind.
  - apply readonly_try_except.
    + apply readonly_bind; [apply readonly_hybrid_query|]; intros rows. apply readonly_ret.
    + intros _. apply readonly_bind; [apply readonly_fallback|]; intros h. apply readonly_ret.
  - intros [rows|hits]; [|apply readonly_ret].
    destruct (negb (truthy rows)); [apply readonly_ret|].
    apply readonly_bind; [apply readonly_filenames|]; intros d. apply readonly_ret.
Qed.

Lemma readonly_answer_question query company_id top_k :
  readonly (answer_question ollama_embed ollama_chat cosine_distance ts_rank_cd settings
              query company_id top_k).
Proof.
  unfold answer_question.
  apply readonly_bind; [apply readonly_search|]; intros chunks. apply readonly_ret.
Qed.

End WithServices.
End ReadOnlyFacts.

Module SearchShape.
Import Py PyFacts Db Rag StrFacts DbFacts IndexerFacts SearchFacts Spec.
Import RagSpec.

Lemma limit_length {A} (n : Z) (rows r : list A) (s s1 : session) :
  limit n rows s = (Returned r, s1) -> 0 <= n /\ len r <= n.
Proof.
  unfold limit. destruct (n <? 0) eqn:E; [discriminate|].
  intros [= <- _]. split; [lia|]. unfold len. rewrite length_firstn. lia.
Qed.

Section WithServices.
Variable ollama_embed : str -> option Embeddings.vector.
Variable cosine_distance : Embeddings.vector -> Embeddings.vector -> float.
Variable ts_rank_cd : str -> str -> option float.


Lemma scoped_map (company_id : str) (document_id : option str) (s : session)
  (mk : DocumentChunk.t -> Hit.t) (rows : list DocumentChunk.t) :
  (forall dc, hit_of dc (mk dc)) ->
  Forall (scoped company_id document_id s) rows ->
  Forall (scoped_hit company_id document_id s) (map mk rows).
Proof.
  intros Hmk H. induction H as [|dc rows H _ IH]; cbn [map]; constructor; auto.
  exists dc. auto.
Qed.

Lemma scoped_same_store (company_id : str) (document_id : option str) (s s1 : session)
  (hits : list Hit.t) :
  working s1 = working s ->
  Forall (scoped_hit company_id document_id s1) hits ->
  Forall (scoped_hit company_id document_id s) hits.
Proof.
  intros W. apply Forall_impl. intros h (dc & [H1 H2] & H3). exists dc.
  split; [|exact H3]. split; [now rewrite <- W|exact H2].
Qed.

Lemma search_shape (query company_id : str) (top_k : Z) (document_id : option str)
  (s s' : session) (hits : list Hit.t) :
  perform_semantic_search ollama_embed cosine_distance ts_rank_cd
    query company_id top_k document_id s = (Returned hits, s') ->
  Forall (scoped_hit company_id document_id s) hits /\ len hits <= Z.max 0 top_k.
Proof.
  unfold perform_semantic_search.
  destruct (Embeddings.embed ollama_embed query) as [qv|];
    [|intros [= <- _]; split; [constructor|cbn; lia]].
  destruct (negb (len qv =? 768)); [intros [= <- _]; split; [constructor|cbn; lia]|].
  intros H. apply bind_returned in H as (r & s1 & H1 & H).
  apply try_except_returned in H1 as [H1|(e & s2 & H1 & H2)].
  - apply bind_returned in H1 as (rows & s3 & H3 & H1). injection H1 as <- <-.
    pose proof H3 as Sc. apply hybrid_query_scoped in Sc.
    assert (L : len rows <= Z.max 0 top_k).
    { unfold hybrid_query in H3.
      apply bind_returned in H3 as (? & ? & _ & H3).
      apply bind_returned in H3 as (? & ? & _ & H3).
      apply bind_returned in H3 as (? & ? & _ & H3).
      apply limit_length in H3. lia. }
    destruct (negb (truthy rows)); [injection H as <- _; split; [constructor|cbn; lia]|].
    apply bind_returned in H as (docs & s4 & _ & H). injection H as <- _.
    split.
    + apply scoped_map; [|exact Sc]. intros dc. repeat split.
    + unfold len in *. now rewrite length_map.
  - apply bind_raised in H1 as [H1|(rows & s3 & _ & H1)]; [|discriminate].
    apply hybrid_query_raised in H1.
    apply bind_returned in H2 as (hs & s4 & H4 & H2). injection H2 as <- <-.
    injection H as <- _.
    unfold _fallback_semantic_search in H4.
    apply bind_returned in H4 as (rows & s5 & H5 & H4).
    pose proof H5 as H5'. apply semantic_query_scoped in H5' as [Sc W].
    assert (L : len rows <= Z.max 0 top_k).
    { unfold semantic_query in H5.
      apply bind_returned in H5 as (? & ? & _ & H5).
      apply bind_returned in H5 as (? & ? & _ & H5).
      apply limit_length in H5. lia. }
    destruct (negb (truthy rows)); [injection H4 as <- _; split; [constructor|cbn; lia]|].
    apply bind_returned in H4 as (docs & s6 & _ & H4). injection H4 as <- _.
    split.
    + apply scoped_same_store with (s1 := s2); [exact H1|].
      apply scoped_map; [|exact Sc]. intros dc. repeat split.
    + unfold len in *. now rewrite length_map.
Qed.

Lemma search_document_filter (query company_id : str) (top_k : Z) (document_id : str)
  (s s' : session) (hits : list Hit.t) :
  document_id <> [] ->
  perform_semantic_search ollama_embed cosine_distance ts_rank_cd
    query company_id top_k (Some document_id) s = (Returned hits, s') ->
  Forall (fun h => Hit.document_id h = document_id /\
                   exists dc, In dc (document_chunks (working s)) /\
                              DocumentChunk.company_id dc = company_id /\
                              DocumentChunk.document_id dc = document_id /\
                              Hit.chunk_id h = DocumentChunk.id dc) hits.
Proof.
  intros Hd H. apply search_shape in H as [H _].
  eapply Forall_impl; [|exact H]. cbn beta.
  intros h (dc & [H1 H2] & (E1 & E2 & _)).
  unfold base_where in H2. apply andb_prop in H2 as [C D].
  destruct document_id as [|c d]; [congruence|]. cbn [truthy] in D.
  apply str_eqb_eq in C, D. split; [congruence|]. exists dc. auto.
Qed.

Lemma search_unembeddable (query company_id : str) (top_k : Z) (document_id : option str)
  (s : session) :
  Embeddings.embed ollama_embed query = None \/
  (exists v, Embeddings.embed ollama_embed query = Some v /\ len v <> 768) ->
  perform_semantic_search ollama_embed cosine_distance ts_rank_cd
    query company_id top_k document_id s = (Returned [], s).
Proof.
  unfold perform_semantic_search. intros [->|(v & -> & Hv)]; [reflexivity|].
  destruct (len v =? 768) eqn:E; [lia|]. reflexivity.
Qed.

End WithServices.
End SearchShape.

Module QuoteBounds.
Import Py PyFacts StrFacts Rag Spec QuoteFacts StripFacts.
Import RagSpec.

Lemma len_firstn_le {A} (n : nat) (x : list A) : len (firstn n x) <= len x.
Proof. unfold len. rewrite length_firstn. lia. Qed.

Lemma len_rstrip_le (x : str) : len (rstrip x) <= len x.
Proof.
  destruct (rstrip_prefix x) as [q H]. rewrite H at 2. rewrite len_app.
  pose proof (len_nonneg q). lia.
Qed.

Lemma truncate_bound (max_length : Z) (x : str) :
  0 <= max_length ->
  truncate max_length x <> [] /\ len (truncate max_length x) <= max_length + 3.
Proof.
  intros H. unfold truncate.
  assert (L : len (slice_to x max_length) <= max_length).
  { rewrite len_slice_to by exact H. lia. }
  destruct (PrimFloat.ltb _ _).
  - split; [intros E; apply app_eq_nil in E as [_ E]; discriminate|].
    rewrite len_app. unfold slice_to at 1.
    pose proof (len_firstn_le (clamp (rfind_char (slice_to x max_length) Chunking.sp)
                                 (len (slice_to x max_length))) (slice_to x max_length)).
    change (len ellipsis) with 3. lia.
  - split; [intros E; apply app_eq_nil in E as [_ E]; discriminate|].
    rewrite len_app. pose proof (len_rstrip_le (slice_to x max_length)).
    change (len ellipsis) with 3. lia.
Qed.

Lemma reconstruct_nonempty (q : str) (n : nat) :
  forall sentences, (length sentences <= n)%nat -> In q (reconstruct sentences) -> q <> [].
Proof.
  induction n as [|n IH]; intros sentences Hl H.
  - destruct sentences; [destruct H|cbn in Hl; lia].
  - destruct sentences as [|a [|b rest]]; [destruct H|destruct H|].
    cbn [reconstruct] in H. apply in_app_or in H as [H|H].
    + destruct (strip (a ++ b)) eqn:E; cbn [truthy] in H; [destruct H|].
      destruct H as [<-|[]]. discriminate.
    + apply (IH rest); [cbn in Hl; lia|exact H].
Qed.


Lemma pick_quotes_bounds (max_quotes max_length : Z) (sentences : list str) :
  0 <= max_length ->
  forall quotes,
  Forall (fun q => q <> []) sentences ->
  Forall (quote_ok max_length) quotes -> len quotes < max_quotes ->
  Forall (quote_ok max_length) (pick_quotes max_quotes max_length sentences quotes) /\
  len (pick_quotes max_quotes max_length sentences quotes) <= max_quotes.
Proof.
  intros Hm. induction sentences as [|x sentences IH]; intros quotes Hs Hq Hl;
    cbn [pick_quotes].
  - split; [exact Hq|lia].
  - inversion Hs as [|? ? Hx Hs']; subst.
    destruct (len x <=? max_length) eqn:E.
    + assert (Hq' : Forall (quote_ok max_length) (quotes ++ [x])).
      { apply Forall_app. split; [exact Hq|]. constructor; [|constructor].
        split; [exact Hx|lia]. }
      assert (Hl' : len (quotes ++ [x]) = len quotes + 1) by (rewrite len_app; reflexivity).
      destruct (max_quotes <=? len (quotes ++ [x])) eqn:E2.
      * split; [exact Hq'|lia].
      * apply IH; auto. lia.
    + destruct (len quotes =? 0) eqn:E2.
      * split.
        -- apply Forall_app. split; [exact Hq|]. constructor; [|constructor].
           now apply truncate_bound.
        -- rewrite len_app. change (len [truncate max_length x]) with 1. lia.
      * apply IH; auto.
Qed.

Lemma extract_quotes_bounded (chunk_text : str) (max_quotes max_length : Z) :
  1 <= max_quotes -> 0 <= max_length ->
  len (_extract_quotes chunk_text max_quotes max_length) <= max_quotes /\
  (strip chunk_text = [] <-> _extract_quotes chunk_text max_quotes max_length = []) /\
  Forall (quote_ok max_length) (_extract_quotes chunk_text max_quotes max_length).
Proof.
  intros Hq Hm. unfold _extract_quotes.
  destruct (negb (truthy chunk_text) || negb (truthy (strip chunk_text)))%bool eqn:B.
  - split; [cbn; lia|]. split; [|constructor]. split; [reflexivity|intros _].
    destruct chunk_text; [reflexivity|]. cbn [truthy negb orb] in B.
    destruct (strip (c :: chunk_text)); [reflexivity|discriminate].
  - assert (Hn : strip chunk_text <> []).
    { apply orb_false_elim in B as [_ B]. destruct (strip chunk_text); [discriminate|discriminate]. }
    set (reconstructed := reconstruct (Re.split_keep re_quote_delim (strip chunk_text))).
    assert (Hr : Forall (fun q => q <> []) reconstructed).
    { apply Forall_forall. intros q H. eapply reconstruct_nonempty; [apply Nat.le_refl|exact H]. }
    destruct (@pick_quotes_bounds max_quotes max_length reconstructed Hm [] Hr) as [P1 P2];
      [constructor|cbn; lia|].
    set (quotes := if truthy reconstructed
                   then pick_quotes max_quotes max_length reconstructed [] else []).
    assert (Q : Forall (quote_ok max_length) quotes /\ len quotes <= max_quotes).
    { unfold quotes. destruct (truthy reconstructed); [auto|]. split; [constructor|cbn; lia]. }
    destruct Q as [Q1 Q2].
    destruct quotes as [|q0 qs] eqn:EQ; cbn [truthy].
    + destruct (max_length <? len (strip chunk_text)) eqn:E.
      * split; [cbn; lia|]. split; [split; [contradiction|discriminate]|].
        constructor; [|constructor]. now apply truncate_bound.
      * split; [cbn; lia|]. split; [split; [contradiction|discriminate]|].
        constructor; [|constructor]. split; [exact Hn|lia].
    + assert (S : slice_to (q0 :: qs) max_quotes = q0 :: qs).
      { unfold slice_to, clamp. destruct (max_quotes <? 0) eqn:E; [lia|].
        apply firstn_all2. unfold len in *. lia. }
      rewrite S. split; [exact Q2|]. split; [split; [contradiction|discriminate]|exact Q1].
Qed.

End QuoteBounds.

Module SourceShape.
Import Py PyFacts StrFacts Db Rag Spec DbFacts SearchFacts SourceFacts QuoteFacts QuoteBounds AnswerFacts.
Import RagSpec.


Lemma lookup_none (d : sources_dict) (k : source_key) :
  lookup d k = None -> ~ In k (map fst d).
Proof.
  induction d as [|[k' v] d IH]; cbn [lookup map fst]; [auto|].
  destruct (key_eqb k' k) eqn:E; [discriminate|].
  intros H [->|H']; [now rewrite key_eqb_refl in E|]. now apply IH.
Qed.

Lemma assign_keys (d : sources_dict) (k : source_key) (e v : Entry.t) :
  lookup d k = Some e -> map fst (assign d k v) = map fst d.
Proof.
  induction d as [|[k' v'] d IH]; cbn [lookup assign]; [discriminate|].
  destruct (key_eqb k' k) eqn:E; [reflexivity|].
  intros H. cbn [map fst]. now rewrite IH.
Qed.

Lemma merge_quotes_length (relevant : list str) :
  forall existing, len existing <= len (merge_quotes existing relevant).
Proof.
  unfold merge_quotes. induction relevant as [|r relevant IH]; intros existing;
    cbn [fold_left]; [lia|].
  destruct (is_duplicate r existing); [apply IH|].
  specialize (IH (existing ++ [r])). rewrite len_app in IH.
  pose proof (len_nonneg [r]). lia.
Qed.

Lemma insert_len_length (x : str) (l : list str) :
  length (insert_len x l) = S (length l).
Proof.
  induction l as [|y l IH]; cbn [insert_len]; [reflexivity|].
  destruct (len y <? len x); cbn [length]; [now rewrite IH|reflexivity].
Qed.

Lemma sort_by_len_length (l : list str) : length (sort_by_len l) = length l.
Proof.
  unfold sort_by_len. induction l as [|x l IH]; cbn [fold_right]; [reflexivity|].
  now rewrite insert_len_length, IH.
Qed.

Lemma cap_quotes_length (l : list str) :
  1 <= len l -> 1 <= len (cap_quotes l) <= 3.
Proof.
  intros H. unfold cap_quotes. destruct (3 <? len l) eqn:E; [|lia].
  unfold slice_to, clamp, len in *. cbn [Z.ltb Z.compare]. rewrite length_firstn.
  rewrite !sort_by_len_length. lia.
Qed.

Lemma filter_length_le {A} (f : A -> bool) (l : list A) : len (filter f l) <= len l.
Proof.
  unfold len. induction l as [|a l IH]; cbn [filter length]; [lia|].
  destruct (f a); cbn [length]; lia.
Qed.

Lemma source_step_shape (answer_keywords : list str) (d : sources_dict) (chunk : Hit.t) :
  shape d ->
  shape (source_step answer_keywords d chunk) /\
  (length (source_step answer_keywords d chunk) <= S (length d))%nat.
Proof.
  intros [N S]. unfold source_step.
  set (key := (Hit.document_id chunk, Hit.heading chunk)).
  set (relevant := filter _ _).
  assert (R2 : len relevant <= 2).
  { unfold relevant.
    pose proof (filter_length_le (fun quote => _quote_is_relevant quote answer_keywords)
                  (_extract_quotes (Hit.text chunk) 2 220)).
    destruct (@extract_quotes_bounded (Hit.text chunk) 2 220) as [B _]; lia. }
  destruct relevant as [|q0 qs] eqn:ER; cbn [truthy negb]; [split; [split; auto|lia]|].
  rewrite <- ER in *.
  assert (R1 : 1 <= len relevant) by (rewrite ER; unfold len; cbn [length]; lia).
  destruct (lookup d key) as [e0|] eqn:L.
  - split.
    + split; [now rewrite (assign_keys _ _ _ L)|].
      intros k e H. apply assign_in in H as [H|[-> ->]]; [now apply S|].
      apply lookup_some in L. destruct (S _ _ L) as [K0 Q0].
      cbn [Entry.document_id Entry.heading Entry.quotes]. split; [exact K0|].
      apply cap_quotes_length.
      pose proof (merge_quotes_length relevant (Entry.quotes e0)). lia.
    + assert (E : length (assign d key
                    (Entry.mk (Entry.document_id e0) (Entry.document_filename e0)
                       (Entry.heading e0)
                       (cap_quotes (merge_quotes (Entry.quotes e0) relevant))
                       (Entry.chunk_index e0)
                       (if PrimFloat.ltb (Entry.similarity_score e0)
                                         (Hit.similarity_score chunk)
                        then Hit.similarity_score chunk
                        else Entry.similarity_score e0))) = length d).
      { rewrite <- (length_map fst), (assign_keys _ _ _ L). apply length_map. }
      rewrite E. lia.
  - split.
    + split.
      * rewrite map_app. cbn [map fst]. apply NoDup_app; [exact N|repeat constructor; auto|].
        intros k Hk [<-|[]]. now apply lookup_none in L.
      * intros k e H. apply in_app_or in H as [H|[[= <- <-]|[]]]; [now apply S|].
        cbn [Entry.document_id Entry.heading Entry.quotes]. split; [reflexivity|lia].
    + rewrite length_app. cbn [length]. lia.
Qed.

Lemma fold_source_step_shape (answer_keywords : list str) (l : list Hit.t) :
  forall d, shape d ->
  shape (fold_left (source_step answer_keywords) l d) /\
  (length (fold_left (source_step answer_keywords) l d) <= length l + length d)%nat.
Proof.
  induction l as [|c l IH]; intros d H; cbn [fold_left]; [split; [exact H|cbn; lia]|].
  destruct (source_step_shape answer_keywords c H) as [H1 H2].
  destruct (IH _ H1) as [H3 H4]. split; [exact H3|]. cbn [length]. lia.
Qed.

Lemma insert_desc_length {A} (key : A -> float) (x : A) (l : list A) :
  length (insert_desc key x l) = S (length l).
Proof.
  induction l as [|y l IH]; cbn [insert_desc]; [reflexivity|].
  destruct (PrimFloat.ltb _ _); cbn [length]; [now rewrite IH|reflexivity].
Qed.

Lemma order_by_desc_length {A} (key : A -> float) (l : list A) :
  length (order_by_desc key l) = length l.
Proof.
  unfold order_by_desc. induction l as [|x l IH]; cbn [fold_right]; [reflexivity|].
  now rewrite insert_desc_length, IH.
Qed.

Lemma insert_desc_nodup {A B} (f : A -> B) (key : A -> float) (x : A) (l : list A) :
  NoDup (map f (x :: l)) -> NoDup (map f (insert_desc key x l)).
Proof.
  induction l as [|y l IH]; cbn [insert_desc]; [auto|].
  destruct (PrimFloat.ltb _ _); [|auto].
  intros H. cbn [map] in *. inversion H as [|? ? Hx H']; subst.
  inversion H' as [|? ? Hy H'']; subst. constructor.
  - intros Hin. apply in_map_iff in Hin as (z & Ez & Hz).
    apply insert_desc_in in Hz as [->|Hz].
    + apply Hx. left. now symmetry.
    + apply Hy. apply in_map_iff. eauto.
  - apply IH. constructor; [|exact H'']. intros Hin. apply Hx. now right.
Qed.

Lemma order_by_desc_nodup {A B} (f : A -> B) (key : A -> float) (l : list A) :
  NoDup (map f l) -> NoDup (map f (order_by_desc key l)).
Proof.
  unfold order_by_desc. induction l as [|x l IH]; cbn [fold_right]; [auto|].
  intros H. apply insert_desc_nodup. cbn [map] in *.
  inversion H as [|? ? Hx H']; subst. constructor; [|auto].
  intros Hin. apply Hx. apply in_map_iff in Hin as (z & Ez & Hz).
  apply order_by_desc_in in Hz. apply in_map_iff. eauto.
Qed.

Section WithServices.
Variable ollama_chat : str -> option str.
Variable settings : Config.Settings.


Lemma answer_from_sources (query : str) (chunks : list Hit.t)
  (ans : str) (cits : list Citation.t) (srcs : list Source.t) (conf : str) (n : Z) :
  answer_from ollama_chat settings query chunks = (ans, cits, srcs, conf, n) ->
  NoDup (map source_key_of srcs) /\
  map citation_key_of cits = map source_key_of srcs /\
  len srcs <= n /\ n <= len chunks /\
  Forall (fun src => 1 <= len (Source.quotes src) <= 3) srcs.
Proof.
  unfold answer_from.
  assert (Z0 : NoDup (map source_key_of []) /\
               map citation_key_of [] = map source_key_of [] /\
               len (@nil Source.t) <= 0 /\ 0 <= len chunks /\
               Forall (fun src => 1 <= len (Source.quotes src) <= 3) []).
  { pose proof (len_nonneg chunks). repeat split; try constructor; cbn; lia. }
  destruct chunks as [|first others]; [intros [= _ <- <- _ <-]; exact Z0|].
  destruct (PrimFloat.ltb _ 0.3%float); [intros [= _ <- <- _ <-]; exact Z0|].
  destruct (Llm.generate ollama_chat _) as [[|c raw]|];
    try (intros [= _ <- <- _ <-]; exact Z0).
  clear Z0. intros [= _ <- <- _ <-].
  set (kw := _extract_answer_keywords _).
  destruct (@fold_source_step_shape kw (first :: others) []) as [[N S] L].
  { split; [constructor|intros k e []]. }
  set (d := fold_left (source_step kw) (first :: others) []) in *.
  split; [|split; [|split; [|split]]].
  - rewrite map_map. apply order_by_desc_nodup. rewrite map_map.
    erewrite map_ext_in; [exact N|]. intros [k e] H. cbn.
    now destruct (S _ _ H).
  - now rewrite !map_map.
  - unfold len. rewrite length_map, order_by_desc_length, length_map.
    cbn [length] in L |- *.
    change (fold_left (source_step kw) others (source_step kw [] first)) with d. lia.
  - apply Z.le_refl.
  - apply Forall_forall. intros src H. apply in_map_iff in H as (e & <- & He).
    apply order_by_desc_in, in_map_iff in He as ([k e'] & E & He). cbn [snd] in E. subst e'.
    cbn [Source.quotes]. now destruct (S _ _ He).
Qed.

End WithServices.
End SourceShape.

Module PromptFacts.
Import Py PyFacts StrFacts Db Rag Spec DbFacts SearchFacts StripFacts SearchShape.

Lemma strip_nonblank (c : char) (x : str) : is_space c = false -> strip (c :: x) <> [].
Proof.
  intros Hc. unfold strip, lstrip, rstrip.
  destruct (@dropwhile_last _ is_space (rev (c :: x)) c x) as [_ [z Hz]];
    [apply rev_involutive|exact Hc|].
  rewrite Hz. cbn [dropwhile]. rewrite Hc. discriminate.
Qed.

Lemma strip_truthy (c : char) (x : str) :
  is_space c = false -> truthy (strip (c :: x)) = true.
Proof.
  intros H. apply strip_nonblank with (x := x) in H.
  destruct (strip (c :: x)); [congruence|reflexivity].
Qed.

Lemma system_prompt_head : exists rest, system_prompt = 89%N :: rest.
Proof. exists (tl system_prompt). vm_compute. reflexivity. Qed.

Section WithServices.
Variable ollama_embed : str -> option Embeddings.vector.
Variable ollama_chat : str -> option str.
Variable cosine_distance : Embeddings.vector -> Embeddings.vector -> float.
Variable ts_rank_cd : str -> str -> option float.
Variable settings : Config.Settings.

Lemma prompt_nonblank (chunks : list Hit.t) (query : str) :
  truthy (build_rag_prompt settings chunks query) = true /\
  truthy (strip (build_rag_prompt settings chunks query)) = true.
Proof.
  unfold build_rag_prompt. destruct system_prompt_head as [rest ->].
  cbn [app truthy]. split; [reflexivity|].
  apply strip_truthy. reflexivity.
Qed.

Lemma prompt_length (chunks : list Hit.t) (query : str) :
  0 <= Config.RAG_MAX_CONTEXT_CHARS settings ->
  len (build_rag_prompt settings chunks query)
  <= len (build_rag_prompt settings [] query) + Config.RAG_MAX_CONTEXT_CHARS settings + 28.
Proof.
  intros H. unfold build_rag_prompt. cbn [fold_left].
  set (block := fold_left _ chunks []).
  change (len (@nil char)) with 0.
  destruct (Config.RAG_MAX_CONTEXT_CHARS settings <? 0) eqn:E0;
    [exfalso; apply Z.ltb_lt in E0; lia|].
  rewrite !len_app. cbn [app]. change (len (@nil char)) with 0.
  destruct (Config.RAG_MAX_CONTEXT_CHARS settings <? len block) eqn:E.
  - rewrite !len_app, len_slice_to by exact H.
    change (len (Chunking.nl :: txt "[... context truncated ...]")) with 28. lia.
  - lia.
Qed.

Lemma answer_from_no_reply (query : str) (first : Hit.t) (others : list Hit.t) :
  PrimFloat.ltb (py_max (Hit.similarity_score first) (map Hit.similarity_score others))
                0.3%float = false ->
  (ollama_chat (build_rag_prompt settings (first :: others) query) = None \/
   exists reply,
     ollama_chat (build_rag_prompt settings (first :: others) query) = Some reply /\
     strip reply = []) ->
  answer_from ollama_chat settings query (first :: others)
  = (generation_error, [], [], txt "error", 0).
Proof.
  intros Hm Hr. unfold answer_from. rewrite Hm. unfold Llm.generate.
  destruct (prompt_nonblank (first :: others) query) as [-> ->]. cbn [negb orb].
  destruct Hr as [->|(reply & -> & Hs)]; [reflexivity|].
  destruct reply; cbn [truthy]; [reflexivity|]. now rewrite Hs.
Qed.

Lemma embed_blank (text : str) :
  strip text = [] -> Embeddings.embed ollama_embed text = None.
Proof.
  intros H. unfold Embeddings.embed. rewrite H. cbn [truthy negb]. now rewrite orb_true_r.
Qed.

Lemma answer_question_unembeddable (query company_id : str) (top_k : option Z)
  (s : session) :
  strip query = [] \/ ollama_embed query = None \/
  (exists v, ollama_embed query = Some v /\ len v <> 768) ->
  answer_question ollama_embed ollama_chat cosine_distance ts_rank_cd settings
    query company_id top_k s
  = (Returned (no_information, [], [], txt "none", 0), s).
Proof.
  intros H. unfold answer_question. cbv zeta. unfold bind.
  rewrite search_unembeddable; [reflexivity|].
  destruct H as [H|[H|(v & H & Hv)]].
  - left. now apply embed_blank.
  - left. unfold Embeddings.embed. rewrite H. now destruct (_ || _)%bool.
  - unfold Embeddings.embed. rewrite H.
    destruct (_ || _)%bool; [now left|].
    destruct v; cbn [truthy]; [now left|]. right. eauto.
Qed.

End WithServices.
End PromptFacts.

Module SqueezeFacts.
Import Py PyFacts StrFacts Re ReFacts Rag Spec QuoteFacts StripFacts ContainsFacts.
Import ReSpec.

Lemma sub_aux_skipn (r : regex) (repl : str) (suf : str) :
  forall pre k, (k <= length suf)%nat ->
  sub_aux r repl pre suf k = sub_aux r repl (rev (firstn k suf) ++ pre) (skipn k suf) O.
Proof.
  induction suf as [|c suf IH]; intros pre k Hk.
  - destruct k; [reflexivity|cbn in Hk; lia].
  - destruct k as [|k]; [reflexivity|]. cbn [sub_aux firstn skipn rev].
    rewrite IH by (cbn in Hk; lia). now rewrite <- app_assoc.
Qed.

(** A greedy repetition of one character class before nothing else runs
    to the end of the run. *)
Lemma star_cls_run (p : char -> bool) (suf : str) :
  forall n pre, (length suf < n)%nat ->
  exists q, star_loop (m (Cls p)) (fun p s => Some (p, s)) n pre suf
            = Some (q, dropwhile p suf).
Proof.
  induction suf as [|c suf IH]; intros n pre Hn.
  - destruct n; [cbn in Hn; lia|]. cbn. eauto.
  - destruct n as [|n]; [cbn in Hn; lia|]. cbn [star_loop m dropwhile].
    destruct (p c) eqn:E; [|eauto].
    assert (L : (length suf <? length (c :: suf))%nat = true)
      by (apply Nat.ltb_lt; cbn; lia).
    rewrite L. cbv beta iota. destruct (IH n (c :: pre)) as [q Hq]; [cbn in Hn; lia|].
    cbn [m] in Hq. rewrite Hq. eauto.
Qed.


Lemma spaces2_match (pre t : str) :
  exists q, match_at re_spaces2 pre (Chunking.sp :: Chunking.sp :: t)
            = Some (q, dropwhile is_sp t).
Proof.
  unfold match_at, re_spaces2, at_least. cbn [rep m].
  change (chr_is Chunking.sp Chunking.sp) with true. cbv iota.
  apply star_cls_run. lia.
Qed.

Lemma spaces2_no_match (pre suf : str) :
  (forall t, suf <> Chunking.sp :: Chunking.sp :: t) ->
  match_at re_spaces2 pre suf = None.
Proof.
  intros H. unfold match_at, re_spaces2, at_least. cbn [rep m].
  destruct suf as [|a [|b t]]; [reflexivity| |].
  - now destruct (chr_is Chunking.sp a).
  - destruct (chr_is Chunking.sp a) eqn:Ea; [|reflexivity].
    destruct (chr_is Chunking.sp b) eqn:Eb; [|reflexivity].
    apply N.eqb_eq in Ea, Eb. subst. now elim (H t).
Qed.

Lemma dropwhile_skipn {A} (f : A -> bool) (x : list A) :
  skipn (length x - length (dropwhile f x)) x = dropwhile f x.
Proof.
  induction x as [|a x IH]; [reflexivity|]. cbn [dropwhile].
  destruct (f a).
  - pose proof (dropwhile_length f x).
    replace (length (a :: x) - length (dropwhile f x))%nat
      with (S (length x - length (dropwhile f x))) by (cbn [length]; lia).
    exact IH.
  - now rewrite Nat.sub_diag.
Qed.


Lemma contains_cons (c : char) (x sub : str) :
  contains (c :: x) sub = (startswith (c :: x) sub || contains x sub)%bool.
Proof.
  unfold contains. cbn [index_of].
  destruct (startswith (c :: x) sub); [reflexivity|].
  now destruct (index_of x sub).
Qed.

Lemma squeeze_spaces (n : nat) :
  forall suf pre, (length suf <= n)%nat ->
  contains (sub_aux re_spaces2 [Chunking.sp] pre suf O) [Chunking.sp; Chunking.sp] = false /\
  (head_sp (sub_aux re_spaces2 [Chunking.sp] pre suf O) = true -> head_sp suf = true).
Proof.
  induction n as [|n IH]; intros suf pre Hn.
  - destruct suf; [|cbn in Hn; lia]. cbn [sub_aux].
    rewrite spaces2_no_match by (intros t; discriminate). split; [reflexivity|auto].
  - destruct suf as [|c suf]; cbn [sub_aux].
    { rewrite spaces2_no_match by (intros t; discriminate). split; [reflexivity|auto]. }
    destruct (N.eqb_spec Chunking.sp c) as [<-|Hc].
    + destruct suf as [|b t].
      { rewrite spaces2_no_match by (intros t; discriminate).
        cbn [sub_aux]. rewrite spaces2_no_match by (intros t; discriminate).
        split; reflexivity. }
      destruct (N.eqb_spec Chunking.sp b) as [<-|Hb].
      * destruct (spaces2_match pre t) as [q ->].
        set (rest := dropwhile is_sp t).
        assert (Hl : (length rest <= length t)%nat) by apply dropwhile_length.
        assert (Hc : consumed (Chunking.sp :: Chunking.sp :: t) rest
                     = S (S (length t - length rest))).
        { unfold consumed. cbn [length]. lia. }
        rewrite Hc. rewrite sub_aux_skipn by (cbn [length]; lia).
        cbn [skipn]. unfold rest at 2. rewrite dropwhile_skipn. fold rest.
        match goal with |- context [sub_aux _ _ ?p rest O] =>
          destruct (IH rest p) as [I1 I2]; [cbn in Hn; lia|];
          set (out := sub_aux re_spaces2 [Chunking.sp] p rest O) in * end.
        assert (Hh : head_sp out = false).
        { destruct (head_sp out) eqn:E; [|reflexivity]. specialize (I2 eq_refl).
          pose proof (dropwhile_head is_sp t) as D. fold rest in D.
          unfold head_sp, head_is in I2. destruct rest; [discriminate|congruence]. }
        cbn [app]. split; [|reflexivity].
        rewrite contains_cons, I1, orb_false_r. cbn [startswith].
        unfold head_sp, head_is, is_sp, chr_is in Hh.
        destruct out as [|o out']; [reflexivity|]. cbn [startswith].
        rewrite Hh. now rewrite andb_false_r.
      * rewrite spaces2_no_match by (intros t' [= E _]; congruence).
        destruct (IH (b :: t) (Chunking.sp :: pre)) as [I1 I2]; [cbn in Hn |- *; lia|].
        set (out := sub_aux re_spaces2 [Chunking.sp] (Chunking.sp :: pre) (b :: t) O) in *.
        split; [|reflexivity].
        rewrite contains_cons, I1, orb_false_r. cbn [startswith].
        destruct out as [|o out'] eqn:EO; [reflexivity|]. cbn [startswith].
        destruct (N.eqb_spec Chunking.sp o) as [<-|Ho]; [|now rewrite andb_false_r].
        assert (K : head_sp (b :: t) = true) by (apply I2; reflexivity).
        unfold head_sp, head_is, is_sp, chr_is in K. apply N.eqb_eq in K. congruence.
    + rewrite spaces2_no_match by (intros t' [= E _]; congruence).
      destruct (IH suf (c :: pre)) as [I1 I2]; [cbn in Hn; lia|].
      set (out := sub_aux re_spaces2 [Chunking.sp] (c :: pre) suf O) in *.
      split.
      * rewrite contains_cons, I1, orb_false_r. cbn [startswith].
        destruct (N.eqb_spec Chunking.sp c); [congruence|reflexivity].
      * unfold head_sp, head_is, is_sp, chr_is.
        destruct (N.eqb_spec Chunking.sp c); [congruence|discriminate].
Qed.

Lemma clean_answer_squeezed (answer : str) :
  contains (_clean_answer_text answer) [Chunking.sp; Chunking.sp] = false /\
  strip (_clean_answer_text answer) = _clean_answer_text answer.
Proof.
  unfold _clean_answer_text. destruct answer as [|c answer]; cbn [truthy negb].
  { split; reflexivity. }
  split; [|apply strip_idem].
  eapply contains_infix; [apply strip_is_infix|].
  unfold Re.sub at 1. eapply squeeze_spaces. apply Nat.le_refl.
Qed.

End SqueezeFacts.

Module DocumentsFacts.
Import Py PyFacts StrFacts ReFacts ContainsFacts Documents.

Lemma str_eqb_sym (x y : str) : str_eqb x y = str_eqb y x.
Proof.
  destruct (str_eqb x y) eqn:E.
  - apply str_eqb_eq in E as ->. symmetry. apply str_eqb_refl.
  - destruct (str_eqb y x) eqn:E'; [|reflexivity].
    apply str_eqb_eq in E' as ->. now rewrite str_eqb_refl in E.
Qed.

Lemma validate_mime_type_is_extension_check (mime_type filename : str) :
  validate_mime_type mime_type filename
  = is_allowed_extension ALLOWED_EXTENSIONS filename.
Proof.
  unfold validate_mime_type, is_allowed_extension. cbv zeta.
  set (ext := get_file_extension filename).
  unfold mime_map, ALLOWED_EXTENSIONS, in_list at 2. cbn [mime_get map existsb].
  rewrite (str_eqb_sym ext (txt "pdf")), (str_eqb_sym ext (txt "docx")),
          (str_eqb_sym ext (txt "txt")).
  destruct (str_eqb (txt "pdf") ext).
  { cbn [truthy negb orb]. now rewrite orb_true_r. }
  destruct (str_eqb (txt "docx") ext).
  { cbn [truthy negb orb]. now rewrite orb_true_r. }
  destruct (str_eqb (txt "txt") ext).
  { cbn [truthy negb orb]. now rewrite orb_true_r. }
  reflexivity.
Qed.

Lemma contains_char_absent (a : char) (x : str) :
  Forall (fun c => c <> a) x -> contains x [a] = false.
Proof.
  intros H. apply contains_false. intros p b ->.
  apply Forall_app in H as [_ H]. destruct b as [|c b]; [reflexivity|].
  cbn [startswith]. inversion H; subst.
  destruct (N.eqb_spec a c); [congruence|reflexivity].
Qed.

Lemma rfind_char_aux_absent (x : str) (c : char) :
  forall i best, Forall (fun a => a <> c) x -> rfind_char_aux x c i best = best.
Proof.
  induction x as [|a x IH]; intros i best H; cbn [rfind_char_aux]; [reflexivity|].
  inversion H; subst. rewrite IH by assumption.
  destruct (N.eqb_spec a c); [congruence|reflexivity].
Qed.

Lemma rfind_char_last (a b : str) (c : char) :
  Forall (fun x => x <> c) b -> rfind_char (a ++ c :: b) c = len a.
Proof.
  intros H. unfold rfind_char.
  assert (G : forall i best, rfind_char_aux (a ++ c :: b) c i best = i + len a).
  { induction a as [|x a IH]; intros i best.
    - cbn [app rfind_char_aux]. rewrite N.eqb_refl.
      rewrite rfind_char_aux_absent by assumption. cbn. lia.
    - cbn [app rfind_char_aux]. rewrite IH. unfold len. cbn [length]. lia. }
  now rewrite G.
Qed.

Lemma lower_char_dot (c : char) : c <> dot -> lower_char c <> dot.
Proof.
  unfold lower_char. destruct (is_upper_char c) eqn:E; [|auto].
  intros _ H. assert (c = 14%N) by (unfold dot in H; lia). subst. discriminate.
Qed.

Lemma get_file_extension_simple (stem ext : str) :
  stem <> [] -> ext <> [] ->
  Forall (fun c => c <> slash) (stem ++ ext) -> Forall (fun c => c <> dot) ext ->
  get_file_extension (stem ++ [dot] ++ ext) = lower ext.
Proof.
  intros Hs He Hsl Hd. cbn [app].
  assert (Hname : path_name (stem ++ dot :: ext) = stem ++ dot :: ext).
  { unfold path_name, Py.split. rewrite split_absent.
    2:{ apply contains_char_absent. apply Forall_app in Hsl as [H1 H2].
        apply Forall_app. split; [exact H1|]. constructor; [discriminate|exact H2]. }
    cbn [rev app filter].
    destruct stem as [|c stem]; [congruence|]. cbn [app truthy andb str_eqb].
    destruct (stem ++ dot :: ext) eqn:E; [now destruct stem|].
    rewrite andb_false_r. reflexivity. }
  unfold get_file_extension, path_suffix. rewrite Hname.
  rewrite rfind_char_last by assumption.
  assert (L : len (stem ++ dot :: ext) = len stem + 1 + len ext).
  { rewrite len_app. unfold len. cbn [length]. lia. }
  assert (L1 : 0 < len stem) by (destruct stem; [congruence|unfold len; cbn [length]; lia]).
  assert (L2 : 0 < len ext) by (destruct ext; [congruence|unfold len; cbn [length]; lia]).
  destruct (0 <? len stem) eqn:E1; [|lia].
  destruct (len stem <? len (stem ++ dot :: ext) - 1) eqn:E2; [|lia].
  cbn [andb]. unfold slice_from, clamp.
  destruct (len stem <? 0) eqn:E3; [lia|].
  replace (Z.to_nat (Z.min (len stem) (len (stem ++ dot :: ext)))) with (length stem)
    by (unfold len in *; lia).
  rewrite skipn_app_exact. unfold lower. cbn [map].
  change (lower_char dot) with dot. unfold lstrip_dots. cbn [dropwhile].
  rewrite N.eqb_refl. destruct ext as [|c ext]; [congruence|]. cbn [map dropwhile].
  inversion Hd; subst.
  destruct (N.eqb_spec dot (lower_char c)) as [E|]; [|reflexivity].
  symmetry in E. now apply lower_char_dot in E.
Qed.

End DocumentsFacts.

(** ** Which chunks contribute a source *)

Module ContributionFacts.
Import Py PyFacts StrFacts Db Rag Spec DbFacts SearchFacts SourceFacts QuoteFacts AnswerFacts.
Import SourceShape RagSpec.

Lemma key_eqb_neq (a b : source_key) : a <> b -> key_eqb a b = false.
Proof.
  intros H. destruct (key_eqb a b) eqn:E; [|reflexivity].
  now apply key_eqb_eq in E.
Qed.

Lemma lookup_in_keys (d : sources_dict) (k : source_key) (e : Entry.t) :
  lookup d k = Some e -> In k (map fst d).
Proof.
  intros H. apply lookup_some in H. apply in_map_iff. now exists (k, e).
Qed.

Lemma lookup_app_other (d : sources_dict) (k key : source_key) (e : Entry.t) :
  k <> key -> lookup (d ++ [(k, e)]) key = lookup d key.
Proof.
  intros H. induction d as [|[k' v] d IH]; cbn [app lookup].
  - now rewrite key_eqb_neq.
  - now rewrite IH.
Qed.

Lemma lookup_app_new (d : sources_dict) (k : source_key) (e : Entry.t) :
  lookup d k = None -> lookup (d ++ [(k, e)]) k = Some e.
Proof.
  induction d as [|[k' v] d IH]; cbn [app lookup].
  - now rewrite key_eqb_refl.
  - destruct (key_eqb k' k); [discriminate|exact IH].
Qed.

Lemma lookup_assign_other (d : sources_dict) (k key : source_key) (e : Entry.t) :
  k <> key -> lookup (assign d k e) key = lookup d key.
Proof.
  intros H. induction d as [|[k' v] d IH]; cbn [assign lookup].
  - now rewrite key_eqb_neq.
  - destruct (key_eqb k' k) eqn:E; cbn [lookup].
    + apply key_eqb_eq in E. subst k'. now rewrite key_eqb_neq.
    + now rewrite IH.
Qed.

(** The keys of [sources_map] after one chunk. *)
Lemma source_step_keys (answer_keywords : list str) (d : sources_dict) (chunk : Hit.t)
  (k : source_key) :
  In k (map fst (source_step answer_keywords d chunk)) <->
  In k (map fst d) \/ (k = hit_key chunk /\ relevant_quotes answer_keywords chunk <> []).
Proof.
  unfold source_step. fold (hit_key chunk). fold (relevant_quotes answer_keywords chunk).
  destruct (relevant_quotes answer_keywords chunk) as [|q0 qs] eqn:ER;
    cbn [truthy negb].
  - split; [now left|]. intros [H|[_ H]]; [exact H|congruence].
  - destruct (lookup d (hit_key chunk)) as [e0|] eqn:L.
    + rewrite (assign_keys _ _ _ L). split; [now left|].
      intros [H|[-> _]]; [exact H|]. now apply lookup_in_keys in L.
    + rewrite map_app, in_app_iff. cbn [map fst In]. split.
      * intros [H|[<-|[]]]; [now left|]. right. split; [reflexivity|discriminate].
      * intros [H|[-> _]]; [now left|]. right. now left.
Qed.

Lemma fold_source_step_keys (answer_keywords : list str) (l : list Hit.t) :
  forall (d : sources_dict) (k : source_key),
  In k (map fst (fold_left (source_step answer_keywords) l d)) <->
  In k (map fst d) \/
  exists chunk, In chunk l /\ hit_key chunk = k /\
                relevant_quotes answer_keywords chunk <> [].
Proof.
  induction l as [|c l IH]; intros d k; cbn [fold_left].
  - split; [now left|]. intros [H|(c & [] & _)]. exact H.
  - rewrite IH, source_step_keys. split.
    + intros [[H|[-> H]]|(c' & H1 & H2 & H3)].
      * now left.
      * right. exists c. split; [now left|]. auto.
      * right. exists c'. split; [now right|]. auto.
    + intros [H|(c' & [<-|H1] & H2 & H3)].
      * left. now left.
      * left. right. auto.
      * right. exists c'. auto.
Qed.

(** A chunk filed under another key leaves the entry of [key] as it
    is. *)
Lemma source_step_other (answer_keywords : list str) (d : sources_dict) (chunk : Hit.t)
  (key : source_key) :
  hit_key chunk <> key ->
  lookup (source_step answer_keywords d chunk) key = lookup d key.
Proof.
  intros H. unfold source_step. fold (hit_key chunk).
  fold (relevant_quotes answer_keywords chunk).
  destruct (negb (truthy (relevant_quotes answer_keywords chunk))); [reflexivity|].
  destruct (lookup d (hit_key chunk)) as [e0|].
  - now apply lookup_assign_other.
  - now apply lookup_app_other.
Qed.

(** The first chunk filed under a key brings its relevant quotes. *)
Lemma source_step_first (answer_keywords : list str) (d : sources_dict) (chunk : Hit.t) :
  lookup d (hit_key chunk) = None ->
  relevant_quotes answer_keywords chunk <> [] ->
  exists e, lookup (source_step answer_keywords d chunk) (hit_key chunk) = Some e /\
            Entry.quotes e = relevant_quotes answer_keywords chunk.
Proof.
  intros L R. unfold source_step. fold (hit_key chunk).
  fold (relevant_quotes answer_keywords chunk).
  destruct (relevant_quotes answer_keywords chunk) as [|q0 qs] eqn:ER; [congruence|].
  cbn [truthy negb]. rewrite L. eexists. split; [now apply lookup_app_new|reflexivity].
Qed.

Lemma fold_source_step_other (answer_keywords : list str) (key : source_key)
  (l : list Hit.t) :
  forall d, filter (fun c => key_eqb (hit_key c) key) l = [] ->
  lookup (fold_left (source_step answer_keywords) l d) key = lookup d key.
Proof.
  induction l as [|c l IH]; intros d H; cbn [fold_left]; [reflexivity|].
  cbn [filter] in H. destruct (key_eqb (hit_key c) key) eqn:E; [discriminate|].
  rewrite IH by exact H. apply source_step_other.
  intros <-. now rewrite key_eqb_refl in E.
Qed.

(** The entry of a chunk that is alone under its key holds the relevant
    quotes of that chunk. *)
Lemma fold_source_step_alone (answer_keywords : list str) (chunk : Hit.t)
  (l : list Hit.t) :
  forall d, filter (fun c => key_eqb (hit_key c) (hit_key chunk)) l = [chunk] ->
  lookup d (hit_key chunk) = None ->
  relevant_quotes answer_keywords chunk <> [] ->
  exists e, lookup (fold_left (source_step answer_keywords) l d) (hit_key chunk) = Some e /\
            Entry.quotes e = relevant_quotes answer_keywords chunk.
Proof.
  induction l as [|c l IH]; intros d H L R; cbn [fold_left]; [discriminate|].
  cbn [filter] in H. destruct (key_eqb (hit_key c) (hit_key chunk)) eqn:E.
  - injection H as -> H. rewrite fold_source_step_other by exact H.
    now apply source_step_first.
  - apply IH; [exact H| |exact R]. rewrite source_step_other; [exact L|].
    intros E'. rewrite E', key_eqb_refl in E. discriminate.
Qed.

Lemma alone_only (chunks : list Hit.t) (chunk other : Hit.t) :
  alone chunks chunk -> In other chunks -> hit_key other = hit_key chunk ->
  other = chunk.
Proof.
  unfold alone. intros H Hin E.
  assert (Hf : In other (filter (fun c => key_eqb (hit_key c) (hit_key chunk)) chunks)).
  { apply filter_In. split; [exact Hin|]. rewrite E. apply key_eqb_refl. }
  rewrite H in Hf. destruct Hf as [<-|[]]. reflexivity.
Qed.

Lemma insert_desc_keeps {A} (key : A -> float) (x y : A) (l : list A) :
  y = x \/ In y l -> In y (insert_desc key x l).
Proof.
  induction l as [|z l IH]; cbn [insert_desc].
  - intros [->|[]]. now left.
  - destruct (PrimFloat.ltb (key x) (key z)).
    + intros [->|[->|H]]; [right; apply IH; now left|now left|right; apply IH; now right].
    + intros [->|H]; [now left|now right].
Qed.

Lemma order_by_desc_keeps {A} (key : A -> float) (y : A) (l : list A) :
  In y l -> In y (order_by_desc key l).
Proof.
  unfold order_by_desc. induction l as [|x l IH]; cbn [fold_right]; [auto|].
  intros [->|H]; apply insert_desc_keeps; [now left|right; auto].
Qed.

Section WithServices.
Variable ollama_chat : str -> option str.
Variable settings : Config.Settings.

(** Which chunks contribute a source. *)
Lemma answer_from_contributions (query : str) (chunks : list Hit.t)
  (ans : str) (cits : list Citation.t) (srcs : list Source.t) (conf : str) (n : Z) :
  answer_from ollama_chat settings query chunks = (ans, cits, srcs, conf, n) ->
  (forall key, In key (map source_key_of srcs) ->
     exists chunk, In chunk chunks /\ hit_key chunk = key /\
                   relevant_quotes (_extract_answer_keywords ans) chunk <> []) /\
  (0 < n ->
     (forall chunk, In chunk chunks ->
        relevant_quotes (_extract_answer_keywords ans) chunk <> [] ->
        In (hit_key chunk) (map source_key_of srcs)) /\
     (forall chunk, alone chunks chunk ->
        relevant_quotes (_extract_answer_keywords ans) chunk <> [] ->
        exists src, In src srcs /\ source_key_of src = hit_key chunk /\
                    Source.quotes src
                    = relevant_quotes (_extract_answer_keywords ans) chunk)).
Proof.
  unfold answer_from.
  destruct chunks as [|first others];
    [intros [= _ _ <- _ <-]; split; [intros key []|lia]|].
  destruct (PrimFloat.ltb _ 0.3%float);
    [intros [= _ _ <- _ <-]; split; [intros key []|lia]|].
  destruct (Llm.generate ollama_chat _) as [[|c raw]|];
    try (intros [= _ _ <- _ <-]; split; [intros key []|lia]).
  intros [= <- _ <- _ _].
  set (kw := _extract_answer_keywords _).
  set (d := fold_left (source_step kw) (first :: others) []).
  destruct (@fold_source_step_shape kw (first :: others) []) as [[N S] _].
  { split; [constructor|intros k e []]. }
  fold d in N, S.
  assert (K : forall key,
            In key (map source_key_of
                      (map (fun src => Source.mk (Entry.document_id src)
                                         (Entry.document_filename src) (Entry.heading src)
                                         (Entry.quotes src))
                           (order_by_desc Entry.similarity_score (map snd d)))) <->
            In key (map fst d)).
  { intros key. rewrite map_map. split.
    - intros H. apply in_map_iff in H as (e & <- & He).
      apply order_by_desc_in, in_map_iff in He as ([k e'] & E & He).
      cbn [snd] in E. subst e'. destruct (S _ _ He) as [K0 _].
      unfold source_key_of. cbn [Source.document_id Source.heading].
      rewrite K0. apply in_map_iff. now exists (k, e).
    - intros H. apply in_map_iff in H as ([k e] & <- & He). cbn [fst].
      destruct (S _ _ He) as [K0 _]. apply in_map_iff. exists e. split.
      + unfold source_key_of. cbn [Source.document_id Source.heading]. exact K0.
      + apply order_by_desc_keeps. apply in_map_iff. now exists (k, e). }
  pose proof (@fold_source_step_keys kw (first :: others) []) as F. fold d in F.
  split; [|intros _; split].
  - intros key H. apply K, F in H as [[]|H]. exact H.
  - intros chunk Hc R. apply K, F. right. now exists chunk.
  - intros chunk A R.
    destruct (@fold_source_step_alone kw chunk (first :: others) [] A eq_refl R)
      as (e & L & Q).
    fold d in L. apply lookup_some in L.
    destruct (S _ _ L) as [K0 _].
    exists (Source.mk (Entry.document_id e) (Entry.document_filename e)
              (Entry.heading e) (Entry.quotes e)).
    split; [|split].
    + apply in_map_iff. exists e. split; [reflexivity|].
      apply order_by_desc_keeps. apply in_map_iff. now exists (hit_key chunk, e).
    + unfold source_key_of. cbn [Source.document_id Source.heading]. exact K0.
    + cbn [Source.quotes]. exact Q.
Qed.

(** Chunks were used unless the answer is one of the fixed ones. *)
Lemma answer_from_fixed (query : str) (chunks : list Hit.t)
  (ans : str) (cits : list Citation.t) (srcs : list Source.t) (conf : str) (n : Z) :
  answer_from ollama_chat settings query chunks = (ans, cits, srcs, conf, n) ->
  ans <> no_information -> ans <> not_related -> ans <> generation_error ->
  0 < n.
Proof.
  unfold answer_from.
  destruct chunks as [|first others]; [intros [= <- _ _ _ _]; congruence|].
  destruct (PrimFloat.ltb _ 0.3%float); [intros [= <- _ _ _ _]; congruence|].
  destruct (Llm.generate ollama_chat _) as [[|c raw]|];
    try (intros [= <- _ _ _ _]; congruence).
  intros [= _ _ _ _ <-] _ _ _. unfold len. cbn [length]. lia.
Qed.

End WithServices.

(** No word of three characters in [y]: nothing the specification calls
    a keyword. *)
Lemma has_word3_found (y : str) :
  forall a kw b, y = a ++ kw ++ b -> Forall (fun c => is_word c = true) kw ->
  3 <= len kw -> has_word3 y = true.
Proof.
  induction y as [|c y IH]; intros a kw b E F L.
  - destruct a; [|discriminate]. destruct kw; [|discriminate].
    unfold len in L. cbn in L. lia.
  - destruct a as [|c0 a].
    + destruct kw as [|c1 [|c2 [|c3 kw]]]; try (unfold len in L; cbn in L; lia).
      cbn [app] in E. injection E as -> ->. cbn [has_word3 app].
      inversion F as [|? ? F1 F']; subst. inversion F' as [|? ? F2 F'']; subst.
      inversion F'' as [|? ? F3 _]; subst. now rewrite F1, F2, F3.
    + cbn [app] in E. injection E as -> ->.
      specialize (IH a kw b eq_refl F L).
      cbn [has_word3]. destruct (a ++ kw ++ b) as [|c2 [|c3 r]] eqn:Ey;
        try (cbn in IH; discriminate).
      rewrite IH. apply orb_true_r.
Qed.

End ContributionFacts.

(* ================================================================== *)
(** * The claims *)
(* ================================================================== *)

Import Py Db Spec.

(** ** Chunking *)

(** C8.  Every chunk [chunk_text] returns has at most [chunk_size]
    characters, whatever the text and the two parameters; a text that is
    empty or white space only gives the empty list; and for
    [0 <= overlap < chunk_size] the call does return. *)
Theorem chunk_text_within_chunk_size (text : str) (chunk_size overlap : Z) :
  (strip text = [] -> Chunking.chunk_text chunk_size overlap text = Some [])
  /\ (forall chunks,
        Chunking.chunk_text chunk_size overlap text = Some chunks ->
        Forall (fun c => len c <= chunk_size) chunks)
  /\ (0 <= overlap < chunk_size ->
      exists chunks,
        Chunking.chunk_text chunk_size overlap text = Some chunks /\
        Forall (fun c => len c <= chunk_size) chunks).
Proof.
  split; [apply ChunkingFacts.chunk_text_blank|].
  split; [intros chunks; apply ChunkingFacts.chunk_text_bound|].
  intros Hp. destruct (ChunkingFacts.chunk_text_total text Hp) as [chunks H].
  exists chunks. split; [exact H|]. eapply ChunkingFacts.chunk_text_bound; eauto.
Qed.

Lemma chunk_text_within_chunk_size_witness :
  exists chunks,
    Chunking.chunk_text 4 1 Sample.short_paragraphs = Some chunks /\
    Forall (fun c => len c <= 4) chunks.
Proof.
  apply (proj2 (proj2 (chunk_text_within_chunk_size Sample.short_paragraphs 4 1))).
  lia.
Defined.

(** C10.  For [chunk_size > 0] and [0 <= overlap < chunk_size],
    [chunk_text] terminates: an iteration of the hard-cap loop on an
    oversized chunk removes [chunk_size - overlap > 0] characters, so the
    loop ends within as many iterations as the chunk has characters. *)
Theorem chunk_text_terminates (text : str) (chunk_size overlap : Z) :
  0 < chunk_size -> 0 <= overlap < chunk_size ->
  (exists chunks, Chunking.chunk_text chunk_size overlap text = Some chunks)
  /\ (forall chunk : str, chunk_size < len chunk ->
        len (slice_from chunk (chunk_size - overlap))
          = len chunk - (chunk_size - overlap) /\
        len (slice_from chunk (chunk_size - overlap)) < len chunk)
  /\ (forall (fuel : nat) (chunk : str), (length chunk < fuel)%nat ->
        exists pieces,
          Chunking.split_oversized chunk_size overlap fuel chunk = Some pieces).
Proof.
  intros _ Hp. split; [now apply ChunkingFacts.chunk_text_total|]. split.
  - intros chunk Hc.
    rewrite (ChunkingFacts.slice_step_shorter chunk Hp Hc). lia.
  - intros fuel chunk Hf. now apply ChunkingFacts.split_oversized_total.
Qed.

Lemma chunk_text_terminates_witness :
  exists chunks, Chunking.chunk_text 4 1 Sample.short_paragraphs = Some chunks.
Proof.
  apply (chunk_text_terminates Sample.short_paragraphs (chunk_size := 4) (overlap := 1));
    lia.
Defined.

(** C7, as the code has it.  Every tuple of [chunk_text_with_headings] has
    [0 <= char_start] and [char_end = char_start + len(chunk)]; when the
    chunk is found from the cursor on, the span is where it occurs, so
    [char_end <= len(text)]; otherwise [char_start] is the cursor and the
    chunk occurs nowhere from there on. *)
Theorem chunk_text_with_headings_spans (text : str) (chunk_size overlap : Z)
  (result : list HeadingDetection.located) :
  HeadingDetection.chunk_text_with_headings text chunk_size overlap = Some result ->
  Forall (span_ok text) result.
Proof. apply HeadingFacts.chunk_text_with_headings_spans_ok. Qed.

Lemma chunk_text_with_headings_spans_witness :
  Forall (span_ok Sample.short_paragraphs)
    (match HeadingDetection.chunk_text_with_headings Sample.short_paragraphs 4 1 with
     | Some result => result
     | None => []
     end).
Proof.
  apply (chunk_text_with_headings_spans Sample.short_paragraphs 4 1).
  vm_compute. reflexivity.
Defined.

(** C7 as stated fails: with the default parameters, the second chunk of
    [Sample.repeated_paragraphs] (1006 characters) is not found after the
    cursor, which stands at 1003 because the first chunk was found at
    1002; its span ends at 2000. *)
Lemma chunk_span_exceeds_text :
  len Sample.repeated_paragraphs = 1006 /\
  option_map (map (fun '(chunk, char_start, char_end, _) => (len chunk, char_start, char_end)))
    (HeadingDetection.chunk_text_with_headings Sample.repeated_paragraphs 1000 150)
  = Some [(4, 1002, 1006); (997, 1003, 2000)].
Proof. split; vm_compute; reflexivity. Qed.

(** ** Indexing *)

(** C1, as the code has it.  When [index_document] succeeds, the stored
    chunks of the document carry the indices they had in the chunker's
    output before the filtering ([chunk_index=idx] of [enumerate]): the
    ordinals are those of the kept embeddings, in strictly increasing
    order, as many as the count returned, and they are 0, 1, 2, ... when no
    chunk was discarded. *)
Theorem index_document_ordinals (ollama : str -> option Embeddings.vector)
  (document_id company_id : str) (s s' : session) (n : Z) :
  Indexer.index_document ollama document_id company_id s
    = (Returned (true, None, n), s') ->
  exists text located,
    (exists document, In document (documents (working s)) /\
                      Document.id document = document_id /\
                      Document.text_extracted document = Some text) /\
    HeadingDetection.chunk_text_with_headings text 1000 150 = Some located /\
    let embeddings :=
      Embeddings.embed_batch ollama
        (map (fun '(chunk_text, _, _, _) => chunk_text) located) in
    let kept_items := survivors (Indexer.enumerate (combine located embeddings)) in
    ordinals document_id (committed s')
      = map (fun it => Z.of_nat (fst it)) kept_items /\
    n = len kept_items /\
    StronglySorted Z.lt (ordinals document_id (committed s')) /\
    (Forall (fun e => kept e = true) embeddings ->
     ordinals document_id (committed s') = map Z.of_nat (seq 0 (length located))).
Proof.
  unfold Indexer.index_document. intros H.
  apply DbFacts.bind_returned in H as (found & s1 & H1 & H).
  apply DbFacts.query_document_returned in H1 as [(C1 & W1 & _) F].
  destruct found as [document|]; [|discriminate].
  symmetry in F. apply IndexerFacts.find_some_id in F as [F1 F2].
  destruct (negb (str_eqb (Document.company_id document) company_id));
    [discriminate|].
  destruct (Document.text_extracted document) as [text|] eqn:T; [|discriminate].
  destruct (negb (truthy text)); [discriminate|].
  apply IndexerFacts.try_except_returned in H as [H|(e & s2 & _ & H)].
  - subst document_id.
    apply IndexerFacts.index_body_success in H as (located & L & O & N).
    exists text, located. split; [exists document; auto|]. split; [exact L|].
    cbv zeta in O, N |- *. split; [exact O|]. split; [exact N|]. rewrite O. split.
    + apply IndexerFacts.enumerate_filter_sorted.
    + intros K. unfold survivors, Indexer.enumerate.
      rewrite IndexerFacts.enumerate_filter_all.
      * rewrite length_combine. unfold Embeddings.embed_batch. rewrite !length_map.
        now rewrite Nat.min_id.
      * apply Forall_forall. intros [i [l e]] Hi. cbn [snd].
        apply in_combine_r, in_combine_r in Hi.
        rewrite Forall_forall in K. now apply K.
  - apply IndexerFacts.index_handler_fails in H. discriminate.
Qed.

Lemma index_document_ordinals_witness :
  exists text located,
    (exists document,
        In document (documents (working (Sample.upload Sample.two_paragraphs []))) /\
        Document.id document = txt "d1" /\
        Document.text_extracted document = Some text) /\
    HeadingDetection.chunk_text_with_headings text 1000 150 = Some located /\
    let embeddings :=
      Embeddings.embed_batch Sample.embed_ok
        (map (fun '(chunk_text, _, _, _) => chunk_text) located) in
    let kept_items := survivors (Indexer.enumerate (combine located embeddings)) in
    ordinals (txt "d1")
      (committed (snd (Indexer.index_document Sample.embed_ok (txt "d1") (txt "c1")
                         (Sample.upload Sample.two_paragraphs []))))
      = map (fun it => Z.of_nat (fst it)) kept_items /\
    2 = len kept_items /\
    StronglySorted Z.lt
      (ordinals (txt "d1")
         (committed (snd (Indexer.index_document Sample.embed_ok (txt "d1") (txt "c1")
                            (Sample.upload Sample.two_paragraphs []))))) /\
    (Forall (fun e => kept e = true) embeddings ->
     ordinals (txt "d1")
       (committed (snd (Indexer.index_document Sample.embed_ok (txt "d1") (txt "c1")
                          (Sample.upload Sample.two_paragraphs []))))
     = map Z.of_nat (seq 0 (length located))).
Proof.
  apply (@index_document_ordinals Sample.embed_ok (txt "d1") (txt "c1")
           (Sample.upload Sample.two_paragraphs [])
           (snd (Indexer.index_document Sample.embed_ok (txt "d1") (txt "c1")
                   (Sample.upload Sample.two_paragraphs []))) 2).
  vm_compute. reflexivity.
Defined.

(** C1 as stated fails: the document [Sample.two_paragraphs] gives two
    chunks; the embedding of the first fails, the second is stored with
    ordinal 1, and the stored ordinals are not 0, 1, 2, .... *)
Lemma index_document_ordinal_gap :
  let run := Indexer.index_document Sample.embed_b (txt "d1") (txt "c1")
               (Sample.upload Sample.two_paragraphs []) in
  fst run = Returned (true, None, 1) /\
  ordinals (txt "d1") (committed (snd run)) = [1] /\
  ordinals (txt "d1") (committed (snd run))
    <> map Z.of_nat (seq 0 (length (ordinals (txt "d1") (committed (snd run))))).
Proof.
  cbv zeta. split; [vm_compute; reflexivity|].
  assert (H : ordinals (txt "d1")
                (committed (snd (Indexer.index_document Sample.embed_b (txt "d1") (txt "c1")
                                   (Sample.upload Sample.two_paragraphs [])))) = [1])
    by (vm_compute; reflexivity).
  rewrite H. split; [reflexivity|]. cbn. discriminate.
Qed.

(** C2 fails on the code.  The handler assigns [FAILED] to the session's
    object and then calls [db.rollback()], which discards the assignment.
    So whenever the [try] block raises after the commit of line 57 has
    succeeded and the handler returns, the call returns the failure and
    [INDEXING] stays committed; the session reads it back too.  In the
    run below the commit that flushes the new chunk (line 118) raises. *)
Theorem index_document_raise_leaves_indexing :
  (forall (ollama : str -> option Embeddings.vector) (document : Document.t)
          (text : str) (s s1 s2 : session) (e : str) (r : Indexer.result),
     match faults s with Some _ :: _ => False | _ => True end ->
     Indexer.index_body ollama document (Document.id document) text s
       = (Raised e, s1) ->
     Indexer.index_handler (Document.id document) e s1 = (Returned r, s2) ->
     r = (false, Some e, 0) /\
     status_of (Document.id document) (committed s2)
       = map (fun _ => INDEXING) (status_of (Document.id document) (working s)) /\
     working s2 = committed s2)
  /\
  let run := Indexer.index_document Sample.embed_ok (txt "d1") (txt "c1")
               (Sample.upload (txt "Hello world.")
                  [None; None; None; None; Some (txt "connection lost")]) in
  fst run = Returned (false, Some (txt "connection lost"), 0) /\
  status_of (txt "d1") (committed (snd run)) = [INDEXING] /\
  status_of (txt "d1") (working (snd run)) = [INDEXING] /\
  document_chunks (committed (snd run)) = [].
Proof.
  split.
  - intros ollama document text s s1 s2 e r Hfirst Hb Hh.
    apply IndexerFacts.index_body_raised in Hb; [|exact Hfirst].
    apply IndexerFacts.index_handler_returned in Hh as (-> & C & W).
    rewrite C, W. auto.
  - cbv zeta. repeat split; vm_compute; reflexivity.
Qed.

(** C9 fails on the code.  The embedding endpoint answers with vectors of
    3 components: no chunk is stored, the status is set to [FAILED] with
    the error text, and the call returns success with count 0. *)
Theorem index_document_success_without_chunks :
  let run := Indexer.index_document Sample.embed_short (txt "d1") (txt "c1")
               (Sample.upload (txt "Hello world.") []) in
  fst run = Returned (true, None, 0) /\
  status_of (txt "d1") (committed (snd run)) = [FAILED] /\
  map Document.index_error (documents (committed (snd run)))
    = [Some (txt "No chunks were successfully indexed")] /\
  document_chunks (committed (snd run)) = [].
Proof. cbv zeta. repeat split; vm_compute; reflexivity. Qed.

(** ** Retrieval *)

(** C3.  Whatever the stored chunks, the query, the limit, the document
    filter and the faults of the database, every dictionary that
    [perform_semantic_search] returns for a company is the projection of a
    stored chunk of that company, on the hybrid path and on the
    semantic-only fallback alike; with unique chunk ids, a chunk of
    another company is none of the results. *)
Theorem search_results_tenant_scoped
  (ollama_embed : str -> option Embeddings.vector)
  (cosine_distance : Embeddings.vector -> Embeddings.vector -> float)
  (ts_rank_cd : str -> str -> option float)
  (query company_a : str) (top_k : Z) (document_id : option str)
  (s s' : session) (hits : list Rag.Hit.t) :
  Rag.perform_semantic_search ollama_embed cosine_distance ts_rank_cd
    query company_a top_k document_id s = (Returned hits, s') ->
  Forall (tenant_hit company_a s) hits /\
  (NoDup (map DocumentChunk.id (document_chunks (working s))) ->
   forall company_b dc,
     company_b <> company_a ->
     In dc (document_chunks (working s)) ->
     DocumentChunk.company_id dc = company_b ->
     ~ In (DocumentChunk.id dc) (map Rag.Hit.chunk_id hits)) /\
  (forall query_embedding fallback_hits s1 s2,
     working s1 = working s ->
     Rag._fallback_semantic_search cosine_distance query query_embedding
       company_a top_k document_id s1 = (Returned fallback_hits, s2) ->
     Forall (tenant_hit company_a s) fallback_hits).
Proof.
  intros H. apply SearchFacts.search_tenant in H. split; [exact H|]. split.
  - intros N company_b dc Hne Hdc Hb Hin.
    apply in_map_iff in Hin as (h & Hid & Hh).
    rewrite Forall_forall in H. destruct (H h Hh) as (dc' & Hdc' & Ha & Hhit & _).
    assert (dc' = dc).
    { eapply SearchFacts.unique_id; eauto. congruence. }
    subst dc'. congruence.
  - intros qv fhits s1 s2 W F. apply SearchFacts.fallback_tenant in F.
    eapply SearchFacts.tenant_hit_same_store; eauto.
Qed.

(** The hybrid statement fails and the fallback answers: the two chunks of
    company [c1] are returned, the chunk [k2] of company [c2] is not. *)
Lemma search_results_tenant_scoped_witness :
  let run := Rag.perform_semantic_search Sample.embed_ok (Sample.distance 0.2)
               Sample.no_rank (txt "code") (txt "c1") 5 None
               (Sample.serving [Some (txt "no text_tsv column")]) in
  map Rag.Hit.chunk_id
    (match fst run with Returned hits => hits | _ => [] end) = [txt "k1"; txt "k3"] /\
  ~ In (txt "k2")
      (map Rag.Hit.chunk_id (match fst run with Returned hits => hits | _ => [] end)).
Proof.
  cbv zeta. split; [vm_compute; reflexivity|].
  refine (proj1 (proj2
    (@search_results_tenant_scoped Sample.embed_ok (Sample.distance 0.2)
       Sample.no_rank (txt "code") (txt "c1") 5 None
       (Sample.serving [Some (txt "no text_tsv column")])
       (snd (Rag.perform_semantic_search Sample.embed_ok (Sample.distance 0.2)
               Sample.no_rank (txt "code") (txt "c1") 5 None
               (Sample.serving [Some (txt "no text_tsv column")])))
       (match fst (Rag.perform_semantic_search Sample.embed_ok (Sample.distance 0.2)
               Sample.no_rank (txt "code") (txt "c1") 5 None
               (Sample.serving [Some (txt "no text_tsv column")]))
        with Returned hits => hits | _ => [] end) _)) _ (txt "c2")
       (Sample.chunk "k2" "c2" "d2" 0 (txt "The code of the other company.") None)
       _ _ _).
  - vm_compute. reflexivity.
  - vm_compute. repeat constructor; simpl; intuition discriminate.
  - vm_compute. discriminate.
  - vm_compute. auto.
  - vm_compute. reflexivity.
Defined.

(** ** Answering *)

(** C4.  When chunks are retrieved and the maximum of their similarity
    scores is below 0.3, [answer_question] returns the fixed answer with
    confidence "low", no citation, no source and [used_chunks = 0],
    whatever the chat endpoint would answer. *)
Theorem answer_question_low_similarity_gate
  (ollama_embed : str -> option Embeddings.vector)
  (ollama_chat : str -> option str)
  (cosine_distance : Embeddings.vector -> Embeddings.vector -> float)
  (ts_rank_cd : str -> str -> option float)
  (settings : Config.Settings)
  (query company_id : str) (top_k : option Z)
  (s s' : session) (first : Rag.Hit.t) (others : list Rag.Hit.t) :
  Rag.perform_semantic_search ollama_embed cosine_distance ts_rank_cd
    query company_id (Rag.top_k_or_default settings top_k) None s
    = (Returned (first :: others), s') ->
  PrimFloat.ltb
    (Rag.py_max (Rag.Hit.similarity_score first) (map Rag.Hit.similarity_score others))
    0.3%float = true ->
  Rag.answer_question ollama_embed ollama_chat cosine_distance ts_rank_cd settings
    query company_id top_k s
  = (Returned (Rag.not_related, [], [], txt "low", 0), s').
Proof.
  intros H G. unfold Rag.answer_question. cbv zeta. unfold bind. rewrite H.
  unfold ret, Rag.answer_from. now rewrite G.
Qed.

(** Both chunks of company [c1] score 0.7 * (1 - 0.8): the gate closes,
    though the chat endpoint would answer. *)
Lemma answer_question_low_similarity_gate_witness :
  fst (Rag.answer_question Sample.embed_ok (Sample.chat "You have 15 vacation days.")
         (Sample.distance 0.8) Sample.no_rank Config.settings
         (txt "vacation?") (txt "c1") None (Sample.serving []))
  = Returned (Rag.not_related, [], [], txt "low", 0).
Proof.
  set (run := Rag.perform_semantic_search Sample.embed_ok (Sample.distance 0.8)
                Sample.no_rank (txt "vacation?") (txt "c1")
                (Rag.top_k_or_default Config.settings None) None (Sample.serving [])).
  assert (H : run = (Returned (match fst run with
                               | Returned (first :: others) => first :: others
                               | _ => [] end), snd run))
    by (vm_compute; reflexivity).
  destruct (match fst run with
            | Returned (first :: others) => first :: others
            | _ => [] end) as [|first others] eqn:E; [vm_compute in E; discriminate|].
  rewrite (@answer_question_low_similarity_gate Sample.embed_ok
             (Sample.chat "You have 15 vacation days.") (Sample.distance 0.8)
             Sample.no_rank Config.settings (txt "vacation?") (txt "c1") None
             (Sample.serving []) (snd run) first others H); [reflexivity|].
  vm_compute in E. injection E as <- <-. vm_compute. reflexivity.
Defined.

(** C5, as the code has it.  Every quote in the sources that
    [answer_question] returns comes from a retrieved chunk of the source's
    document and heading, and is either a sentence that occurs in the chunk
    text, or a leading span of at most 220 characters of such a sentence
    followed by an ellipsis, cut just before the last space of the first
    220 characters when that space lies beyond position 154, and otherwise
    cut at 220 characters with the trailing white space removed. *)
Theorem answer_question_quotes_verbatim
  (ollama_embed : str -> option Embeddings.vector)
  (ollama_chat : str -> option str)
  (cosine_distance : Embeddings.vector -> Embeddings.vector -> float)
  (ts_rank_cd : str -> str -> option float)
  (settings : Config.Settings)
  (query company_id : str) (top_k : option Z) (s s' : session)
  (ans : str) (cits : list Rag.Citation.t) (srcs : list Rag.Source.t)
  (conf : str) (n : Z) (src : Rag.Source.t) (q : str) :
  Rag.answer_question ollama_embed ollama_chat cosine_distance ts_rank_cd settings
    query company_id top_k s = (Returned (ans, cits, srcs, conf, n), s') ->
  In src srcs -> In q (Rag.Source.quotes src) ->
  exists hits chunk,
    Rag.perform_semantic_search ollama_embed cosine_distance ts_rank_cd
      query company_id (Rag.top_k_or_default settings top_k) None s
      = (Returned hits, s') /\
    In chunk hits /\
    Rag.Hit.document_id chunk = Rag.Source.document_id src /\
    Rag.Hit.heading chunk = Rag.Source.heading src /\
    quote_of (Rag.Hit.text chunk) q.
Proof.
  intros H Hs Hq.
  apply AnswerFacts.answer_question_returned in H as (hits & H1 & H2).
  destruct (@SourceFacts.answer_from_grounded _ _ _ _ _ _ _ _ _ _ _ H2 Hs Hq)
    as (chunk & C1 & C2 & C3 & C4 & _).
  exists hits, chunk. repeat split; auto.
  now apply QuoteFacts.extract_quotes_quote_of.
Qed.

Lemma answer_question_quotes_verbatim_witness :
  exists hits chunk,
    Rag.perform_semantic_search Sample.embed_ok (Sample.distance 0) Sample.no_rank
      (txt "vacation?") (txt "c1") (Rag.top_k_or_default Config.settings None) None
      (Sample.serving [])
      = (Returned hits,
         snd (Rag.answer_question Sample.embed_ok
                (Sample.chat "You have 15 vacation days.") (Sample.distance 0)
                Sample.no_rank Config.settings (txt "vacation?") (txt "c1") None
                (Sample.serving []))) /\
    In chunk hits /\
    Rag.Hit.document_id chunk = txt "d1" /\
    Rag.Hit.heading chunk = Some (txt "Leave") /\
    quote_of (Rag.Hit.text chunk) Sample.vacation_quote.
Proof.
  apply (@answer_question_quotes_verbatim Sample.embed_ok
           (Sample.chat "You have 15 vacation days.") (Sample.distance 0)
           Sample.no_rank Config.settings (txt "vacation?") (txt "c1") None
           (Sample.serving []) _
           (txt "You have 15 vacation days.")
           [Rag.Citation.mk (txt "d1") (txt "policy.txt") (Some (txt "Leave")) 1]
           [Rag.Source.mk (txt "d1") (txt "policy.txt") (Some (txt "Leave"))
              [Sample.vacation_quote]]
           (txt "high") 2
           (Rag.Source.mk (txt "d1") (txt "policy.txt") (Some (txt "Leave"))
              [Sample.vacation_quote])
           Sample.vacation_quote).
  - vm_compute. reflexivity.
  - left. reflexivity.
  - left. reflexivity.
Defined.

(** C5 as stated fails: the chunk [Sample.one_long_word] has no sentence
    boundary and its only space at offset 4; the quote returned is its
    first 220 characters with an ellipsis, cut between two letters of a
    word.  It neither occurs in the chunk text nor is a span of the text
    cut at a word boundary. *)
Lemma quote_cut_inside_word :
  fst (Rag.answer_question Sample.embed_ok (Sample.chat "The code is long.")
         (Sample.distance 0) Sample.no_rank Config.settings
         (txt "what is the code?") (txt "c1") None (Sample.serving []))
  = Returned Sample.code_answer /\
  ~ claimed_quote Sample.one_long_word Sample.code_quote.
Proof.
  split; [vm_compute; reflexivity|].
  intros [(a & b & H)|(a & p & b & Ht & Hq & Hl & Hb)].
  - assert (Hin : In 46%N Sample.one_long_word).
    { rewrite H. apply in_or_app. right. apply in_or_app. left.
      apply AnswerFacts.has_char_in. vm_compute. reflexivity. }
    apply AnswerFacts.has_char_in in Hin. vm_compute in Hin. discriminate.
  - unfold Sample.code_quote in Hq. apply app_inv_tail in Hq. subst p.
    destruct a as [|c0 a].
    + rewrite <- (firstn_skipn 220 Sample.one_long_word) in Ht at 1.
      cbn [app] in Ht. apply app_inv_head in Ht. subst b.
      vm_compute in Hb. discriminate.
    + assert (Hin : In 99%N (tl Sample.one_long_word)).
      { rewrite Ht. cbn [tl app]. apply in_or_app. right. apply in_or_app. left.
        apply AnswerFacts.has_char_in. vm_compute. reflexivity. }
      apply AnswerFacts.has_char_in in Hin. vm_compute in Hin. discriminate.
Qed.

(** C6, as the code has it.  A quote is kept only if it shares a keyword
    with the cleaned answer: every quote of every returned source
    contains, as a whole word and without regard to case, a keyword of the
    returned answer, where a keyword is a word of the answer of at least
    three characters that is no stop word, or a number of the answer of
    any length; the relevance test is exactly that.  A source and its
    citation stand under the document and heading of a retrieved chunk
    that has a quote passing the test, so a chunk whose quotes all fail
    contributes none; when chunks were used, every retrieved chunk with a
    passing quote has its source, which holds exactly the passing quotes
    of the chunk when no other retrieved chunk has its document and
    heading.  For the answer "You have 15 vacation days.", a retrieved
    chunk with the text "Employees get 15 vacation days per year." has a
    source and a citation, and the source has that sentence as its quote
    when the chunk is alone under its document and heading; a retrieved
    chunk with the text "The office is closed on public holidays." that
    is alone under its document and heading has neither source nor
    citation. *)
Theorem quotes_kept_only_with_shared_keyword :
  (forall (ollama_embed : str -> option Embeddings.vector)
          (ollama_chat : str -> option str)
          (cosine_distance : Embeddings.vector -> Embeddings.vector -> float)
          (ts_rank_cd : str -> str -> option float)
          (settings : Config.Settings)
          (query company_id : str) (top_k : option Z) (s s' : session)
          (ans : str) (cits : list Rag.Citation.t) (srcs : list Rag.Source.t)
          (conf : str) (n : Z) (src : Rag.Source.t) (q : str),
     Rag.answer_question ollama_embed ollama_chat cosine_distance ts_rank_cd settings
       query company_id top_k s = (Returned (ans, cits, srcs, conf, n), s') ->
     In src srcs -> In q (Rag.Source.quotes src) ->
     q <> [] /\
     exists keyword,
       In keyword (Rag._extract_answer_keywords ans) /\
       is_keyword_of ans keyword /\
       whole_word (lower keyword) (lower q))
  /\ (forall (quote : str) (answer_keywords : list str),
        Rag._quote_is_relevant quote answer_keywords = true <->
        quote <> [] /\
        exists keyword, In keyword answer_keywords /\
                        whole_word (lower keyword) (lower quote))
  /\ (forall (ollama_embed : str -> option Embeddings.vector)
             (ollama_chat : str -> option str)
             (cosine_distance : Embeddings.vector -> Embeddings.vector -> float)
             (ts_rank_cd : str -> str -> option float)
             (settings : Config.Settings)
             (query company_id : str) (top_k : option Z) (s s' : session)
             (ans : str) (cits : list Rag.Citation.t) (srcs : list Rag.Source.t)
             (conf : str) (n : Z),
        Rag.answer_question ollama_embed ollama_chat cosine_distance ts_rank_cd settings
          query company_id top_k s = (Returned (ans, cits, srcs, conf, n), s') ->
        exists hits,
          Rag.perform_semantic_search ollama_embed cosine_distance ts_rank_cd
            query company_id (Rag.top_k_or_default settings top_k) None s
            = (Returned hits, s') /\
          map RagSpec.citation_key_of cits = map RagSpec.source_key_of srcs /\
          (forall key, In key (map RagSpec.source_key_of srcs) ->
             exists chunk, In chunk hits /\ hit_key chunk = key /\
                           relevant_quotes (Rag._extract_answer_keywords ans) chunk <> []) /\
          (0 < n ->
             (forall chunk, In chunk hits ->
                relevant_quotes (Rag._extract_answer_keywords ans) chunk <> [] ->
                In (hit_key chunk) (map RagSpec.source_key_of srcs)) /\
             (forall chunk, alone hits chunk ->
                relevant_quotes (Rag._extract_answer_keywords ans) chunk <> [] ->
                exists src, In src srcs /\
                            RagSpec.source_key_of src = hit_key chunk /\
                            Rag.Source.quotes src
                            = relevant_quotes (Rag._extract_answer_keywords ans) chunk)))
  /\ (forall (ollama_embed : str -> option Embeddings.vector)
             (ollama_chat : str -> option str)
             (cosine_distance : Embeddings.vector -> Embeddings.vector -> float)
             (ts_rank_cd : str -> str -> option float)
             (settings : Config.Settings)
             (query company_id : str) (top_k : option Z) (s s' : session)
             (cits : list Rag.Citation.t) (srcs : list Rag.Source.t)
             (conf : str) (n : Z),
        Rag.answer_question ollama_embed ollama_chat cosine_distance ts_rank_cd settings
          query company_id top_k s
          = (Returned (txt "You have 15 vacation days.", cits, srcs, conf, n), s') ->
        exists hits,
          Rag.perform_semantic_search ollama_embed cosine_distance ts_rank_cd
            query company_id (Rag.top_k_or_default settings top_k) None s
            = (Returned hits, s') /\
          forall chunk, In chunk hits ->
            (Rag.Hit.text chunk = txt "Employees get 15 vacation days per year." ->
             In (hit_key chunk) (map RagSpec.source_key_of srcs) /\
             In (hit_key chunk) (map RagSpec.citation_key_of cits) /\
             (alone hits chunk ->
              exists src, In src srcs /\
                          RagSpec.source_key_of src = hit_key chunk /\
                          Rag.Source.quotes src
                          = [txt "Employees get 15 vacation days per year."])) /\
            (Rag.Hit.text chunk = txt "The office is closed on public holidays." ->
             alone hits chunk ->
             ~ In (hit_key chunk) (map RagSpec.source_key_of srcs) /\
             ~ In (hit_key chunk) (map RagSpec.citation_key_of cits))).
Proof.
  split; [|split; [|split]].
  - intros oe oc cd ts st query company_id top_k s s' ans cits srcs conf n src q H Hs Hq.
    apply AnswerFacts.answer_question_returned in H as (hits & H1 & H2).
    destruct (@SourceFacts.answer_from_grounded _ _ _ _ _ _ _ _ _ _ _ H2 Hs Hq)
      as (chunk & _ & _ & _ & _ & R).
    apply KeywordFacts.quote_is_relevant_iff in R as [Hn (kw & K1 & K2)].
    split; [exact Hn|]. exists kw. split; [exact K1|]. split; [|exact K2].
    now apply KeywordFacts.extract_answer_keywords_spec.
  - apply KeywordFacts.quote_is_relevant_iff.
  - intros oe oc cd ts st query company_id top_k s s' ans cits srcs conf n H.
    apply AnswerFacts.answer_question_returned in H as (hits & H1 & H2).
    exists hits. split; [exact H1|].
    destruct (SourceShape.answer_from_sources _ _ _ _ H2) as (_ & K & _).
    split; [exact K|].
    now apply ContributionFacts.answer_from_contributions in H2.
  - intros oe oc cd ts st query company_id top_k s s' cits srcs conf n H.
    apply AnswerFacts.answer_question_returned in H as (hits & H1 & H2).
    exists hits. split; [exact H1|]. intros chunk Hc.
    destruct (SourceShape.answer_from_sources _ _ _ _ H2) as (_ & K & _).
    assert (Hn : 0 < n).
    { apply (ContributionFacts.answer_from_fixed _ _ _ _ H2);
        intros E; vm_compute in E; discriminate. }
    apply ContributionFacts.answer_from_contributions in H2 as [C1 C2].
    destruct (C2 Hn) as [C3 C4]. split.
    + intros T.
      assert (R : relevant_quotes
                    (Rag._extract_answer_keywords (txt "You have 15 vacation days."))
                    chunk
                  = [txt "Employees get 15 vacation days per year."]).
      { unfold relevant_quotes. rewrite T. vm_compute. reflexivity. }
      assert (S : In (hit_key chunk) (map RagSpec.source_key_of srcs)).
      { apply C3; [exact Hc|]. rewrite R. discriminate. }
      split; [exact S|]. split; [now rewrite K|].
      intros A. rewrite <- R. apply C4; [exact A|]. rewrite R. discriminate.
    + intros T A.
      assert (R : relevant_quotes
                    (Rag._extract_answer_keywords (txt "You have 15 vacation days."))
                    chunk
                  = []).
      { unfold relevant_quotes. rewrite T. vm_compute. reflexivity. }
      assert (N : ~ In (hit_key chunk) (map RagSpec.source_key_of srcs)).
      { intros Hin. apply C1 in Hin as (other & O1 & O2 & O3).
        apply (ContributionFacts.alone_only A O1) in O2. subst other. now apply O3. }
      split; [exact N|]. now rewrite K.
Qed.

(** Both chunks of the sample store are retrieved; the one on leave has
    its source, the one on opening days has none. *)
Lemma quotes_kept_only_with_shared_keyword_witness :
  (Sample.vacation_quote <> [] /\
   exists keyword,
     In keyword (Rag._extract_answer_keywords (txt "You have 15 vacation days.")) /\
     is_keyword_of (txt "You have 15 vacation days.") keyword /\
     whole_word (lower keyword) (lower Sample.vacation_quote))
  /\
  (exists hits,
     Rag.perform_semantic_search Sample.embed_ok (Sample.distance 0) Sample.no_rank
       (txt "vacation?") (txt "c1") (Rag.top_k_or_default Config.settings None) None
       Sample.asking_holidays
     = (Returned hits,
        snd (Rag.answer_question Sample.embed_ok
               (Sample.chat "You have 15 vacation days.") (Sample.distance 0)
               Sample.no_rank Config.settings (txt "vacation?") (txt "c1") None
               Sample.asking_holidays)) /\
     forall chunk, In chunk hits ->
       (Rag.Hit.text chunk = txt "Employees get 15 vacation days per year." ->
        In (hit_key chunk)
          (map RagSpec.source_key_of
             [Rag.Source.mk (txt "d1") (txt "policy.txt") (Some (txt "Leave"))
                [Sample.vacation_quote]]) /\
        In (hit_key chunk)
          (map RagSpec.citation_key_of
             [Rag.Citation.mk (txt "d1") (txt "policy.txt") (Some (txt "Leave")) 0]) /\
        (alone hits chunk ->
         exists src,
           In src [Rag.Source.mk (txt "d1") (txt "policy.txt") (Some (txt "Leave"))
                     [Sample.vacation_quote]] /\
           RagSpec.source_key_of src = hit_key chunk /\
           Rag.Source.quotes src = [txt "Employees get 15 vacation days per year."])) /\
       (Rag.Hit.text chunk = txt "The office is closed on public holidays." ->
        alone hits chunk ->
        ~ In (hit_key chunk)
            (map RagSpec.source_key_of
               [Rag.Source.mk (txt "d1") (txt "policy.txt") (Some (txt "Leave"))
                  [Sample.vacation_quote]]) /\
        ~ In (hit_key chunk)
            (map RagSpec.citation_key_of
               [Rag.Citation.mk (txt "d1") (txt "policy.txt") (Some (txt "Leave")) 0]))).
Proof.
  split.
  - apply (proj1 quotes_kept_only_with_shared_keyword Sample.embed_ok
             (Sample.chat "You have 15 vacation days.") (Sample.distance 0)
             Sample.no_rank Config.settings (txt "vacation?") (txt "c1") None
             (Sample.serving [Some (txt "no text_tsv column")])
             (snd (Rag.answer_question Sample.embed_ok
                     (Sample.chat "You have 15 vacation days.") (Sample.distance 0)
                     Sample.no_rank Config.settings (txt "vacation?") (txt "c1") None
                     (Sample.serving [Some (txt "no text_tsv column")])))
             (txt "You have 15 vacation days.")
             [Rag.Citation.mk (txt "d1") (txt "policy.txt") (Some (txt "Leave")) 1]
             [Rag.Source.mk (txt "d1") (txt "policy.txt") (Some (txt "Leave"))
                [Sample.vacation_quote]]
             (txt "high") 2
             (Rag.Source.mk (txt "d1") (txt "policy.txt") (Some (txt "Leave"))
                [Sample.vacation_quote])
             Sample.vacation_quote).
    + vm_compute. reflexivity.
    + left. reflexivity.
    + left. reflexivity.
  - apply (proj2 (proj2 (proj2 quotes_kept_only_with_shared_keyword)) Sample.embed_ok
             (Sample.chat "You have 15 vacation days.") (Sample.distance 0)
             Sample.no_rank Config.settings (txt "vacation?") (txt "c1") None
             Sample.asking_holidays
             (snd (Rag.answer_question Sample.embed_ok
                     (Sample.chat "You have 15 vacation days.") (Sample.distance 0)
                     Sample.no_rank Config.settings (txt "vacation?") (txt "c1") None
                     Sample.asking_holidays))
             [Rag.Citation.mk (txt "d1") (txt "policy.txt") (Some (txt "Leave")) 0]
             [Rag.Source.mk (txt "d1") (txt "policy.txt") (Some (txt "Leave"))
                [Sample.vacation_quote]]
             (txt "high") 2).
    vm_compute. reflexivity.
Defined.

(** C6 as stated fails on the minimum length: the answer "It is 7." has
    no word of three characters, so no keyword of at least three
    characters, yet the quote "Room 7 only." is kept, on the number 7. *)
Lemma quote_kept_on_one_digit_number :
  fst (Rag.answer_question Sample.embed_ok (Sample.chat "It is 7.")
         (Sample.distance 0) Sample.no_rank Config.settings
         (txt "which room?") (txt "c1") None Sample.asking_rooms)
  = Returned Sample.room_answer /\
  ~ claimed_relevant (txt "It is 7.") (txt "Room 7 only.").
Proof.
  split; [vm_compute; reflexivity|].
  intros (kw & (W & F & _ & L) & _).
  destruct W as (a & b & E & _).
  apply (@ContributionFacts.has_word3_found _ a kw b E F) in L.
  vm_compute in L. discriminate.
Qed.

(* ================================================================== *)
(** * Further properties of the code *)
(* ================================================================== *)

Import ReSpec ChunkSpec HeadingSpec IndexSpec RagSpec.

(** ** Chunking *)

(** X1.  [chunk_text] returns no empty chunk and no chunk that starts or
    ends with white space (line 119 strips every chunk and drops the ones
    that are empty after it). *)
Theorem chunk_text_chunks_are_stripped (text : str) (chunk_size overlap : Z)
  (chunks : list str) :
  Chunking.chunk_text chunk_size overlap text = Some chunks ->
  Forall (fun c => c <> [] /\ strip c = c) chunks.
Proof. apply ChunkShape.chunk_text_stripped. Qed.

Lemma chunk_text_chunks_are_stripped_witness :
  Forall (fun c => c <> [] /\ strip c = c)
    (match Chunking.chunk_text 4 1 Sample.short_paragraphs with
     | Some chunks => chunks
     | None => []
     end).
Proof.
  apply (@chunk_text_chunks_are_stripped Sample.short_paragraphs 4 1).
  vm_compute. reflexivity.
Defined.

(** X2.  A text without a blank line (no two consecutive newlines) whose
    stripped form is not empty and has at most [chunk_size] characters is
    returned as one chunk, the stripped text, whatever the overlap. *)
Theorem chunk_text_short_text_is_one_chunk (text : str) (chunk_size overlap : Z) :
  contains text [Chunking.nl; Chunking.nl] = false ->
  strip text <> [] ->
  len (strip text) <= chunk_size ->
  Chunking.chunk_text chunk_size overlap text = Some [strip text].
Proof. apply ChunkShape.chunk_text_short. Qed.

Lemma chunk_text_short_text_is_one_chunk_witness :
  Chunking.chunk_text 20 5 (txt " Hello world. ") = Some [strip (txt " Hello world. ")].
Proof.
  apply (@chunk_text_short_text_is_one_chunk (txt " Hello world. ") 20 5).
  - vm_compute. reflexivity.
  - vm_compute. discriminate.
  - vm_compute. discriminate.
Defined.

(** X3.  For [0 <= overlap < chunk_size], a text that is one word (no
    white space) longer than [chunk_size] is cut by the hard-cap loop into
    pieces that lose nothing: each piece ends with the [overlap]
    characters the next one starts with, and the pieces put together
    without these repeated characters are the word. *)
Theorem chunk_text_long_word_windows (word : str) (chunk_size overlap : Z) :
  0 <= overlap < chunk_size ->
  no_space word ->
  chunk_size < len word ->
  exists pieces,
    Chunking.chunk_text chunk_size overlap word = Some pieces /\
    rejoin (Z.to_nat overlap) pieces = word /\
    overlapping (Z.to_nat overlap) pieces.
Proof. intros Hp Hw Hl. now apply WindowFacts.chunk_text_word. Qed.

Lemma chunk_text_long_word_windows_witness :
  exists pieces,
    Chunking.chunk_text 4 1 (txt "abcdefghij") = Some pieces /\
    rejoin (Z.to_nat 1) pieces = txt "abcdefghij" /\
    overlapping (Z.to_nat 1) pieces.
Proof.
  apply (@chunk_text_long_word_windows (txt "abcdefghij") 4 1).
  - lia.
  - unfold no_space. vm_compute. repeat constructor.
  - vm_compute. reflexivity.
Defined.

(** X4.  With [overlap = chunk_size], the hard-cap loop never shortens an
    oversized chunk ([chunk[chunk_size - overlap:]] is [chunk[0:]]): for a
    text that is one word longer than [chunk_size], the loop variable is
    the word after any number of iterations, and [chunk_text] does not
    return. *)
Theorem chunk_text_overlap_equal_to_size_never_returns (word : str) (chunk_size : Z) :
  no_space word ->
  0 <= chunk_size < len word ->
  Chunking.chunk_text chunk_size chunk_size word = None /\
  forall n, after_iterations chunk_size chunk_size n word = word.
Proof.
  intros Hw Hl. split; [now apply WindowFacts.chunk_text_word_stuck|].
  intros n. apply WindowFacts.after_iterations_stuck.
Qed.

Lemma chunk_text_overlap_equal_to_size_never_returns_witness :
  Chunking.chunk_text 4 4 (txt "abcdefghij") = None /\
  forall n, after_iterations 4 4 n (txt "abcdefghij") = txt "abcdefghij".
Proof.
  apply (@chunk_text_overlap_equal_to_size_never_returns (txt "abcdefghij") 4).
  - unfold no_space. vm_compute. repeat constructor.
  - vm_compute. split; [discriminate|reflexivity].
Defined.

(** ** Headings *)

(** X5.  The tuples of [chunk_text_with_headings] carry the chunks of
    [chunk_text], all of them and in their order, and their [char_start]
    values increase strictly (the search cursor moves past every start). *)
Theorem chunk_text_with_headings_keeps_chunks (text : str) (chunk_size overlap : Z)
  (result : list HeadingDetection.located) :
  HeadingDetection.chunk_text_with_headings text chunk_size overlap = Some result ->
  Chunking.chunk_text chunk_size overlap text = Some (map chunk_of result) /\
  StronglySorted Z.lt (map start_of result).
Proof. apply LocateFacts.chunk_text_with_headings_chunks. Qed.

Lemma chunk_text_with_headings_keeps_chunks_witness :
  let result :=
    match HeadingDetection.chunk_text_with_headings Sample.short_paragraphs 4 1 with
    | Some result => result
    | None => []
    end in
  Chunking.chunk_text 4 1 Sample.short_paragraphs = Some (map chunk_of result) /\
  StronglySorted Z.lt (map start_of result).
Proof.
  apply (@chunk_text_with_headings_keeps_chunks Sample.short_paragraphs 4 1).
  vm_compute. reflexivity.
Defined.

(** X6.  A line whose stripped form is a number followed by a dot that
    no digit follows (as in "1. Leave Policy") does not match the
    numbering rule, which wants white space right after the number, and
    it is no line of capitals: [is_heading] accepts it exactly when it
    ends with a colon and has fewer than 120 characters.  Digits are the
    characters of the class [\d]. *)
Theorem numbered_line_with_dot_needs_colon (line d rest : str) :
  d <> [] -> digits d ->
  Re.head_is Re.cls_digit rest = false ->
  strip line = d ++ HeadingDetection.dot :: rest ->
  HeadingDetection.is_heading line
  = (endswith (strip line) [HeadingDetection.colon] && (len (strip line) <? 120))%bool.
Proof. apply NumberingFacts.numbered_dot_heading. Qed.

Lemma numbered_line_with_dot_needs_colon_witness :
  HeadingDetection.is_heading (txt "1. Leave Policy") = false.
Proof.
  rewrite (@numbered_line_with_dot_needs_colon (txt "1. Leave Policy") (txt "1")
             (txt " Leave Policy")).
  - vm_compute. reflexivity.
  - discriminate.
  - unfold digits. vm_compute. repeat constructor.
  - reflexivity.
  - vm_compute. reflexivity.
Defined.

(** X7.  A heading attached to a chunk is never invented and never empty:
    it is a non-empty stripped excerpt of a line of the text that
    [is_heading] accepts, and so it occurs in the text. *)
Theorem chunk_headings_come_from_heading_lines (text : str) (chunk_size overlap : Z)
  (result : list HeadingDetection.located) (chunk : str) (char_start char_end : Z)
  (h : str) :
  HeadingDetection.chunk_text_with_headings text chunk_size overlap = Some result ->
  In (chunk, char_start, char_end, Some h) result ->
  heading_from text h /\ occurs_in h text.
Proof. apply HeadingMapFacts.chunk_headings_ok. Qed.

Lemma chunk_headings_come_from_heading_lines_witness :
  heading_from (txt "RULES:" ++ [Chunking.nl] ++ txt "Be kind.") (txt "RULES") /\
  occurs_in (txt "RULES") (txt "RULES:" ++ [Chunking.nl] ++ txt "Be kind.").
Proof.
  apply (@chunk_headings_come_from_heading_lines
           (txt "RULES:" ++ [Chunking.nl] ++ txt "Be kind.") 1000 150
           (match HeadingDetection.chunk_text_with_headings
                    (txt "RULES:" ++ [Chunking.nl] ++ txt "Be kind.") 1000 150 with
            | Some result => result
            | None => []
            end)
           (txt "RULES:" ++ [Chunking.nl] ++ txt "Be kind.") 0 15 (txt "RULES")).
  - vm_compute. reflexivity.
  - vm_compute. left. reflexivity.
Defined.

(** ** Indexing *)

(** X8.  [index_document] called for a document that does not exist, or
    with a company that does not own it, returns a failure and changes
    nothing: the committed store and the open transaction are as they
    were. *)
Theorem index_document_refuses_foreign_document
  (ollama : str -> option Embeddings.vector) (document_id company_id : str)
  (s s' : session) (r : Indexer.result) :
  Indexer.index_document ollama document_id company_id s = (Returned r, s') ->
  (forall d, In d (documents (working s)) -> Document.id d = document_id ->
             Document.company_id d <> company_id) ->
  (r = (false, Some (txt "Document not found"), 0) \/
   r = (false, Some (txt "Document does not belong to company"), 0)) /\
  committed s' = committed s /\ working s' = working s.
Proof. apply StoredFacts.index_document_refused. Qed.

Lemma index_document_refuses_foreign_document_witness :
  let s := Sample.upload Sample.two_paragraphs [] in
  let run := Indexer.index_document Sample.embed_ok (txt "d1") (txt "c2") s in
  (fst run = Returned (false, Some (txt "Document not found"), 0) \/
   fst run = Returned (false, Some (txt "Document does not belong to company"), 0)) /\
  committed (snd run) = committed s /\ working (snd run) = working s.
Proof.
  cbv zeta.
  destruct (@index_document_refuses_foreign_document Sample.embed_ok (txt "d1") (txt "c2")
              (Sample.upload Sample.two_paragraphs [])
              (snd (Indexer.index_document Sample.embed_ok (txt "d1") (txt "c2")
                      (Sample.upload Sample.two_paragraphs [])))
              (false, Some (txt "Document does not belong to company"), 0))
    as [_ H].
  - vm_compute. reflexivity.
  - intros d [<-|[]] _. vm_compute. discriminate.
  - split; [|exact H]. right. vm_compute. reflexivity.
Defined.

(** X9.  However [index_document] ends (it returns, an exception
    propagates, or the chunker does not terminate), it touches one
    document only: started on a session without pending changes, it
    leaves the chunks and the rows of all other documents as they are, in
    the database and in the session, and of the row of its own document it
    changes nothing but the index state. *)
Theorem index_document_touches_one_document
  (ollama : str -> option Embeddings.vector) (document_id company_id : str)
  (s s' : session) (o : outcome Indexer.result) :
  committed s = working s ->
  Indexer.index_document ollama document_id company_id s = (o, s') ->
  same_but document_id (working s) (committed s') /\
  same_but document_id (working s) (working s').
Proof. apply FrameFacts.index_document_same_but. Qed.

Lemma index_document_touches_one_document_witness :
  let s := Sample.serving [None; None; None; Some (txt "connection lost")] in
  let run := Indexer.index_document Sample.embed_ok (txt "d1") (txt "c1") s in
  same_but (txt "d1") (working s) (committed (snd run)) /\
  same_but (txt "d1") (working s) (working (snd run)).
Proof.
  cbv zeta.
  apply (@index_document_touches_one_document Sample.embed_ok (txt "d1") (txt "c1")
           (Sample.serving [None; None; None; Some (txt "connection lost")])
           (snd (Indexer.index_document Sample.embed_ok (txt "d1") (txt "c1")
                   (Sample.serving [None; None; None; Some (txt "connection lost")])))
           (fst (Indexer.index_document Sample.embed_ok (txt "d1") (txt "c1")
                   (Sample.serving [None; None; None; Some (txt "connection lost")])))).
  - reflexivity.
  - vm_compute. reflexivity.
Defined.

(** X10.  After a successful return, every stored chunk of the document
    is well formed: it carries the company of the call, its embedding is
    what the endpoint returned for its own text and has 768 components,
    its text is not empty and has at most 1000 characters, its token
    estimate is [len(text) // 4], and [char_end = char_start + len(text)]
    with [char_start >= 0]. *)
Theorem index_document_stores_well_formed_chunks
  (ollama : str -> option Embeddings.vector) (document_id company_id : str)
  (s s' : session) (n : Z) :
  Indexer.index_document ollama document_id company_id s
    = (Returned (true, None, n), s') ->
  Forall (well_formed ollama company_id) (chunks_of document_id (committed s')).
Proof. apply SuccessFacts.index_document_well_formed. Qed.

Lemma index_document_stores_well_formed_chunks_witness :
  Forall (well_formed Sample.embed_ok (txt "c1"))
    (chunks_of (txt "d1")
       (committed (snd (Indexer.index_document Sample.embed_ok (txt "d1") (txt "c1")
                          (Sample.upload Sample.two_paragraphs []))))).
Proof.
  apply (@index_document_stores_well_formed_chunks Sample.embed_ok (txt "d1") (txt "c1")
           (Sample.upload Sample.two_paragraphs [])
           (snd (Indexer.index_document Sample.embed_ok (txt "d1") (txt "c1")
                   (Sample.upload Sample.two_paragraphs []))) 2).
  vm_compute. reflexivity.
Defined.

(** X11.  After a successful return with count [n], the committed index
    status of the document is [INDEXED] when [n > 0] and [FAILED] when
    [n = 0], and the session holds nothing that is not committed. *)
Theorem index_document_success_status
  (ollama : str -> option Embeddings.vector) (document_id company_id : str)
  (s s' : session) (n : Z) :
  Indexer.index_document ollama document_id company_id s
    = (Returned (true, None, n), s') ->
  status_of document_id (committed s')
    = map (fun _ => if 0 <? n then INDEXED else FAILED)
          (status_of document_id (working s)) /\
  status_of document_id (working s) <> [] /\
  working s' = committed s'.
Proof. apply SuccessFacts.index_document_status. Qed.

Lemma index_document_success_status_witness :
  let s := Sample.upload Sample.two_paragraphs [] in
  let s' := snd (Indexer.index_document Sample.embed_ok (txt "d1") (txt "c1") s) in
  status_of (txt "d1") (committed s')
    = map (fun _ => if 0 <? 2 then INDEXED else FAILED) (status_of (txt "d1") (working s)) /\
  status_of (txt "d1") (working s) <> [] /\
  working s' = committed s'.
Proof.
  cbv zeta.
  apply (@index_document_success_status Sample.embed_ok (txt "d1") (txt "c1")
           (Sample.upload Sample.two_paragraphs [])
           (snd (Indexer.index_document Sample.embed_ok (txt "d1") (txt "c1")
                   (Sample.upload Sample.two_paragraphs []))) 2).
  vm_compute. reflexivity.
Defined.

(** X12.  When the database raises nothing and no chunk of the document
    gets an embedding, [index_document] returns the failure "Failed to
    generate embeddings" with the status [FAILED] committed, and the
    document is left without any chunk: the chunks it had before were
    deleted, and the deletion committed, before the embeddings were
    asked for. *)
Theorem index_document_all_embeddings_fail
  (ollama : str -> option Embeddings.vector) (document_id company_id : str)
  (s : session) (document : Document.t) (text : str)
  (located : list HeadingDetection.located) :
  faults s = [] ->
  List.find (fun d => str_eqb (Document.id d) document_id) (documents (working s))
    = Some document ->
  Document.company_id document = company_id ->
  Document.text_extracted document = Some text ->
  HeadingDetection.chunk_text_with_headings text 1000 150 = Some located ->
  located <> [] ->
  Forall (fun t => Embeddings.embed ollama (chunk_of t) = None) located ->
  exists s',
    Indexer.index_document ollama document_id company_id s
      = (Returned (false, Some (txt "Failed to generate embeddings"), 0), s') /\
    chunks_of document_id (committed s') = [] /\
    status_of document_id (committed s')
      = map (fun _ => FAILED) (status_of document_id (working s)) /\
    working s' = committed s'.
Proof. apply HealthyDb.index_document_all_failed. Qed.

Lemma index_document_all_embeddings_fail_witness :
  exists s',
    Indexer.index_document (fun _ => None) (txt "d1") (txt "c1") (Sample.serving [])
      = (Returned (false, Some (txt "Failed to generate embeddings"), 0), s') /\
    chunks_of (txt "d1") (committed s') = [] /\
    status_of (txt "d1") (committed s')
      = map (fun _ => FAILED) (status_of (txt "d1") (working (Sample.serving []))) /\
    working s' = committed s'.
Proof.
  apply (@index_document_all_embeddings_fail (fun _ => None) (txt "d1") (txt "c1")
           (Sample.serving [])
           (Document.mk (txt "d1") (txt "c1") (txt "policy.txt") (Some (txt "x")) INDEXED None)
           (txt "x")
           (match HeadingDetection.chunk_text_with_headings (txt "x") 1000 150 with
            | Some located => located
            | None => []
            end)).
  - reflexivity.
  - vm_compute. reflexivity.
  - reflexivity.
  - reflexivity.
  - vm_compute. reflexivity.
  - vm_compute. discriminate.
  - vm_compute. repeat constructor.
Defined.

(** ** Retrieval *)

(** X13.  [perform_semantic_search] returns at most [top_k] dictionaries
    (none for a [top_k] that is not positive), on the hybrid path and on
    the semantic-only fallback. *)
Theorem search_returns_at_most_top_k
  (ollama_embed : str -> option Embeddings.vector)
  (cosine_distance : Embeddings.vector -> Embeddings.vector -> float)
  (ts_rank_cd : str -> str -> option float)
  (query company_id : str) (top_k : Z) (document_id : option str)
  (s s' : session) (hits : list Rag.Hit.t) :
  Rag.perform_semantic_search ollama_embed cosine_distance ts_rank_cd
    query company_id top_k document_id s = (Returned hits, s') ->
  len hits <= Z.max 0 top_k.
Proof. intros H. now apply SearchShape.search_shape in H. Qed.

Lemma search_returns_at_most_top_k_witness :
  len (match fst (Rag.perform_semantic_search Sample.embed_ok (Sample.distance 0)
                    Sample.no_rank (txt "code") (txt "c1") 1 None (Sample.serving [])) with
       | Returned hits => hits
       | _ => []
       end) <= Z.max 0 1.
Proof.
  apply (@search_returns_at_most_top_k Sample.embed_ok (Sample.distance 0) Sample.no_rank
           (txt "code") (txt "c1") 1 None (Sample.serving [])
           (snd (Rag.perform_semantic_search Sample.embed_ok (Sample.distance 0)
                   Sample.no_rank (txt "code") (txt "c1") 1 None (Sample.serving [])))).
  vm_compute. reflexivity.
Defined.

(** X14.  With a document filter, every returned dictionary is the
    projection of a stored chunk of that document and of the company. *)
Theorem search_respects_document_filter
  (ollama_embed : str -> option Embeddings.vector)
  (cosine_distance : Embeddings.vector -> Embeddings.vector -> float)
  (ts_rank_cd : str -> str -> option float)
  (query company_id : str) (top_k : Z) (document_id : str)
  (s s' : session) (hits : list Rag.Hit.t) :
  document_id <> [] ->
  Rag.perform_semantic_search ollama_embed cosine_distance ts_rank_cd
    query company_id top_k (Some document_id) s = (Returned hits, s') ->
  Forall (fun h => Rag.Hit.document_id h = document_id /\
                   exists dc, In dc (document_chunks (working s)) /\
                              DocumentChunk.company_id dc = company_id /\
                              DocumentChunk.document_id dc = document_id /\
                              Rag.Hit.chunk_id h = DocumentChunk.id dc) hits.
Proof. apply SearchShape.search_document_filter. Qed.

Lemma search_respects_document_filter_witness :
  Forall (fun h => Rag.Hit.document_id h = txt "d1" /\
                   exists dc, In dc (document_chunks (working (Sample.serving []))) /\
                              DocumentChunk.company_id dc = txt "c1" /\
                              DocumentChunk.document_id dc = txt "d1" /\
                              Rag.Hit.chunk_id h = DocumentChunk.id dc)
    (match fst (Rag.perform_semantic_search Sample.embed_ok (Sample.distance 0)
                  Sample.no_rank (txt "code") (txt "c1") 5 (Some (txt "d1"))
                  (Sample.serving [])) with
     | Returned hits => hits
     | _ => []
     end).
Proof.
  apply (@search_respects_document_filter Sample.embed_ok (Sample.distance 0)
           Sample.no_rank (txt "code") (txt "c1") 5 (txt "d1") (Sample.serving [])
           (snd (Rag.perform_semantic_search Sample.embed_ok (Sample.distance 0)
                   Sample.no_rank (txt "code") (txt "c1") 5 (Some (txt "d1"))
                   (Sample.serving [])))).
  - discriminate.
  - vm_compute. reflexivity.
Defined.

(** X15.  Answering a question reads the database and never writes it:
    however [answer_question] ends, the committed store and the open
    transaction are as they were. *)
Theorem answer_question_is_read_only
  (ollama_embed : str -> option Embeddings.vector)
  (ollama_chat : str -> option str)
  (cosine_distance : Embeddings.vector -> Embeddings.vector -> float)
  (ts_rank_cd : str -> str -> option float)
  (settings : Config.Settings)
  (query company_id : str) (top_k : option Z)
  (s s' : session) (o : outcome Rag.answer) :
  Rag.answer_question ollama_embed ollama_chat cosine_distance ts_rank_cd settings
    query company_id top_k s = (o, s') ->
  committed s' = committed s /\ working s' = working s.
Proof. apply ReadOnlyFacts.readonly_answer_question. Qed.

Lemma answer_question_is_read_only_witness :
  let run := Rag.answer_question Sample.embed_ok
               (Sample.chat "You have 15 vacation days.") (Sample.distance 0)
               Sample.no_rank Config.settings (txt "vacation?") (txt "c1") None
               (Sample.serving [Some (txt "no text search")]) in
  committed (snd run) = committed (Sample.serving [Some (txt "no text search")]) /\
  working (snd run) = working (Sample.serving [Some (txt "no text search")]).
Proof.
  cbv zeta.
  apply (@answer_question_is_read_only Sample.embed_ok
           (Sample.chat "You have 15 vacation days.") (Sample.distance 0)
           Sample.no_rank Config.settings (txt "vacation?") (txt "c1") None
           (Sample.serving [Some (txt "no text search")])
           (snd (Rag.answer_question Sample.embed_ok
                   (Sample.chat "You have 15 vacation days.") (Sample.distance 0)
                   Sample.no_rank Config.settings (txt "vacation?") (txt "c1") None
                   (Sample.serving [Some (txt "no text search")])))
           (fst (Rag.answer_question Sample.embed_ok
                   (Sample.chat "You have 15 vacation days.") (Sample.distance 0)
                   Sample.no_rank Config.settings (txt "vacation?") (txt "c1") None
                   (Sample.serving [Some (txt "no text search")])))).
  vm_compute. reflexivity.
Defined.

(** X16.  A question that cannot be embedded (it is blank, the endpoint
    gives nothing, or it gives a vector that has not 768 components) gets
    the fixed answer that there is not enough information, with confidence
    "none", no citation, no source and no chunk used; the database is not
    asked. *)
Theorem unembeddable_question_gets_no_information
  (ollama_embed : str -> option Embeddings.vector)
  (ollama_chat : str -> option str)
  (cosine_distance : Embeddings.vector -> Embeddings.vector -> float)
  (ts_rank_cd : str -> str -> option float)
  (settings : Config.Settings)
  (query company_id : str) (top_k : option Z) (s : session) :
  strip query = [] \/ ollama_embed query = None \/
  (exists v, ollama_embed query = Some v /\ len v <> 768) ->
  Rag.answer_question ollama_embed ollama_chat cosine_distance ts_rank_cd settings
    query company_id top_k s
  = (Returned (Rag.no_information, [], [], txt "none", 0), s).
Proof. apply PromptFacts.answer_question_unembeddable. Qed.

Lemma unembeddable_question_gets_no_information_witness :
  Rag.answer_question Sample.embed_short (Sample.chat "You have 15 vacation days.")
    (Sample.distance 0) Sample.no_rank Config.settings (txt "vacation?") (txt "c1") None
    (Sample.serving [])
  = (Returned (Rag.no_information, [], [], txt "none", 0), Sample.serving []).
Proof.
  apply (@unembeddable_question_gets_no_information Sample.embed_short
           (Sample.chat "You have 15 vacation days.") (Sample.distance 0) Sample.no_rank
           Config.settings (txt "vacation?") (txt "c1") None (Sample.serving [])).
  right. right. exists Sample.v3. split; [reflexivity|]. vm_compute. discriminate.
Defined.

(** ** Answers *)

(** X17.  The sources of an answer are deduplicated: no two of them have
    the same document and heading; the citations stand for the same
    documents and headings in the same order; and there are no more
    sources than chunks used. *)
Theorem answer_sources_are_deduplicated
  (ollama_embed : str -> option Embeddings.vector)
  (ollama_chat : str -> option str)
  (cosine_distance : Embeddings.vector -> Embeddings.vector -> float)
  (ts_rank_cd : str -> str -> option float)
  (settings : Config.Settings)
  (query company_id : str) (top_k : option Z) (s s' : session)
  (ans : str) (cits : list Rag.Citation.t) (srcs : list Rag.Source.t)
  (conf : str) (n : Z) :
  Rag.answer_question ollama_embed ollama_chat cosine_distance ts_rank_cd settings
    query company_id top_k s = (Returned (ans, cits, srcs, conf, n), s') ->
  NoDup (map source_key_of srcs) /\
  map citation_key_of cits = map source_key_of srcs /\
  len srcs <= n.
Proof.
  intros H. apply AnswerFacts.answer_question_returned in H as (hits & _ & H).
  apply SourceShape.answer_from_sources in H as (H1 & H2 & H3 & _). auto.
Qed.

Lemma answer_sources_are_deduplicated_witness :
  NoDup (map source_key_of
           [Rag.Source.mk (txt "d1") (txt "policy.txt") (Some (txt "Leave"))
              [Sample.vacation_quote]]) /\
  map citation_key_of
    [Rag.Citation.mk (txt "d1") (txt "policy.txt") (Some (txt "Leave")) 1]
  = map source_key_of
      [Rag.Source.mk (txt "d1") (txt "policy.txt") (Some (txt "Leave"))
         [Sample.vacation_quote]] /\
  len [Rag.Source.mk (txt "d1") (txt "policy.txt") (Some (txt "Leave"))
         [Sample.vacation_quote]] <= 2.
Proof.
  apply (@answer_sources_are_deduplicated Sample.embed_ok
           (Sample.chat "You have 15 vacation days.") (Sample.distance 0)
           Sample.no_rank Config.settings (txt "vacation?") (txt "c1") None
           (Sample.serving [])
           (snd (Rag.answer_question Sample.embed_ok
                   (Sample.chat "You have 15 vacation days.") (Sample.distance 0)
                   Sample.no_rank Config.settings (txt "vacation?") (txt "c1") None
                   (Sample.serving [])))
           (txt "You have 15 vacation days.")
           [Rag.Citation.mk (txt "d1") (txt "policy.txt") (Some (txt "Leave")) 1]
           [Rag.Source.mk (txt "d1") (txt "policy.txt") (Some (txt "Leave"))
              [Sample.vacation_quote]]
           (txt "high") 2).
  vm_compute. reflexivity.
Defined.

(** X18.  Every source of an answer carries at least one quote and at
    most three. *)
Theorem answer_sources_have_one_to_three_quotes
  (ollama_embed : str -> option Embeddings.vector)
  (ollama_chat : str -> option str)
  (cosine_distance : Embeddings.vector -> Embeddings.vector -> float)
  (ts_rank_cd : str -> str -> option float)
  (settings : Config.Settings)
  (query company_id : str) (top_k : option Z) (s s' : session)
  (ans : str) (cits : list Rag.Citation.t) (srcs : list Rag.Source.t)
  (conf : str) (n : Z) :
  Rag.answer_question ollama_embed ollama_chat cosine_distance ts_rank_cd settings
    query company_id top_k s = (Returned (ans, cits, srcs, conf, n), s') ->
  Forall (fun src => 1 <= len (Rag.Source.quotes src) <= 3) srcs.
Proof.
  intros H. apply AnswerFacts.answer_question_returned in H as (hits & _ & H).
  now apply SourceShape.answer_from_sources in H as (_ & _ & _ & _ & H).
Qed.

Lemma answer_sources_have_one_to_three_quotes_witness :
  Forall (fun src => 1 <= len (Rag.Source.quotes src) <= 3)
    [Rag.Source.mk (txt "d1") (txt "policy.txt") None [Sample.code_quote]].
Proof.
  apply (@answer_sources_have_one_to_three_quotes Sample.embed_ok
           (Sample.chat "The code is long.") (Sample.distance 0)
           Sample.no_rank Config.settings (txt "what is the code?") (txt "c1") None
           (Sample.serving [])
           (snd (Rag.answer_question Sample.embed_ok (Sample.chat "The code is long.")
                   (Sample.distance 0) Sample.no_rank Config.settings
                   (txt "what is the code?") (txt "c1") None (Sample.serving [])))
           (txt "The code is long.")
           [Rag.Citation.mk (txt "d1") (txt "policy.txt") None 0]
           [Rag.Source.mk (txt "d1") (txt "policy.txt") None [Sample.code_quote]]
           (txt "high") 2).
  vm_compute. reflexivity.
Defined.

(** X19.  For [max_quotes >= 1] and [max_length >= 0], [_extract_quotes]
    returns at most [max_quotes] quotes, none exactly when the chunk text
    is blank, and every quote is non-empty and has at most
    [max_length + 3] characters: a cut quote carries an ellipsis after its
    at most [max_length] characters. *)
Theorem extract_quotes_bounds (chunk_text : str) (max_quotes max_length : Z) :
  1 <= max_quotes -> 0 <= max_length ->
  len (Rag._extract_quotes chunk_text max_quotes max_length) <= max_quotes /\
  (strip chunk_text = [] <-> Rag._extract_quotes chunk_text max_quotes max_length = []) /\
  Forall (quote_ok max_length) (Rag._extract_quotes chunk_text max_quotes max_length).
Proof. apply QuoteBounds.extract_quotes_bounded. Qed.

Lemma extract_quotes_bounds_witness :
  len (Rag._extract_quotes Sample.one_long_word 2 220) <= 2 /\
  (strip Sample.one_long_word = [] <-> Rag._extract_quotes Sample.one_long_word 2 220 = []) /\
  Forall (quote_ok 220) (Rag._extract_quotes Sample.one_long_word 2 220).
Proof. apply (@extract_quotes_bounds Sample.one_long_word 2 220); lia. Defined.

(** X20.  The context that [build_rag_prompt] adds to the prompt is
    bounded: for a non-negative [RAG_MAX_CONTEXT_CHARS], the prompt for
    any chunks is at most [RAG_MAX_CONTEXT_CHARS + 28] characters longer
    than the prompt for no chunk at all (28 is the length of the
    truncation mark with its newline). *)
Theorem prompt_length_bounded (settings : Config.Settings)
  (chunks : list Rag.Hit.t) (query : str) :
  0 <= Config.RAG_MAX_CONTEXT_CHARS settings ->
  len (Rag.build_rag_prompt settings chunks query)
  <= len (Rag.build_rag_prompt settings [] query)
     + Config.RAG_MAX_CONTEXT_CHARS settings + 28.
Proof. apply PromptFacts.prompt_length. Qed.

Lemma prompt_length_bounded_witness :
  let chunks :=
    match fst (Rag.perform_semantic_search Sample.embed_ok (Sample.distance 0)
                 Sample.no_rank (txt "vacation?") (txt "c1") 5 None (Sample.serving [])) with
    | Returned hits => hits
    | _ => []
    end in
  len (Rag.build_rag_prompt Config.settings chunks (txt "vacation?"))
  <= len (Rag.build_rag_prompt Config.settings [] (txt "vacation?")) + 6000 + 28.
Proof.
  cbv zeta.
  apply (@prompt_length_bounded Config.settings
           (match fst (Rag.perform_semantic_search Sample.embed_ok (Sample.distance 0)
                         Sample.no_rank (txt "vacation?") (txt "c1") 5 None
                         (Sample.serving [])) with
            | Returned hits => hits
            | _ => []
            end)
           (txt "vacation?")).
  vm_compute. discriminate.
Defined.

(** X21.  When chunks were retrieved and passed the similarity gate, and
    the chat endpoint gives no reply, or a reply that is empty or white
    space only, [answer_question] returns the fixed error answer with
    confidence "error", no citation, no source and no chunk used. *)
Theorem no_model_reply_gives_error_answer
  (ollama_embed : str -> option Embeddings.vector)
  (ollama_chat : str -> option str)
  (cosine_distance : Embeddings.vector -> Embeddings.vector -> float)
  (ts_rank_cd : str -> str -> option float)
  (settings : Config.Settings)
  (query company_id : str) (top_k : option Z)
  (s s' : session) (first : Rag.Hit.t) (others : list Rag.Hit.t) :
  Rag.perform_semantic_search ollama_embed cosine_distance ts_rank_cd
    query company_id (Rag.top_k_or_default settings top_k) None s
    = (Returned (first :: others), s') ->
  PrimFloat.ltb
    (Rag.py_max (Rag.Hit.similarity_score first) (map Rag.Hit.similarity_score others))
    0.3%float = false ->
  (ollama_chat (Rag.build_rag_prompt settings (first :: others) query) = None \/
   exists reply,
     ollama_chat (Rag.build_rag_prompt settings (first :: others) query) = Some reply /\
     strip reply = []) ->
  Rag.answer_question ollama_embed ollama_chat cosine_distance ts_rank_cd settings
    query company_id top_k s
  = (Returned (Rag.generation_error, [], [], txt "error", 0), s').
Proof.
  intros H G R. unfold Rag.answer_question. cbv zeta. unfold bind. rewrite H.
  unfold ret. now rewrite PromptFacts.answer_from_no_reply.
Qed.

Lemma no_model_reply_gives_error_answer_witness :
  fst (Rag.answer_question Sample.embed_ok (Sample.chat "  ")
         (Sample.distance 0) Sample.no_rank Config.settings
         (txt "vacation?") (txt "c1") None (Sample.serving []))
  = Returned (Rag.generation_error, [], [], txt "error", 0).
Proof.
  set (run := Rag.perform_semantic_search Sample.embed_ok (Sample.distance 0)
                Sample.no_rank (txt "vacation?") (txt "c1")
                (Rag.top_k_or_default Config.settings None) None (Sample.serving [])).
  assert (H : run = (Returned (match fst run with
                               | Returned (first :: others) => first :: others
                               | _ => [] end), snd run))
    by (vm_compute; reflexivity).
  destruct (match fst run with
            | Returned (first :: others) => first :: others
            | _ => [] end) as [|first others] eqn:E; [vm_compute in E; discriminate|].
  rewrite (@no_model_reply_gives_error_answer Sample.embed_ok
             (Sample.chat "  ") (Sample.distance 0)
             Sample.no_rank Config.settings (txt "vacation?") (txt "c1") None
             (Sample.serving []) (snd run) first others H); [reflexivity| |].
  - vm_compute in E. injection E as <- <-. vm_compute. reflexivity.
  - right. exists (txt "  "). split; reflexivity.
Defined.

(** X22.  The cleaned answer has no two consecutive spaces and neither
    starts nor ends with white space. *)
Theorem clean_answer_has_no_double_space (answer : str) :
  contains (Rag._clean_answer_text answer) [Chunking.sp; Chunking.sp] = false /\
  strip (Rag._clean_answer_text answer) = Rag._clean_answer_text answer.
Proof. apply SqueezeFacts.clean_answer_squeezed. Qed.

(** ** Uploaded file names *)

(** X23.  [validate_mime_type] does not depend on the MIME type: because
    of [or len(allowed_mimes) > 0] it accepts a file exactly when its
    extension is one of pdf, docx and txt, which is what
    [is_allowed_extension] tests with the default settings. *)
Theorem validate_mime_type_ignores_mime_type (mime_type filename : str) :
  Documents.validate_mime_type mime_type filename
  = Documents.is_allowed_extension Documents.ALLOWED_EXTENSIONS filename.
Proof. apply DocumentsFacts.validate_mime_type_is_extension_check. Qed.

(** X24.  For a plain file name [stem.ext] (no slash, a non-empty stem,
    a non-empty extension without a dot), [get_file_extension] is the
    extension in lower case: the check of the extension is not case
    sensitive, and only what follows the last dot counts. *)
Theorem file_extension_of_plain_name (stem ext : str) :
  stem <> [] -> ext <> [] ->
  Forall (fun c => c <> Documents.slash) (stem ++ ext) ->
  Forall (fun c => c <> Documents.dot) ext ->
  Documents.get_file_extension (stem ++ [Documents.dot] ++ ext) = lower ext.
Proof. apply DocumentsFacts.get_file_extension_simple. Qed.

Lemma file_extension_of_plain_name_witness :
  Documents.get_file_extension (txt "Report.v2" ++ [Documents.dot] ++ txt "PDF")
  = lower (txt "PDF").
Proof.
  apply (@file_extension_of_plain_name (txt "Report.v2") (txt "PDF")).
  - discriminate.
  - discriminate.
  - vm_compute. repeat constructor; discriminate.
  - vm_compute. repeat constructor; discriminate.
Defined.
